(** * The metrics core of prebid-server: label-dimensioned Prometheus registry,
      pre-created time series, and the multi-backend metrics engine.

    The development follows the two Go files

      - [pbsmetrics/prometheus/prometheus.go]  (modules [prometheus] for the
        client library it drives and [prometheusmetrics] for the file itself),
      - [pbsmetrics/config/metrics.go]         (module [metricsconfig]),

    and the types of package [pbsmetrics] that both files use (module
    [pbsmetrics]).

    Conventions.

      - A Go [string] is a [string]; a Go [map[string]string] is a
        [gmap string string]; a Go [map[K]struct{}] is a [gset K]; a Go slice
        that is only read, appended to and ranged over is a [list].
      - A Go [float64] is a primitive binary64 [float]; its arithmetic is the
        kernel's IEEE 754 arithmetic, so [+] rounds as Go's does.
      - A function that can panic returns [option] (when it panics before it
        changes anything) or [result] (when the state reached at the panic
        matters): [Returned s] is a normal return, [Panicked s] a panic
        that unwinds to the caller with the state [s] left behind. *)

From Stdlib Require Import Floats.
From stdpp Require Import gmap strings list.

Set Warnings "-inexact-float,-register-all,-clear-no-such-hyp".

(** ** Outcomes of a call that mutates a receiver and may panic *)

Inductive result (S : Type) : Type :=
| Returned (s : S)
| Panicked (s : S).
Arguments Returned {S} s.
Arguments Panicked {S} s.

Definition state_of {S : Type} (r : result S) : S :=
  match r with Returned s | Panicked s => s end.

Definition returns {S : Type} (r : result S) : bool :=
  match r with Returned _ => true | Panicked _ => false end.

(** Sequencing of two statements: a panic in the first skips the second. *)
Definition and_then {S : Type} (r : result S) (k : S → result S) : result S :=
  match r with
  | Returned s => k s
  | Panicked s => Panicked s
  end.

Definition map_result {S T : Type} (f : S → T) (r : result S) : result T :=
  match r with
  | Returned s => Returned (f s)
  | Panicked s => Panicked (f s)
  end.

(** [for _, x := range xs { s = body(s, x) }] where [body] may panic and so
    leave the loop (and the function) at once. *)
Fixpoint range_over {S A : Type} (body : S → A → option S) (xs : list A) (s : S)
  : option S :=
  match xs with
  | [] => Some s
  | x :: rest =>
      match body s x with
      | Some s' => range_over body rest s'
      | None => None
      end
  end.

(** float64(z) for an integer [z]: the nearest binary64, ties to even. *)
Definition float64_of_Z (z : Z) : float :=
  SF2Prim (binary_normalize prec emax z 0 false).

(** ** Package pbsmetrics: the label contexts and the engine interface

    The declarations live in a file of the package that is not among the two
    modelled here; the records below carry the fields that prometheus.go and
    metrics.go read, with the string types they convert with [string(...)]. *)

Module pbsmetrics.

Definition DemandSource := string.
Definition RequestType := string.
Definition Browser := string.
Definition CookieFlag := string.
Definition RequestStatus := string.
Definition AdapterBid := string.
Definition AdapterError := string.
Definition CacheResult := string.
Definition RequestAction := string.
Definition BidderName := string.   (* openrtb_ext.BidderName *)
Definition BidType := string.      (* openrtb_ext.BidType *)
Definition TCFVersionValue := string.
Definition Duration := Z.          (* time.Duration, nanoseconds *)

Record Labels : Type := {
  l_Source : DemandSource;
  l_RType : RequestType;
  l_PubID : string;
  l_Browser : Browser;
  l_CookieFlag : CookieFlag;
  l_RequestStatus : RequestStatus;
}.

Record AdapterLabels : Type := {
  al_Source : DemandSource;
  al_RType : RequestType;
  al_Adapter : BidderName;
  al_PubID : string;
  al_Browser : Browser;
  al_CookieFlag : CookieFlag;
  al_AdapterBids : AdapterBid;
  al_AdapterErrors : gset AdapterError;   (* map[AdapterError]struct{} *)
}.

Record ImpLabels : Type := {
  BannerImps : bool;
  VideoImps : bool;
  AudioImps : bool;
  NativeImps : bool;
}.

Record UserLabels : Type := {
  Action : RequestAction;
  Bidder : BidderName;
}.

(** httptrace.GotConnInfo *)
Record GotConnInfo : Type := {
  Reused : bool;
  WasIdle : bool;
  IdleTime : Duration;
}.

(** The closed label domains: the value lists returned by
    [pbsmetrics.DemandTypes()], [pbsmetrics.RequestTypes()], ...,
    [openrtb_ext.BidderList()] and [openrtb_ext.BidTypes()]. Their contents
    are tables outside the modelled files, so they are a parameter of
    everything that enumerates them. *)
Record Domains : Type := {
  DemandTypes : list DemandSource;
  RequestTypes : list RequestType;
  BrowserTypes : list Browser;
  CookieTypes : list CookieFlag;
  RequestStatuses : list RequestStatus;
  AdapterBids : list AdapterBid;
  AdapterErrors : list AdapterError;
  CacheResults : list CacheResult;
  BidderList : list BidderName;
  BidTypes : list BidType;
}.

(** The methods of the interface [pbsmetrics.MetricsEngine], as the three
    implementations in metrics.go spell them out: one constructor per
    method, carrying the method's arguments. A call [e.M(args)] on an
    interface value [e] is [record (M args) e]. *)
Inductive Event : Type :=
| RecordRequest (labels : Labels)
| RecordConnectionAccept (success : bool)
| RecordConnectionClose (success : bool)
| RecordImps (implabels : ImpLabels)
| RecordLegacyImps (labels : Labels) (numImps : Z)
| RecordRequestTime (labels : Labels) (length : Duration)
| RecordAdapterPanic (labels : AdapterLabels)
| RecordAdapterRequest (labels : AdapterLabels)
| RecordAdapterConnections (bidderName : BidderName) (info : GotConnInfo)
    (obtainConnectionTime : Duration)
| RecordDNSTime (dnsLookupTime : Duration)
| RecordAdapterBidReceived (labels : AdapterLabels) (bidType : BidType) (hasAdm : bool)
| RecordAdapterPrice (labels : AdapterLabels) (cpm : float)
| RecordAdapterTime (labels : AdapterLabels) (length : Duration)
| RecordCookieSync
| RecordStoredReqCacheResult (cacheResult : CacheResult) (inc : Z)
| RecordStoredImpCacheResult (cacheResult : CacheResult) (inc : Z)
| RecordAdapterCookieSync (adapter : BidderName) (gdprBlocked : bool)
| RecordUserIDSet (userLabels : UserLabels)
| RecordPrebidCacheRequestTime (success : bool) (length : Duration)
| RecordRequestQueueTime (success : bool) (requestType : RequestType) (length : Duration)
| RecordTimeoutNotice (success : bool)
| RecordTCFReq (version : TCFVersionValue).

(** A type implements the interface when it can take every method call; the
    call leaves the receiver in a new state and either returns or panics. *)
Class MetricsEngine (B : Type) : Type :=
  record : Event → B → result B.

End pbsmetrics.

(** ** The Prometheus client library, as far as prometheus.go drives it

    The library (client_golang) is an external dependency. What is modelled
    is its documented contract: a vector is a family of series keyed by a
    label assignment; [With] validates the assignment against the vector's
    label names, creates the series when it does not exist yet and hands it
    back (and panics on an invalid assignment); a counter adds, and panics
    on a negative amount; a histogram records an observation; a registry
    refuses a collector whose descriptor is invalid (a fully-qualified name
    that is no metric name, a label name that is no label name or occurs
    twice) and a second collector with the same fully-qualified name. A
    counter's value is kept as the exact sum of what was added to it, which
    is the [float64] the library holds as long as the sum is a whole number
    of at most 2^53. *)

Module prometheus.

Abbreviation Labels := (gmap string string).

Record Opts : Type := {
  Namespace : string;
  Subsystem : string;
  Name : string;
  Help : string;
}.

(** prometheus.BuildFQName *)
Definition BuildFQName (namespace subsystem name : string) : string :=
  if String.eqb name "" then ""
  else if negb (String.eqb namespace "") && negb (String.eqb subsystem "") then
    namespace +:+ "_" +:+ subsystem +:+ "_" +:+ name
  else if negb (String.eqb namespace "") then namespace +:+ "_" +:+ name
  else if negb (String.eqb subsystem "") then subsystem +:+ "_" +:+ name
  else name.

Inductive Kind : Type := CounterKind | GaugeKind | HistogramKind.

(** What a registry keeps of a collector. *)
Record Desc : Type := {
  fqName : string;
  help : string;
  kind : Kind;
  variableLabels : list string;
  upperBounds : list float;
}.

Record Counter : Type := { c_opts : Opts; c_value : Z }.
Record Gauge : Type := { g_opts : Opts; g_value : Z }.

Record CounterVec : Type := {
  cv_opts : Opts;
  cv_labelNames : list string;
  cv_series : gmap (gmap string string) Z;
}.

Record HistogramVec : Type := {
  hv_opts : Opts;
  hv_labelNames : list string;
  hv_buckets : list float;
  hv_series : gmap (gmap string string) (list float);
}.

Definition NewCounter (opts : Opts) : Counter := {| c_opts := opts; c_value := 0 |}.
Definition NewGauge (opts : Opts) : Gauge := {| g_opts := opts; g_value := 0 |}.
Definition NewCounterVec (opts : Opts) (labelNames : list string) : CounterVec :=
  {| cv_opts := opts; cv_labelNames := labelNames; cv_series := ∅ |}.
Definition NewHistogramVec (opts : Opts) (buckets : list float) (labelNames : list string)
  : HistogramVec :=
  {| hv_opts := opts; hv_labelNames := labelNames; hv_buckets := buckets; hv_series := ∅ |}.

Definition fq (o : Opts) : string := BuildFQName (Namespace o) (Subsystem o) (Name o).

Definition Counter_Desc (c : Counter) : Desc :=
  {| fqName := fq (c_opts c); help := Help (c_opts c); kind := CounterKind;
     variableLabels := []; upperBounds := [] |}.
Definition Gauge_Desc (g : Gauge) : Desc :=
  {| fqName := fq (g_opts g); help := Help (g_opts g); kind := GaugeKind;
     variableLabels := []; upperBounds := [] |}.
Definition CounterVec_Desc (v : CounterVec) : Desc :=
  {| fqName := fq (cv_opts v); help := Help (cv_opts v); kind := CounterKind;
     variableLabels := cv_labelNames v; upperBounds := [] |}.
Definition HistogramVec_Desc (v : HistogramVec) : Desc :=
  {| fqName := fq (hv_opts v); help := Help (hv_opts v); kind := HistogramKind;
     variableLabels := hv_labelNames v; upperBounds := hv_buckets v |}.

(** A registry: the descriptors registered so far, oldest first. *)
Definition Registry : Type := list Desc.
Definition NewRegistry : Registry := [].

(** The test model.IsValidMetricName makes on the byte [b] at index [i]: a
    letter, an underscore or a colon, or a digit after the first byte. *)
Definition metricNameByte (i : nat) (b : Ascii.ascii) : bool :=
  let b := Ascii.nat_of_ascii b in
  (97 <=? b) && (b <=? 122) || (65 <=? b) && (b <=? 90) || (b =? 95) || (b =? 58)
  || (48 <=? b) && (b <=? 57) && (0 <? i).

(** The test model.LabelName.IsValid makes on a byte: as for a metric name,
    without the colon. *)
Definition labelNameByte (i : nat) (b : Ascii.ascii) : bool :=
  let b := Ascii.nat_of_ascii b in
  (97 <=? b) && (b <=? 122) || (65 <=? b) && (b <=? 90) || (b =? 95)
  || (48 <=? b) && (b <=? 57) && (0 <? i).

(** The loop of both tests: every byte passes at its index. *)
Fixpoint bytesFrom (ok : nat → Ascii.ascii → bool) (i : nat) (s : string) : bool :=
  match s with
  | EmptyString => true
  | String b s => ok i b && bytesFrom ok (S i) s
  end.

Definition IsValidMetricName (n : string) : bool :=
  if String.eqb n "" then false else bytesFrom metricNameByte 0 n.

Definition LabelName_IsValid (ln : string) : bool :=
  if String.eqb ln "" then false else bytesFrom labelNameByte 0 ln.

(** checkLabelName: a valid label name that does not start with the
    reserved prefix. *)
Definition checkLabelName (l : string) : bool :=
  LabelName_IsValid l && negb (String.prefix "__" l).

(** The error NewDesc leaves in a descriptor, as a test: the name is a valid
    metric name, every label name passes checkLabelName and no label name
    occurs twice. *)
Definition validDesc (d : Desc) : bool :=
  IsValidMetricName (fqName d)
  && forallb checkLabelName (variableLabels d)
  && bool_decide (NoDup (variableLabels d)).

(** Registry.MustRegister: panics when the descriptor carries an error or
    the name is taken. *)
Definition MustRegister (r : Registry) (d : Desc) : option Registry :=
  if negb (validDesc d) then None
  else if bool_decide (fqName d ∈ fqName <$> r) then None else Some (r ++ [d]).

(** The check [With] makes on a label map: as many entries as the vector has
    label names, and an entry for each of the names. *)
Definition validLabels (labelNames : list string) (l : gmap string string) : bool :=
  bool_decide (size l = length labelNames)
  && forallb (λ n, bool_decide (is_Some (l !! n))) labelNames.

(** CounterVec.With: get the series or create it at zero. *)
Definition CounterVec_With (v : CounterVec) (l : gmap string string) : option CounterVec :=
  if validLabels (cv_labelNames v) l then
    match cv_series v !! l with
    | Some _ => Some v
    | None =>
        Some {| cv_opts := cv_opts v; cv_labelNames := cv_labelNames v;
                cv_series := <[l := 0%Z]> (cv_series v) |}
    end
  else None.

(** CounterVec.WithLabelValues: the values in the order of the names. *)
Definition CounterVec_WithLabelValues (v : CounterVec) (lvs : list string)
  : option (CounterVec * gmap string string) :=
  if bool_decide (length lvs = length (cv_labelNames v)) then
    let l : gmap string string := list_to_map (zip (cv_labelNames v) lvs) in
    v' ← CounterVec_With v l; Some (v', l)
  else None.

(** Counter.Add on the series [l] of a vector (Inc is Add of one): panics on
    a negative amount. *)
Definition CounterVec_Add (v : CounterVec) (l : gmap string string) (x : Z)
  : option CounterVec :=
  if (x <? 0)%Z then None
  else Some {| cv_opts := cv_opts v; cv_labelNames := cv_labelNames v;
               cv_series := <[l := (default 0 (cv_series v !! l) + x)%Z]> (cv_series v) |}.

(** HistogramVec.With *)
Definition HistogramVec_With (v : HistogramVec) (l : gmap string string)
  : option HistogramVec :=
  if validLabels (hv_labelNames v) l then
    match hv_series v !! l with
    | Some _ => Some v
    | None =>
        Some {| hv_opts := hv_opts v; hv_labelNames := hv_labelNames v;
                hv_buckets := hv_buckets v;
                hv_series := <[l := []]> (hv_series v) |}
    end
  else None.

(** Observer.Observe on the series [l]: the observations, newest first. *)
Definition HistogramVec_Observe (v : HistogramVec) (l : gmap string string) (x : float)
  : HistogramVec :=
  {| hv_opts := hv_opts v; hv_labelNames := hv_labelNames v;
     hv_buckets := hv_buckets v;
     hv_series := <[l := x :: default [] (hv_series v !! l)]> (hv_series v) |}.

Definition Counter_Inc (c : Counter) : Counter :=
  {| c_opts := c_opts c; c_value := c_value c + 1 |}.
Definition Gauge_Inc (g : Gauge) : Gauge :=
  {| g_opts := g_opts g; g_value := g_value g + 1 |}.
Definition Gauge_Dec (g : Gauge) : Gauge :=
  {| g_opts := g_opts g; g_value := g_value g - 1 |}.

(** prometheus.LinearBuckets: [count] upper bounds, the first [start], each
    next one the float64 sum of the one before and [width]; panics when
    [count] is below one. *)
Fixpoint linearBuckets (start width : float) (count : nat) : list float :=
  match count with
  | O => []
  | S n => start :: linearBuckets (start + width)%float width n
  end.

Definition LinearBuckets (start width : float) (count : Z) : option (list float) :=
  if (count <? 1)%Z then None else Some (linearBuckets start width (Z.to_nat count)).

End prometheus.

(** ** Package config: the configuration read by the two files

    Declared outside the modelled files; the records carry the fields the
    two files read. *)

Module config.

Record PrometheusMetrics : Type := {
  Port : Z;
  Namespace : string;
  Subsystem : string;
}.

Record InfluxMetrics : Type := {
  Host : string;
  Database : string;
  Username : string;
  Password : string;
  MetricSendInterval : Z;
}.

(** Modelled from the spec: the type of [cfg.Metrics.Disabled] is declared
    outside the modelled files; the spec describes the option as
    "disabledFamilies (set of family name, suppresses registration
    entirely)", so it is a set of family names. *)
Definition DisabledMetrics : Type := gset string.

Record Metrics : Type := {
  Influxdb : InfluxMetrics;
  Prometheus : PrometheusMetrics;
  Disabled : DisabledMetrics;
}.

Record Configuration : Type := {
  cfg_Metrics : Metrics;
}.

End config.

(** ** prometheus.go *)

Module prometheusmetrics.

(** Defines the actual Prometheus metrics we will be using. *)
Record Metrics : Type := {
  Registry : prometheus.Registry;
  connCounter : prometheus.Gauge;
  connError : prometheus.CounterVec;
  imps : prometheus.CounterVec;
  legacyImps : prometheus.CounterVec;
  requests : prometheus.CounterVec;
  reqTimer : prometheus.HistogramVec;
  adaptRequests : prometheus.CounterVec;
  adaptTimer : prometheus.HistogramVec;
  adaptBids : prometheus.CounterVec;
  adaptPrices : prometheus.HistogramVec;
  adaptErrors : prometheus.CounterVec;
  adaptPanics : prometheus.CounterVec;
  cookieSync : prometheus.Counter;
  adaptCookieSync : prometheus.CounterVec;
  userID : prometheus.CounterVec;
  storedReqCacheResult : prometheus.CounterVec;
  storedImpCacheResult : prometheus.CounterVec;
}.

(** Assignments to one field of the struct. *)
Definition set_connCounter (m : Metrics) (v : prometheus.Gauge) : Metrics :=
  {| Registry := Registry m; connCounter := v; connError := connError m; imps := imps
     m; legacyImps := legacyImps m; requests := requests m; reqTimer := reqTimer m;
     adaptRequests := adaptRequests m; adaptTimer := adaptTimer m; adaptBids :=
     adaptBids m; adaptPrices := adaptPrices m; adaptErrors := adaptErrors m;
     adaptPanics := adaptPanics m; cookieSync := cookieSync m; adaptCookieSync :=
     adaptCookieSync m; userID := userID m; storedReqCacheResult :=
     storedReqCacheResult m; storedImpCacheResult := storedImpCacheResult m |}.
Definition set_connError (m : Metrics) (v : prometheus.CounterVec) : Metrics :=
  {| Registry := Registry m; connCounter := connCounter m; connError := v; imps :=
     imps m; legacyImps := legacyImps m; requests := requests m; reqTimer := reqTimer
     m; adaptRequests := adaptRequests m; adaptTimer := adaptTimer m; adaptBids :=
     adaptBids m; adaptPrices := adaptPrices m; adaptErrors := adaptErrors m;
     adaptPanics := adaptPanics m; cookieSync := cookieSync m; adaptCookieSync :=
     adaptCookieSync m; userID := userID m; storedReqCacheResult :=
     storedReqCacheResult m; storedImpCacheResult := storedImpCacheResult m |}.
Definition set_imps (m : Metrics) (v : prometheus.CounterVec) : Metrics :=
  {| Registry := Registry m; connCounter := connCounter m; connError := connError m;
     imps := v; legacyImps := legacyImps m; requests := requests m; reqTimer :=
     reqTimer m; adaptRequests := adaptRequests m; adaptTimer := adaptTimer m;
     adaptBids := adaptBids m; adaptPrices := adaptPrices m; adaptErrors :=
     adaptErrors m; adaptPanics := adaptPanics m; cookieSync := cookieSync m;
     adaptCookieSync := adaptCookieSync m; userID := userID m; storedReqCacheResult :=
     storedReqCacheResult m; storedImpCacheResult := storedImpCacheResult m |}.
Definition set_legacyImps (m : Metrics) (v : prometheus.CounterVec) : Metrics :=
  {| Registry := Registry m; connCounter := connCounter m; connError := connError m;
     imps := imps m; legacyImps := v; requests := requests m; reqTimer := reqTimer m;
     adaptRequests := adaptRequests m; adaptTimer := adaptTimer m; adaptBids :=
     adaptBids m; adaptPrices := adaptPrices m; adaptErrors := adaptErrors m;
     adaptPanics := adaptPanics m; cookieSync := cookieSync m; adaptCookieSync :=
     adaptCookieSync m; userID := userID m; storedReqCacheResult :=
     storedReqCacheResult m; storedImpCacheResult := storedImpCacheResult m |}.
Definition set_requests (m : Metrics) (v : prometheus.CounterVec) : Metrics :=
  {| Registry := Registry m; connCounter := connCounter m; connError := connError m;
     imps := imps m; legacyImps := legacyImps m; requests := v; reqTimer := reqTimer
     m; adaptRequests := adaptRequests m; adaptTimer := adaptTimer m; adaptBids :=
     adaptBids m; adaptPrices := adaptPrices m; adaptErrors := adaptErrors m;
     adaptPanics := adaptPanics m; cookieSync := cookieSync m; adaptCookieSync :=
     adaptCookieSync m; userID := userID m; storedReqCacheResult :=
     storedReqCacheResult m; storedImpCacheResult := storedImpCacheResult m |}.
Definition set_reqTimer (m : Metrics) (v : prometheus.HistogramVec) : Metrics :=
  {| Registry := Registry m; connCounter := connCounter m; connError := connError m;
     imps := imps m; legacyImps := legacyImps m; requests := requests m; reqTimer :=
     v; adaptRequests := adaptRequests m; adaptTimer := adaptTimer m; adaptBids :=
     adaptBids m; adaptPrices := adaptPrices m; adaptErrors := adaptErrors m;
     adaptPanics := adaptPanics m; cookieSync := cookieSync m; adaptCookieSync :=
     adaptCookieSync m; userID := userID m; storedReqCacheResult :=
     storedReqCacheResult m; storedImpCacheResult := storedImpCacheResult m |}.
Definition set_adaptRequests (m : Metrics) (v : prometheus.CounterVec) : Metrics :=
  {| Registry := Registry m; connCounter := connCounter m; connError := connError m;
     imps := imps m; legacyImps := legacyImps m; requests := requests m; reqTimer :=
     reqTimer m; adaptRequests := v; adaptTimer := adaptTimer m; adaptBids :=
     adaptBids m; adaptPrices := adaptPrices m; adaptErrors := adaptErrors m;
     adaptPanics := adaptPanics m; cookieSync := cookieSync m; adaptCookieSync :=
     adaptCookieSync m; userID := userID m; storedReqCacheResult :=
     storedReqCacheResult m; storedImpCacheResult := storedImpCacheResult m |}.
Definition set_adaptTimer (m : Metrics) (v : prometheus.HistogramVec) : Metrics :=
  {| Registry := Registry m; connCounter := connCounter m; connError := connError m;
     imps := imps m; legacyImps := legacyImps m; requests := requests m; reqTimer :=
     reqTimer m; adaptRequests := adaptRequests m; adaptTimer := v; adaptBids :=
     adaptBids m; adaptPrices := adaptPrices m; adaptErrors := adaptErrors m;
     adaptPanics := adaptPanics m; cookieSync := cookieSync m; adaptCookieSync :=
     adaptCookieSync m; userID := userID m; storedReqCacheResult :=
     storedReqCacheResult m; storedImpCacheResult := storedImpCacheResult m |}.
Definition set_adaptBids (m : Metrics) (v : prometheus.CounterVec) : Metrics :=
  {| Registry := Registry m; connCounter := connCounter m; connError := connError m;
     imps := imps m; legacyImps := legacyImps m; requests := requests m; reqTimer :=
     reqTimer m; adaptRequests := adaptRequests m; adaptTimer := adaptTimer m;
     adaptBids := v; adaptPrices := adaptPrices m; adaptErrors := adaptErrors m;
     adaptPanics := adaptPanics m; cookieSync := cookieSync m; adaptCookieSync :=
     adaptCookieSync m; userID := userID m; storedReqCacheResult :=
     storedReqCacheResult m; storedImpCacheResult := storedImpCacheResult m |}.
Definition set_adaptPrices (m : Metrics) (v : prometheus.HistogramVec) : Metrics :=
  {| Registry := Registry m; connCounter := connCounter m; connError := connError m;
     imps := imps m; legacyImps := legacyImps m; requests := requests m; reqTimer :=
     reqTimer m; adaptRequests := adaptRequests m; adaptTimer := adaptTimer m;
     adaptBids := adaptBids m; adaptPrices := v; adaptErrors := adaptErrors m;
     adaptPanics := adaptPanics m; cookieSync := cookieSync m; adaptCookieSync :=
     adaptCookieSync m; userID := userID m; storedReqCacheResult :=
     storedReqCacheResult m; storedImpCacheResult := storedImpCacheResult m |}.
Definition set_adaptErrors (m : Metrics) (v : prometheus.CounterVec) : Metrics :=
  {| Registry := Registry m; connCounter := connCounter m; connError := connError m;
     imps := imps m; legacyImps := legacyImps m; requests := requests m; reqTimer :=
     reqTimer m; adaptRequests := adaptRequests m; adaptTimer := adaptTimer m;
     adaptBids := adaptBids m; adaptPrices := adaptPrices m; adaptErrors := v;
     adaptPanics := adaptPanics m; cookieSync := cookieSync m; adaptCookieSync :=
     adaptCookieSync m; userID := userID m; storedReqCacheResult :=
     storedReqCacheResult m; storedImpCacheResult := storedImpCacheResult m |}.
Definition set_adaptPanics (m : Metrics) (v : prometheus.CounterVec) : Metrics :=
  {| Registry := Registry m; connCounter := connCounter m; connError := connError m;
     imps := imps m; legacyImps := legacyImps m; requests := requests m; reqTimer :=
     reqTimer m; adaptRequests := adaptRequests m; adaptTimer := adaptTimer m;
     adaptBids := adaptBids m; adaptPrices := adaptPrices m; adaptErrors :=
     adaptErrors m; adaptPanics := v; cookieSync := cookieSync m; adaptCookieSync :=
     adaptCookieSync m; userID := userID m; storedReqCacheResult :=
     storedReqCacheResult m; storedImpCacheResult := storedImpCacheResult m |}.
Definition set_cookieSync (m : Metrics) (v : prometheus.Counter) : Metrics :=
  {| Registry := Registry m; connCounter := connCounter m; connError := connError m;
     imps := imps m; legacyImps := legacyImps m; requests := requests m; reqTimer :=
     reqTimer m; adaptRequests := adaptRequests m; adaptTimer := adaptTimer m;
     adaptBids := adaptBids m; adaptPrices := adaptPrices m; adaptErrors :=
     adaptErrors m; adaptPanics := adaptPanics m; cookieSync := v; adaptCookieSync :=
     adaptCookieSync m; userID := userID m; storedReqCacheResult :=
     storedReqCacheResult m; storedImpCacheResult := storedImpCacheResult m |}.
Definition set_adaptCookieSync (m : Metrics) (v : prometheus.CounterVec) : Metrics :=
  {| Registry := Registry m; connCounter := connCounter m; connError := connError m;
     imps := imps m; legacyImps := legacyImps m; requests := requests m; reqTimer :=
     reqTimer m; adaptRequests := adaptRequests m; adaptTimer := adaptTimer m;
     adaptBids := adaptBids m; adaptPrices := adaptPrices m; adaptErrors :=
     adaptErrors m; adaptPanics := adaptPanics m; cookieSync := cookieSync m;
     adaptCookieSync := v; userID := userID m; storedReqCacheResult :=
     storedReqCacheResult m; storedImpCacheResult := storedImpCacheResult m |}.
Definition set_userID (m : Metrics) (v : prometheus.CounterVec) : Metrics :=
  {| Registry := Registry m; connCounter := connCounter m; connError := connError m;
     imps := imps m; legacyImps := legacyImps m; requests := requests m; reqTimer :=
     reqTimer m; adaptRequests := adaptRequests m; adaptTimer := adaptTimer m;
     adaptBids := adaptBids m; adaptPrices := adaptPrices m; adaptErrors :=
     adaptErrors m; adaptPanics := adaptPanics m; cookieSync := cookieSync m;
     adaptCookieSync := adaptCookieSync m; userID := v; storedReqCacheResult :=
     storedReqCacheResult m; storedImpCacheResult := storedImpCacheResult m |}.
Definition set_storedReqCacheResult (m : Metrics) (v : prometheus.CounterVec) : Metrics :=
  {| Registry := Registry m; connCounter := connCounter m; connError := connError m;
     imps := imps m; legacyImps := legacyImps m; requests := requests m; reqTimer :=
     reqTimer m; adaptRequests := adaptRequests m; adaptTimer := adaptTimer m;
     adaptBids := adaptBids m; adaptPrices := adaptPrices m; adaptErrors :=
     adaptErrors m; adaptPanics := adaptPanics m; cookieSync := cookieSync m;
     adaptCookieSync := adaptCookieSync m; userID := userID m; storedReqCacheResult :=
     v; storedImpCacheResult := storedImpCacheResult m |}.
Definition set_storedImpCacheResult (m : Metrics) (v : prometheus.CounterVec) : Metrics :=
  {| Registry := Registry m; connCounter := connCounter m; connError := connError m;
     imps := imps m; legacyImps := legacyImps m; requests := requests m; reqTimer :=
     reqTimer m; adaptRequests := adaptRequests m; adaptTimer := adaptTimer m;
     adaptBids := adaptBids m; adaptPrices := adaptPrices m; adaptErrors :=
     adaptErrors m; adaptPanics := adaptPanics m; cookieSync := cookieSync m;
     adaptCookieSync := adaptCookieSync m; userID := userID m; storedReqCacheResult :=
     storedReqCacheResult m; storedImpCacheResult := v |}.

Definition requestTypeLabel : string := "request_type".
Definition demandSourceLabel : string := "demand_source".
Definition browserLabel : string := "browser".
Definition cookieLabel : string := "cookie".
Definition responseStatusLabel : string := "response_status".
Definition adapterLabel : string := "adapter".
Definition adapterBidLabel : string := "adapter_bid".
Definition markupTypeLabel : string := "markup_type".
Definition bidTypeLabel : string := "bid_type".
Definition adapterErrLabel : string := "adapter_error".
Definition cacheResultLabel : string := "cache_result".
Definition gdprBlockedLabel : string := "gdpr_blocked".
Definition bannerLabel : string := "banner".
Definition videoLabel : string := "video".
Definition audioLabel : string := "audio".
Definition nativeLabel : string := "native".

Definition newConnCounter (cfg : config.PrometheusMetrics) : prometheus.Gauge :=
  let opts := {| prometheus.Namespace := config.Namespace cfg;
                 prometheus.Subsystem := config.Subsystem cfg;
                 prometheus.Name := "active_connections";
                 prometheus.Help := "Current number of active (open) connections." |} in
  prometheus.NewGauge opts.

Definition newCookieSync (cfg : config.PrometheusMetrics) : prometheus.Counter :=
  let opts := {| prometheus.Namespace := config.Namespace cfg;
                 prometheus.Subsystem := config.Subsystem cfg;
                 prometheus.Name := "cookie_sync_requests_total";
                 prometheus.Help := "Number of cookie sync requests received." |} in
  prometheus.NewCounter opts.

Definition newCounter (cfg : config.PrometheusMetrics) (name help : string)
    (labels : list string) : prometheus.CounterVec :=
  let opts := {| prometheus.Namespace := config.Namespace cfg;
                 prometheus.Subsystem := config.Subsystem cfg;
                 prometheus.Name := name;
                 prometheus.Help := help |} in
  prometheus.NewCounterVec opts labels.

Definition newHistogram (cfg : config.PrometheusMetrics) (name help : string)
    (labels : list string) (buckets : list float) : prometheus.HistogramVec :=
  let opts := {| prometheus.Namespace := config.Namespace cfg;
                 prometheus.Subsystem := config.Subsystem cfg;
                 prometheus.Name := name;
                 prometheus.Help := help |} in
  prometheus.NewHistogramVec opts buckets labels.

(** *** Label resolution *)

Definition resolveLabels (labels : pbsmetrics.Labels) : prometheus.Labels :=
  list_to_map [
    (demandSourceLabel, pbsmetrics.l_Source labels);
    (requestTypeLabel, pbsmetrics.l_RType labels);
    (browserLabel, pbsmetrics.l_Browser labels);
    (cookieLabel, pbsmetrics.l_CookieFlag labels);
    (responseStatusLabel, pbsmetrics.l_RequestStatus labels) ].

Definition resolveAdapterLabels (labels : pbsmetrics.AdapterLabels) : prometheus.Labels :=
  list_to_map [
    (demandSourceLabel, pbsmetrics.al_Source labels);
    (requestTypeLabel, pbsmetrics.al_RType labels);
    (browserLabel, pbsmetrics.al_Browser labels);
    (cookieLabel, pbsmetrics.al_CookieFlag labels);
    (adapterBidLabel, pbsmetrics.al_AdapterBids labels);
    (adapterLabel, pbsmetrics.al_Adapter labels) ].

Definition resolveBidLabels (labels : pbsmetrics.AdapterLabels)
    (bidType : pbsmetrics.BidType) (hasAdm : bool) : prometheus.Labels :=
  let bidLabels : prometheus.Labels := list_to_map [
    (demandSourceLabel, pbsmetrics.al_Source labels);
    (requestTypeLabel, pbsmetrics.al_RType labels);
    (browserLabel, pbsmetrics.al_Browser labels);
    (cookieLabel, pbsmetrics.al_CookieFlag labels);
    (adapterBidLabel, pbsmetrics.al_AdapterBids labels);
    (adapterLabel, pbsmetrics.al_Adapter labels);
    (bidTypeLabel, bidType);
    (markupTypeLabel, "unknown") ] in
  if hasAdm then <[markupTypeLabel := "adm"]> bidLabels else bidLabels.

Definition resolveAdapterErrorLabels (labels : pbsmetrics.AdapterLabels)
    (errorType : string) : prometheus.Labels :=
  list_to_map [
    (demandSourceLabel, pbsmetrics.al_Source labels);
    (requestTypeLabel, pbsmetrics.al_RType labels);
    (browserLabel, pbsmetrics.al_Browser labels);
    (cookieLabel, pbsmetrics.al_CookieFlag labels);
    (adapterErrLabel, errorType);
    (adapterLabel, pbsmetrics.al_Adapter labels) ].

Definition resolveUserSyncLabels (userLabels : pbsmetrics.UserLabels) : prometheus.Labels :=
  list_to_map [
    ("action", pbsmetrics.Action userLabels);
    ("bidder", pbsmetrics.Bidder userLabels) ].

Definition resolveImpLabels (labels : pbsmetrics.ImpLabels) : prometheus.Labels :=
  let impLabels : prometheus.Labels := list_to_map [
    (bannerLabel, "no");
    (videoLabel, "no");
    (audioLabel, "no");
    (nativeLabel, "no") ] in
  let impLabels :=
    if pbsmetrics.BannerImps labels then <[bannerLabel := "yes"]> impLabels else impLabels in
  let impLabels :=
    if pbsmetrics.VideoImps labels then <[videoLabel := "yes"]> impLabels else impLabels in
  let impLabels :=
    if pbsmetrics.AudioImps labels then <[audioLabel := "yes"]> impLabels else impLabels in
  let impLabels :=
    if pbsmetrics.NativeImps labels then <[nativeLabel := "yes"]> impLabels else impLabels in
  impLabels.

(** *** Expanding label sets *)

(** Need to be able to deep copy prometheus labels. *)
Definition copyLabel (label : prometheus.Labels) : prometheus.Labels :=
  map_fold (λ k v newLabel, <[k := v]> newLabel) ∅ label.

(** addToLabel will create a slice of labels adding a set of values tied to
    a label name. *)
Definition addToLabel (label : prometheus.Labels) (field : string) (values : list string)
  : list prometheus.Labels :=
  (λ v, <[field := v]> (copyLabel label)) <$> values.

(** addDimension will expand a slice of labels to add the dimension of a new
    set of values for a new label name. *)
Definition addDimension (labels : list prometheus.Labels) (field : string)
    (values : list string) : list prometheus.Labels :=
  match labels with
  | [] =>
      (* We are starting a new slice of labels, so we can't loop. *)
      addToLabel ∅ field values
  | _ => labels ≫= (λ l, addToLabel l field values)
  end.

(** *** Pre-creating the series *)

Section Domains.
Context (D : pbsmetrics.Domains).

(** The conversion [string(s)] of a value of one of the string types. *)
Definition string_of (s : string) : string := s.

Definition demandTypesAsString : list string := string_of <$> pbsmetrics.DemandTypes D.
Definition requestTypesAsString : list string := string_of <$> pbsmetrics.RequestTypes D.
Definition browserTypesAsString : list string := string_of <$> pbsmetrics.BrowserTypes D.
Definition cookieTypesAsString : list string := string_of <$> pbsmetrics.CookieTypes D.
Definition requestStatusesAsString : list string :=
  string_of <$> pbsmetrics.RequestStatuses D.
Definition adapterBidsAsString : list string := string_of <$> pbsmetrics.AdapterBids D.
Definition adapterErrorsAsString : list string := string_of <$> pbsmetrics.AdapterErrors D.
Definition cacheResultAsString : list string := string_of <$> pbsmetrics.CacheResults D.
Definition adaptersAsString : list string := string_of <$> pbsmetrics.BidderList D.
Definition bidTypesAsString : list string := string_of <$> pbsmetrics.BidTypes D.

(** [_ = m.f.With(l)] on a counter vector held in the field [f]. *)
Definition touchC (get : Metrics → prometheus.CounterVec)
    (set : Metrics → prometheus.CounterVec → Metrics)
    (m : Metrics) (l : prometheus.Labels) : option Metrics :=
  v ← prometheus.CounterVec_With (get m) l; Some (set m v).

(** [_ = m.f.With(l)] on a histogram vector held in the field [f]. *)
Definition touchH (get : Metrics → prometheus.HistogramVec)
    (set : Metrics → prometheus.HistogramVec → Metrics)
    (m : Metrics) (l : prometheus.Labels) : option Metrics :=
  v ← prometheus.HistogramVec_With (get m) l; Some (set m v).

(** initializeTimeSeries precreates all possible metric label values, so
    there is no locking needed at run time creating new instances. *)
Definition initializeTimeSeries (m : Metrics) : option Metrics :=
  (* Connection errors *)
  let labels := addDimension [] "ErrorType" ["accept_error"; "close_error"] in
  m ← range_over (touchC connError set_connError) labels m;

  (* Standard labels *)
  let labels := addDimension [] demandSourceLabel demandTypesAsString in
  let labels := addDimension labels requestTypeLabel requestTypesAsString in
  let labels := addDimension labels browserLabel browserTypesAsString in
  let labels := addDimension labels cookieLabel cookieTypesAsString in
  let adapterLabels := labels in (* save regenerating these dimensions for adapter status *)
  let labels := addDimension labels responseStatusLabel requestStatusesAsString in
  m ← range_over (λ m l,
         m ← touchC requests set_requests m l;
         touchH reqTimer set_reqTimer m l) labels m;

  (* Adapter labels *)
  let labels := addDimension adapterLabels adapterLabel adaptersAsString in
  let errorLabels := labels in (* save regenerating these dimensions for adapter errors *)
  let labels := addDimension labels adapterBidLabel adapterBidsAsString in
  m ← range_over (λ m l,
         m ← touchC adaptRequests set_adaptRequests m l;
         m ← touchH adaptTimer set_adaptTimer m l;
         m ← touchH adaptPrices set_adaptPrices m l;
         touchC adaptPanics set_adaptPanics m l) labels m;
  (* AdapterBid labels *)
  let labels := addDimension labels bidTypeLabel bidTypesAsString in
  let labels := addDimension labels markupTypeLabel ["unknown"; "adm"] in
  m ← range_over (touchC adaptBids set_adaptBids) labels m;
  let labels := addDimension errorLabels adapterErrLabel adapterErrorsAsString in
  m ← range_over (touchC adaptErrors set_adaptErrors) labels m;
  let cookieLabels := addDimension [] adapterLabel adaptersAsString in
  let cookieLabels := addDimension cookieLabels gdprBlockedLabel ["true"; "false"] in
  m ← range_over (touchC adaptCookieSync set_adaptCookieSync) cookieLabels m;
  let cacheLabels := addDimension [] "cache_result" cacheResultAsString in
  m ← range_over (λ m l,
         m ← touchC storedImpCacheResult set_storedImpCacheResult m l;
         touchC storedReqCacheResult set_storedReqCacheResult m l) cacheLabels m;

  (* ImpType labels *)
  let impTypeLabels := addDimension [] bannerLabel ["yes"; "no"] in
  let impTypeLabels := addDimension impTypeLabels videoLabel ["yes"; "no"] in
  let impTypeLabels := addDimension impTypeLabels audioLabel ["yes"; "no"] in
  let impTypeLabels := addDimension impTypeLabels nativeLabel ["yes"; "no"] in
  range_over (touchC imps set_imps) impTypeLabels m.

(** NewMetrics constructs the appropriate options for the Prometheus
    metrics. Needs to be fed the promethus config. A panic of MustRegister,
    of LinearBuckets or of a With in initializeTimeSeries is [None]. *)
Definition NewMetrics (cfg : config.PrometheusMetrics) : option Metrics :=
  (* define the buckets for timers *)
  timerBuckets ← prometheus.LinearBuckets 0.05 0.05 20;
  let timerBuckets := timerBuckets ++ [1.5; 2.0; 3.0; 5.0; 20.0; 50.0]%float in

  let standardLabelNames :=
    [demandSourceLabel; requestTypeLabel; browserLabel; cookieLabel; responseStatusLabel] in

  let adapterLabelNames :=
    [demandSourceLabel; requestTypeLabel; browserLabel; cookieLabel; adapterBidLabel;
     adapterLabel] in
  let bidLabelNames :=
    [demandSourceLabel; requestTypeLabel; browserLabel; cookieLabel; adapterBidLabel;
     adapterLabel; bidTypeLabel; markupTypeLabel] in
  let errorLabelNames :=
    [demandSourceLabel; requestTypeLabel; browserLabel; cookieLabel; adapterErrLabel;
     adapterLabel] in

  let impLabelNames := [bannerLabel; videoLabel; audioLabel; nativeLabel] in

  let registry := prometheus.NewRegistry in
  let connCounter_ := newConnCounter cfg in
  registry ← prometheus.MustRegister registry (prometheus.Gauge_Desc connCounter_);
  let connError_ := newCounter cfg "active_connections_total"
    "Errors reported on the connections coming in."
    ["ErrorType"] in
  registry ← prometheus.MustRegister registry (prometheus.CounterVec_Desc connError_);
  let imps_ := newCounter cfg "imps_requested"
    "Count of Impressions by type and in total requested through PBS."
    impLabelNames in
  registry ← prometheus.MustRegister registry (prometheus.CounterVec_Desc imps_);
  let legacyImps_ := newCounter cfg "legacy_imps_requested"
    "Total number of impressions requested through legacy PBS."
    standardLabelNames in
  registry ← prometheus.MustRegister registry (prometheus.CounterVec_Desc legacyImps_);
  let requests_ := newCounter cfg "requests_total"
    "Total number of requests made to PBS."
    standardLabelNames in
  registry ← prometheus.MustRegister registry (prometheus.CounterVec_Desc requests_);
  let reqTimer_ := newHistogram cfg "request_time_seconds"
    "Seconds to resolve each PBS request."
    standardLabelNames timerBuckets in
  registry ← prometheus.MustRegister registry (prometheus.HistogramVec_Desc reqTimer_);
  let adaptRequests_ := newCounter cfg "adapter_requests_total"
    "Number of requests sent out to each bidder."
    adapterLabelNames in
  registry ← prometheus.MustRegister registry (prometheus.CounterVec_Desc adaptRequests_);
  let adaptPanics_ := newCounter cfg "adapter_panics_total"
    "Number of panics generated by each bidder."
    adapterLabelNames in
  registry ← prometheus.MustRegister registry (prometheus.CounterVec_Desc adaptPanics_);
  let adaptTimer_ := newHistogram cfg "adapter_time_seconds"
    "Seconds to resolve each request to a bidder."
    adapterLabelNames timerBuckets in
  registry ← prometheus.MustRegister registry (prometheus.HistogramVec_Desc adaptTimer_);
  let adaptBids_ := newCounter cfg "adapter_bids_received_total"
    "Number of bids received from each bidder."
    bidLabelNames in
  registry ← prometheus.MustRegister registry (prometheus.CounterVec_Desc adaptBids_);
  let storedReqCacheResult_ := newCounter cfg "stored_request_cache_performance"
    "Number of stored request cache hits vs miss"
    ["cache_result"] in
  registry ←
    prometheus.MustRegister registry (prometheus.CounterVec_Desc storedReqCacheResult_);
  let storedImpCacheResult_ := newCounter cfg "stored_imp_cache_performance"
    "Number of stored imp cache hits vs miss"
    ["cache_result"] in
  registry ←
    prometheus.MustRegister registry (prometheus.CounterVec_Desc storedImpCacheResult_);
  adaptPricesBuckets ← prometheus.LinearBuckets 0.1 0.1 200;
  let adaptPrices_ := newHistogram cfg "adapter_prices"
    "Values of the bids from each bidder."
    adapterLabelNames adaptPricesBuckets in
  registry ← prometheus.MustRegister registry (prometheus.HistogramVec_Desc adaptPrices_);
  let adaptErrors_ := newCounter cfg "adapter_errors_total"
    "Number of unique error types seen in each request to an adapter."
    errorLabelNames in
  registry ← prometheus.MustRegister registry (prometheus.CounterVec_Desc adaptErrors_);
  let cookieSync_ := newCookieSync cfg in
  registry ← prometheus.MustRegister registry (prometheus.Counter_Desc cookieSync_);
  let adaptCookieSync_ := newCounter cfg "cookie_sync_returns"
    "Number of syncs generated for a bidder, and if they were subsequently blocked."
    [adapterLabel; gdprBlockedLabel] in
  registry ← prometheus.MustRegister registry (prometheus.CounterVec_Desc adaptCookieSync_);
  let userID_ := newCounter cfg "setuid_calls"
    "Number of user ID syncs performed"
    ["action"; "bidder"] in
  registry ← prometheus.MustRegister registry (prometheus.CounterVec_Desc userID_);

  initializeTimeSeries
    {| Registry := registry; connCounter := connCounter_; connError := connError_;
       imps := imps_; legacyImps := legacyImps_; requests := requests_;
       reqTimer := reqTimer_; adaptRequests := adaptRequests_; adaptTimer := adaptTimer_;
       adaptBids := adaptBids_; adaptPrices := adaptPrices_; adaptErrors := adaptErrors_;
       adaptPanics := adaptPanics_; cookieSync := cookieSync_;
       adaptCookieSync := adaptCookieSync_; userID := userID_;
       storedReqCacheResult := storedReqCacheResult_;
       storedImpCacheResult := storedImpCacheResult_ |}.

End Domains.

(** *** The recording methods *)

(** [v.With(l).Add(x)] ([Inc] is [Add] of one): [With] may create the series
    before [Add] panics. *)
Definition withAdd (v : prometheus.CounterVec) (l : prometheus.Labels) (x : Z)
  : result prometheus.CounterVec :=
  match prometheus.CounterVec_With v l with
  | None => Panicked v
  | Some v1 =>
      match prometheus.CounterVec_Add v1 l x with
      | None => Panicked v1
      | Some v2 => Returned v2
      end
  end.

(** [v.WithLabelValues(lvs...).Inc()] *)
Definition withLabelValuesInc (v : prometheus.CounterVec) (lvs : list string)
  : result prometheus.CounterVec :=
  match prometheus.CounterVec_WithLabelValues v lvs with
  | None => Panicked v
  | Some (v1, l) =>
      match prometheus.CounterVec_Add v1 l 1 with
      | None => Panicked v1
      | Some v2 => Returned v2
      end
  end.

(** [v.With(l).Observe(x)] *)
Definition withObserve (v : prometheus.HistogramVec) (l : prometheus.Labels) (x : float)
  : result prometheus.HistogramVec :=
  match prometheus.HistogramVec_With v l with
  | None => Panicked v
  | Some v1 => Returned (prometheus.HistogramVec_Observe v1 l x)
  end.

(** float64(length) / float64(time.Second) *)
Definition seconds (length : pbsmetrics.Duration) : float :=
  (float64_of_Z length / float64_of_Z 1000000000)%float.

Definition RecordConnectionAccept (me : Metrics) (success : bool) : result Metrics :=
  if success then Returned (set_connCounter me (prometheus.Gauge_Inc (connCounter me)))
  else map_result (set_connError me) (withLabelValuesInc (connError me) ["accept_error"]).

Definition RecordConnectionClose (me : Metrics) (success : bool) : result Metrics :=
  if success then Returned (set_connCounter me (prometheus.Gauge_Dec (connCounter me)))
  else map_result (set_connError me) (withLabelValuesInc (connError me) ["close_error"]).

Definition RecordRequest (me : Metrics) (labels : pbsmetrics.Labels) : result Metrics :=
  map_result (set_requests me) (withAdd (requests me) (resolveLabels labels) 1).

Definition RecordImps (me : Metrics) (implabels : pbsmetrics.ImpLabels) : result Metrics :=
  map_result (set_imps me) (withAdd (imps me) (resolveImpLabels implabels) 1).

Definition RecordLegacyImps (me : Metrics) (labels : pbsmetrics.Labels) (numImps : Z)
  : result Metrics :=
  let lbls := resolveLabels labels in
  map_result (set_legacyImps me) (withAdd (legacyImps me) lbls numImps).

Definition RecordRequestTime (me : Metrics) (labels : pbsmetrics.Labels)
    (length : pbsmetrics.Duration) : result Metrics :=
  let time := seconds length in
  map_result (set_reqTimer me) (withObserve (reqTimer me) (resolveLabels labels) time).

Definition RecordAdapterPanic (me : Metrics) (labels : pbsmetrics.AdapterLabels)
  : result Metrics :=
  map_result (set_adaptPanics me) (withAdd (adaptPanics me) (resolveAdapterLabels labels) 1).

(** The loop [for k := range labels.AdapterErrors] visits the keys of a Go
    map in an unspecified order; [set_fold] fixes one. *)
Definition RecordAdapterRequest (me : Metrics) (labels : pbsmetrics.AdapterLabels)
  : result Metrics :=
  and_then
    (map_result (set_adaptRequests me)
       (withAdd (adaptRequests me) (resolveAdapterLabels labels) 1))
    (λ me,
       set_fold (λ k (acc : result Metrics),
           and_then acc (λ me,
             map_result (set_adaptErrors me)
               (withAdd (adaptErrors me) (resolveAdapterErrorLabels labels (string_of k)) 1)))
         (Returned me) (pbsmetrics.al_AdapterErrors labels)).

Definition RecordAdapterBidReceived (me : Metrics) (labels : pbsmetrics.AdapterLabels)
    (bidType : pbsmetrics.BidType) (hasAdm : bool) : result Metrics :=
  map_result (set_adaptBids me)
    (withAdd (adaptBids me) (resolveBidLabels labels bidType hasAdm) 1).

Definition RecordAdapterPrice (me : Metrics) (labels : pbsmetrics.AdapterLabels)
    (cpm : float) : result Metrics :=
  map_result (set_adaptPrices me)
    (withObserve (adaptPrices me) (resolveAdapterLabels labels) cpm).

Definition RecordAdapterTime (me : Metrics) (labels : pbsmetrics.AdapterLabels)
    (length : pbsmetrics.Duration) : result Metrics :=
  let time := seconds length in
  map_result (set_adaptTimer me)
    (withObserve (adaptTimer me) (resolveAdapterLabels labels) time).

Definition RecordCookieSync (me : Metrics) (labels : pbsmetrics.Labels) : result Metrics :=
  Returned (set_cookieSync me (prometheus.Counter_Inc (cookieSync me))).

Definition RecordAdapterCookieSync (me : Metrics) (adapter : pbsmetrics.BidderName)
    (gdprBlocked : bool) : result Metrics :=
  let labels : prometheus.Labels := list_to_map [ (adapterLabel, string_of adapter) ] in
  let labels :=
    if gdprBlocked then <[gdprBlockedLabel := "true"]> labels
    else <[gdprBlockedLabel := "false"]> labels in
  map_result (set_adaptCookieSync me) (withAdd (adaptCookieSync me) labels 1).

(** RecordStoredReqCacheResult records cache hits and misses when looking up
    stored requests *)
Definition RecordStoredReqCacheResult (me : Metrics) (cacheResult : pbsmetrics.CacheResult)
    (inc : Z) : result Metrics :=
  let labels : prometheus.Labels := list_to_map [ (cacheResultLabel, string_of cacheResult) ] in
  map_result (set_storedReqCacheResult me) (withAdd (storedReqCacheResult me) labels inc).

(** RecordStoredImpCacheResult records cache hits and misses when looking up
    stored imps *)
Definition RecordStoredImpCacheResult (me : Metrics) (cacheResult : pbsmetrics.CacheResult)
    (inc : Z) : result Metrics :=
  let labels : prometheus.Labels := list_to_map [ (cacheResultLabel, string_of cacheResult) ] in
  map_result (set_storedImpCacheResult me) (withAdd (storedImpCacheResult me) labels inc).

Definition RecordUserIDSet (me : Metrics) (userLabels : pbsmetrics.UserLabels)
  : result Metrics :=
  map_result (set_userID me) (withAdd (userID me) (resolveUserSyncLabels userLabels) 1).

End prometheusmetrics.

(** ** metrics.go *)

Module metricsconfig.

(** MultiMetricsEngine logs metrics to multiple metrics databases. The type
    is a slice of interface values; [B] is the type of the values it holds. *)
Definition MultiMetricsEngine (B : Type) : Type := list B.

Section Multi.
Context {B : Type} {engineB : pbsmetrics.MetricsEngine B}.

(** Each of the 22 methods of [MultiMetricsEngine] is the same loop,
<<
    for _, thisME := range *me { thisME.M(args) }
>>
    with the method [M] and its arguments the event [ev]. A panic of
    [thisME.M(args)] leaves the loop and the method: nothing in the file
    recovers it. *)
Fixpoint Multi_record (ev : pbsmetrics.Event) (me : MultiMetricsEngine B)
  : result (MultiMetricsEngine B) :=
  match me with
  | [] => Returned []
  | thisME :: rest =>
      match pbsmetrics.record ev thisME with
      | Returned thisME' => map_result (cons thisME') (Multi_record ev rest)
      | Panicked thisME' => Panicked (thisME' :: rest)
      end
  end.

End Multi.

(** DummyMetricsEngine is a Noop metrics engine in case no metrics are
    configured. *)
Inductive DummyMetricsEngine : Type := Dummy.

Definition Dummy_record (ev : pbsmetrics.Event) (me : DummyMetricsEngine)
  : result DummyMetricsEngine := Returned me.

(** MockMetricsData will have fields to update via the MetricsEngine
    interface methods. *)
Record MockMetricsData : Type := { DNSLookupTimer : float }.

(** [type MockMetricsEngine func() *MockMetricsData]: a function value, which
    is nil ([None]) or a closure over the data it returns ([Some]). *)
Definition MockMetricsEngine : Type := option MockMetricsData.

(** The argument is a pointer, nil being [None]. *)
Definition NewMockMetricsEngine (metricsData : option MockMetricsData) : MockMetricsEngine :=
  let metricsData :=
    match metricsData with
    | None => {| DNSLookupTimer := 0 |}
    | Some d => d
    end in
  Some metricsData.

(** Every method is a noop but RecordDNSTime, which calls the function value
    (a nil function value panics when called) and adds one to the timer. *)
Definition Mock_record (ev : pbsmetrics.Event) (metricData : MockMetricsEngine)
  : result MockMetricsEngine :=
  match ev with
  | pbsmetrics.RecordDNSTime dnsLookupTime =>
      match metricData with
      | None => Panicked None
      | Some d => Returned (Some {| DNSLookupTimer := (DNSLookupTimer d + 1.00)%float |})
      end
  | _ => Returned metricData
  end.

Global Instance Dummy_engine : pbsmetrics.MetricsEngine DummyMetricsEngine := Dummy_record.
Global Instance Mock_engine : pbsmetrics.MetricsEngine MockMetricsEngine := Mock_record.
Global Instance Multi_engine {B : Type} `{!pbsmetrics.MetricsEngine B}
  : pbsmetrics.MetricsEngine (MultiMetricsEngine B) := Multi_record.

(** What influxdb.InfluxDB is started with, in a goroutine of its own. *)
Record InfluxReporter : Type := {
  ir_interval : Z;
  ir_url : string;
  ir_database : string;
  ir_username : string;
  ir_password : string;
}.

Section Engines.
(** The go-metrics backend [*pbsmetrics.Metrics] and its constructor
    [pbsmetrics.NewMetrics] are in a file outside the modelled ones: its
    state, constructor and methods are parameters. So are the methods of
    [*prometheusmetrics.Metrics] as the interface calls them: prometheus.go
    declares the sixteen recording methods modelled above, an older set than
    the interface of metrics.go. *)
Context {GoMetrics : Type}.
Context (pbsmetrics_NewMetrics :
  string → list pbsmetrics.BidderName → config.DisabledMetrics → GoMetrics).
Context `{!pbsmetrics.MetricsEngine GoMetrics}.
Context `{!pbsmetrics.MetricsEngine prometheusmetrics.Metrics}.
Context (D : pbsmetrics.Domains).

(** A value of the interface type [pbsmetrics.MetricsEngine]: one of the
    implementing types of the two files, with the object it points to. *)
Inductive EngineValue : Type :=
| OfGoMetrics (g : GoMetrics)
| OfPrometheus (p : prometheusmetrics.Metrics)
| OfMulti (l : MultiMetricsEngine EngineValue)
| OfDummy (d : DummyMetricsEngine)
| OfMock (f : MockMetricsEngine).

(** Dynamic dispatch of a method call on an interface value. *)
Fixpoint Engine_record (ev : pbsmetrics.Event) (e : EngineValue) : result EngineValue :=
  match e with
  | OfGoMetrics g => map_result OfGoMetrics (pbsmetrics.record ev g)
  | OfPrometheus p => map_result OfPrometheus (pbsmetrics.record ev p)
  | OfMulti l =>
      map_result OfMulti (Multi_record (engineB := Engine_record) ev l)
  | OfDummy d => map_result OfDummy (Dummy_record ev d)
  | OfMock f => map_result OfMock (Mock_record ev f)
  end.

Global Instance Engine_engine : pbsmetrics.MetricsEngine EngineValue := Engine_record.

(** DetailedMetricsEngine is a MultiMetricsEngine that preserves links to
    underlying metrics engines. The two links are pointers to the backends
    the embedded engine holds (nil is [None]). *)
Record DetailedMetricsEngine : Type := {
  MetricsEngine : EngineValue;
  GoMetrics_ : option GoMetrics;
  PrometheusMetrics : option prometheusmetrics.Metrics;
}.

(** NewMetricsEngine reads the configuration and returns the appropriate
    metrics engine for this instance, with the reporters it started. [None]
    is a panic of [prometheusmetrics.NewMetrics]. The call of
    [prometheusmetrics.NewMetrics] also passes [cfg.Metrics.Disabled]; the
    function of prometheus.go has no parameter that receives it. *)
Definition NewMetricsEngine (cfg : config.Configuration)
    (adapterList : list pbsmetrics.BidderName)
  : option (DetailedMetricsEngine * list InfluxReporter) :=
  let metrics := config.cfg_Metrics cfg in
  (* Create a list of metrics engines to use. *)
  let engineList : MultiMetricsEngine EngineValue := [] in
  let '(goMetrics, engineList, started) :=
    if negb (String.eqb (config.Host (config.Influxdb metrics)) "") then
      (* Currently use go-metrics as the metrics piece for influx *)
      let g := pbsmetrics_NewMetrics "prebidserver." adapterList (config.Disabled metrics) in
      (Some g, engineList ++ [OfGoMetrics g],
       (* Set up the Influx logger *)
       [ {| ir_interval := 1000000000 * config.MetricSendInterval (config.Influxdb metrics);
            ir_url := config.Host (config.Influxdb metrics);
            ir_database := config.Database (config.Influxdb metrics);
            ir_username := config.Username (config.Influxdb metrics);
            ir_password := config.Password (config.Influxdb metrics) |} ])
    else (None, engineList, []) in
  '(prometheusMetrics, engineList) ←
    (if negb (config.Port (config.Prometheus metrics) =? 0)%Z then
       (* Set up the Prometheus metrics. *)
       p ← prometheusmetrics.NewMetrics D (config.Prometheus metrics);
       Some (Some p, engineList ++ [OfPrometheus p])
     else Some (None, engineList));
  (* Now return the proper metrics engine *)
  engine ←
    (if (1 <? length engineList)%nat then Some (OfMulti engineList)
     else if (length engineList =? 1)%nat then engineList !! 0%nat
     else Some (OfDummy Dummy));
  Some ({| MetricsEngine := engine; GoMetrics_ := goMetrics;
           PrometheusMetrics := prometheusMetrics |}, started).

(** A method call on a [DetailedMetricsEngine] is the call on the engine it
    embeds. *)
Definition Detailed_record (ev : pbsmetrics.Event) (e : DetailedMetricsEngine)
  : result DetailedMetricsEngine :=
  map_result
    (λ engine, {| MetricsEngine := engine; GoMetrics_ := GoMetrics_ e;
                  PrometheusMetrics := PrometheusMetrics e |})
    (Engine_record ev (MetricsEngine e)).

End Engines.

End metricsconfig.

(** * Properties *)

Import prometheusmetrics.

(** ** Sample inputs

    A small instance of the label domains, with values of the upstream
    tables, and a Prometheus configuration. *)

Definition sampleDomains : pbsmetrics.Domains := {|
  pbsmetrics.DemandTypes := ["web"; "app"];
  pbsmetrics.RequestTypes := ["legacy"; "amp"];
  pbsmetrics.BrowserTypes := ["safari"; "other"];
  pbsmetrics.CookieTypes := ["exists"; "no"];
  pbsmetrics.RequestStatuses := ["ok"; "err"];
  pbsmetrics.AdapterBids := ["bid"; "nobid"];
  pbsmetrics.AdapterErrors := ["badinput"; "timeout"];
  pbsmetrics.CacheResults := ["hit"; "miss"];
  pbsmetrics.BidderList := ["appnexus"; "rubicon"];
  pbsmetrics.BidTypes := ["banner"; "video"];
|}.

Definition samplePrometheus : config.PrometheusMetrics := {|
  config.Port := 9090;
  config.Namespace := "prebid";
  config.Subsystem := "server";
|}.

Definition sampleLabels : pbsmetrics.Labels := {|
  pbsmetrics.l_Source := "web";
  pbsmetrics.l_RType := "amp";
  pbsmetrics.l_PubID := "";
  pbsmetrics.l_Browser := "safari";
  pbsmetrics.l_CookieFlag := "no";
  pbsmetrics.l_RequestStatus := "ok";
|}.

(** ** Generic facts about loops and results *)

Lemma range_over_app {S A : Type} (body : S → A → option S) (xs ys : list A) (s : S) :
  range_over body (xs ++ ys) s = range_over body xs s ≫= range_over body ys.
Proof.
  revert s. induction xs as [|x xs IH]; intros s; simpl; [done|].
  destruct (body s x); simpl; [apply IH | done].
Qed.

(** An invariant of the loop body is an invariant of the loop. *)
Lemma range_over_inv {S A : Type} (P : S → Prop) (body : S → A → option S)
    (xs : list A) (s s' : S) :
  (∀ s x s', body s x = Some s' → P s → P s') →
  P s → range_over body xs s = Some s' → P s'.
Proof.
  intros Hbody. revert s. induction xs as [|x xs IH]; intros s Hs Hrun; simpl in Hrun.
  - by simplify_eq.
  - destruct (body s x) as [s1|] eqn:Hstep; [|done]. eauto.
Qed.

(** ** Derived labels *)

(** The token a boolean flag is rendered as. *)
Definition yes_no (b : bool) : string := if b then "yes" else "no".

(** C6. Derived-label determinism: with a response payload ([hasAdm] true)
    the markup_type label of [resolveBidLabels] is "adm", without one it is
    "unknown", and [hasAdm] touches no other label; [resolveImpLabels]
    renders the four impression flags as the labels banner, video, audio
    and native, each "yes" for a set flag and "no" otherwise, so four set
    flags resolve to {banner:"yes", video:"yes", audio:"yes", native:"yes"}. *)
Theorem derived_label_determinism :
  (∀ labels bidType,
     resolveBidLabels labels bidType true !! markupTypeLabel = Some "adm")
  ∧ (∀ labels bidType,
       resolveBidLabels labels bidType false !! markupTypeLabel = Some "unknown")
  ∧ (∀ labels bidType k, k ≠ markupTypeLabel →
       resolveBidLabels labels bidType true !! k = resolveBidLabels labels bidType false !! k)
  ∧ (∀ labels,
       resolveImpLabels labels =
       list_to_map [ (bannerLabel, yes_no (pbsmetrics.BannerImps labels));
                     (videoLabel, yes_no (pbsmetrics.VideoImps labels));
                     (audioLabel, yes_no (pbsmetrics.AudioImps labels));
                     (nativeLabel, yes_no (pbsmetrics.NativeImps labels)) ])
  ∧ resolveImpLabels
      {| pbsmetrics.BannerImps := true; pbsmetrics.VideoImps := true;
         pbsmetrics.AudioImps := true; pbsmetrics.NativeImps := true |}
    = list_to_map [ ("banner", "yes"); ("video", "yes"); ("audio", "yes");
                    ("native", "yes") ].
Proof.
  split_and!.
  - intros labels bidType. unfold resolveBidLabels. apply lookup_insert_eq.
  - reflexivity.
  - intros labels bidType k Hk. unfold resolveBidLabels. by rewrite lookup_insert_ne.
  - intros [[] [] [] []]; reflexivity.
  - reflexivity.
Qed.

(** ** The cookie sync counter *)

(** Every field of the struct but [cookieSync] is the same in both states. *)
Definition same_but_cookieSync (m m' : Metrics) : Prop :=
  Registry m' = Registry m ∧ connCounter m' = connCounter m
  ∧ connError m' = connError m ∧ imps m' = imps m ∧ legacyImps m' = legacyImps m
  ∧ requests m' = requests m ∧ reqTimer m' = reqTimer m
  ∧ adaptRequests m' = adaptRequests m ∧ adaptTimer m' = adaptTimer m
  ∧ adaptBids m' = adaptBids m ∧ adaptPrices m' = adaptPrices m
  ∧ adaptErrors m' = adaptErrors m ∧ adaptPanics m' = adaptPanics m
  ∧ adaptCookieSync m' = adaptCookieSync m ∧ userID m' = userID m
  ∧ storedReqCacheResult m' = storedReqCacheResult m
  ∧ storedImpCacheResult m' = storedImpCacheResult m.

(** C10. [RecordCookieSync] does not depend on its labels argument: for any
    two label contexts the call returns in the same state, in which the
    cookie_sync_requests_total counter is one higher, keeps its options,
    and every other field of the metrics is as before. *)
Theorem RecordCookieSync_ignores_labels (me : Metrics) (l1 l2 : pbsmetrics.Labels) :
  RecordCookieSync me l1 = RecordCookieSync me l2
  ∧ ∃ me', RecordCookieSync me l1 = Returned me'
      ∧ prometheus.c_value (cookieSync me') = (prometheus.c_value (cookieSync me) + 1)%Z
      ∧ prometheus.c_opts (cookieSync me') = prometheus.c_opts (cookieSync me)
      ∧ same_but_cookieSync me me'.
Proof.
  split; [reflexivity|].
  eexists. split; [reflexivity|]. unfold same_but_cookieSync. simpl. done.
Qed.

(** ** Enumerating label sets *)

(** A dimension: a label name and the values the label takes. *)
Definition Dimension : Type := string * list string.

(** What initializeTimeSeries computes for a list of dimensions: starting
    from the empty slice, one [addDimension] per dimension. *)
Definition enumerate (dims : list Dimension) : list prometheus.Labels :=
  foldl (λ labels d, addDimension labels d.1 d.2) [] dims.

(** One step of the cartesian product: every partial assignment of [S]
    extended by every value of the dimension. *)
Definition expand (S : list prometheus.Labels) (d : Dimension) : list prometheus.Labels :=
  S ≫= (λ s, (λ v, <[d.1 := v]> s) <$> d.2).

(** The algorithm in the words of the specification: start with a singleton
    set containing one empty assignment, and replace the set by its
    expansion for each dimension in order. *)
Definition cartesian (dims : list Dimension) : list prometheus.Labels :=
  foldl expand [∅] dims.

(** The cartesian product of a list of domains, as tuples of values. *)
Fixpoint tuples (domains : list (list string)) : list (list string) :=
  match domains with
  | [] => [[]]
  | d :: ds => d ≫= (λ v, cons v <$> tuples ds)
  end.

(** The assignment that gives the i-th name the i-th value. *)
Definition assignment (names : list string) (vs : list string) : prometheus.Labels :=
  list_to_map (zip names vs).

Definition product (ns : list nat) : nat := foldr Nat.mul 1 ns.

Lemma copyLabel_id (label : prometheus.Labels) : copyLabel label = label.
Proof.
  unfold copyLabel.
  apply (map_fold_weak_ind (λ r m, r = m)); [done|].
  by intros i x m r _ ->.
Qed.

Lemma addToLabel_eq (label : prometheus.Labels) field values :
  addToLabel label field values = (λ v, <[field := v]> label) <$> values.
Proof. unfold addToLabel. by rewrite copyLabel_id. Qed.

Lemma addDimension_expand labels field values :
  addDimension labels field values
  = expand (match labels with [] => [∅] | _ => labels end) (field, values).
Proof.
  unfold addDimension, expand. destruct labels as [|l labels].
  - rewrite bind_singleton. apply addToLabel_eq.
  - apply list_bind_ext; [|done]. intros s. apply addToLabel_eq.
Qed.

Lemma expand_nil (d : Dimension) : expand [] d = [].
Proof. done. Qed.

Lemma length_expand S (d : Dimension) : length (expand S d) = length S * length d.2.
Proof.
  unfold expand. induction S as [|s S IH]; [done|].
  rewrite bind_cons, length_app, IH, length_fmap. simpl. lia.
Qed.

Lemma expand_nonempty S (d : Dimension) : S ≠ [] → d.2 ≠ [] → expand S d ≠ [].
Proof.
  intros HS Hd Hnil. apply (f_equal length) in Hnil. rewrite length_expand in Hnil.
  destruct S; [done|]. destruct (d.2); [done|]. simpl in Hnil. lia.
Qed.

Lemma foldl_addDimension_expand (dims : list Dimension) (S : list prometheus.Labels) :
  S ≠ [] → Forall (λ d, d.2 ≠ []) dims →
  foldl (λ labels d, addDimension labels d.1 d.2) S dims = foldl expand S dims.
Proof.
  intros HS Hdims. revert S HS.
  induction Hdims as [|d dims Hd _ IH]; intros S HS; simpl; [done|].
  rewrite addDimension_expand. destruct S as [|s S]; [done|].
  destruct d as [f vs]. apply IH. by apply expand_nonempty.
Qed.

(** On dimensions with non-empty domains, and at least one of them, the
    code computes the cartesian product of the specification. *)
Lemma enumerate_cartesian (dims : list Dimension) :
  dims ≠ [] → Forall (λ d, d.2 ≠ []) dims → enumerate dims = cartesian dims.
Proof.
  intros Hne Hdims. destruct dims as [|d dims]; [done|].
  unfold enumerate, cartesian. cbn [foldl]. rewrite addDimension_expand.
  destruct d as [f vs]. apply Forall_cons in Hdims as [Hd Hdims].
  apply foldl_addDimension_expand; [|done]. by apply expand_nonempty.
Qed.

Lemma length_foldl_expand (dims : list Dimension) S :
  length (foldl expand S dims) = length S * product ((λ d : Dimension, length d.2) <$> dims).
Proof.
  revert S. induction dims as [|d dims IH]; intros S; simpl.
  - unfold product. simpl. lia.
  - rewrite IH, length_expand. unfold product. simpl.
    rewrite <-Nat.mul_assoc. reflexivity.
Qed.

Lemma length_cartesian (dims : list Dimension) :
  length (cartesian dims) = product ((λ d : Dimension, length d.2) <$> dims).
Proof. unfold cartesian. rewrite length_foldl_expand. simpl. lia. Qed.

Lemma length_tuples (domains : list (list string)) (t : list string) :
  t ∈ tuples domains → length t = length domains.
Proof.
  revert t. induction domains as [|d ds IH]; intros t; simpl.
  - by intros ->%list_elem_of_singleton.
  - intros (v & Ht & _)%list_elem_of_bind.
    apply list_elem_of_fmap in Ht as (t' & -> & Ht'). simpl. f_equal. by apply IH.
Qed.

Lemma elem_of_tuples (domains : list (list string)) (t : list string) :
  t ∈ tuples domains ↔ Forall2 (λ v d, v ∈ d) t domains.
Proof.
  revert t. induction domains as [|d ds IH]; intros t; simpl.
  - rewrite list_elem_of_singleton. split; [by intros -> | by inv 1].
  - rewrite list_elem_of_bind. split.
    + intros (v & Ht & Hv). apply list_elem_of_fmap in Ht as (t' & -> & Ht').
      constructor; [done|]. by apply IH.
    + inv 1 as [|v ? t' ? Hv Ht']. exists v. split; [|done].
      apply list_elem_of_fmap. exists t'. split; [done|]. by apply IH.
Qed.

Lemma NoDup_tuples (domains : list (list string)) :
  Forall NoDup domains → NoDup (tuples domains).
Proof.
  induction 1 as [|d ds Hd _ IH]; simpl; [apply NoDup_singleton|].
  apply NoDup_bind; [| |done].
  - intros v1 v2 t _ _ (t1 & -> & _)%list_elem_of_fmap (t2 & Heq & _)%list_elem_of_fmap.
    by simplify_eq.
  - intros v _. apply NoDup_fmap_2; [|done]. by intros ?? [=].
Qed.

Lemma tuples_snoc (domains : list (list string)) (d : list string) :
  tuples (domains ++ [d]) = tuples domains ≫= (λ t, (λ v, t ++ [v]) <$> d).
Proof.
  induction domains as [|d0 ds IH].
  - cbn [app tuples]. rewrite bind_singleton.
    induction d as [|v d IHd]; [done|]. rewrite bind_cons, IHd. done.
  - cbn [app tuples]. rewrite IH. clear IH.
    induction d0 as [|v0 d0 IH0]; [done|].
    rewrite !bind_cons, bind_app, IH0. f_equal.
    rewrite list_fmap_bind. generalize (tuples ds). intros ts.
    induction ts as [|t ts IHt]; [done|].
    rewrite !bind_cons, fmap_app, IHt. f_equal.
    rewrite <-list_fmap_compose. done.
Qed.

Lemma assignment_snoc (names : list string) (n : string) (t : list string) (v : string) :
  n ∉ names → length t = length names →
  assignment (names ++ [n]) (t ++ [v]) = <[n := v]> (assignment names t).
Proof.
  intros Hn Hlen. unfold assignment.
  rewrite zip_with_app by done. simpl.
  apply list_to_map_snoc. rewrite fst_zip by lia. done.
Qed.

(** The product of the specification, tuple by tuple. *)
Lemma cartesian_tuples (dims : list Dimension) :
  NoDup dims.*1 → cartesian dims = assignment dims.*1 <$> tuples dims.*2.
Proof.
  induction dims as [|[n d] dims IH] using rev_ind; [done|].
  rewrite !fmap_app. simpl. intros [Hnodup [Hn _]]%NoDup_app.
  unfold cartesian. rewrite foldl_app. simpl. fold (cartesian dims).
  rewrite IH, tuples_snoc by done. unfold expand. simpl.
  rewrite list_fmap_bind.
  assert (Hfresh : n ∉ dims.*1).
  { intros Hin. apply (Hn n Hin). apply list_elem_of_singleton. done. }
  clear IH. 
  assert (Hlen : ∀ t, t ∈ tuples dims.*2 → length t = length dims.*1).
  { intros t Ht%length_tuples. by rewrite Ht, !length_fmap. }
  induction (tuples dims.*2) as [|t ts IHt]; [done|].
  rewrite !bind_cons, fmap_app. f_equal.
  - rewrite <-list_fmap_compose. apply list_fmap_ext. intros i v _. simpl.
    symmetry. apply assignment_snoc; [done|]. apply Hlen. left.
  - apply IHt. intros t' Ht'. apply Hlen. by right.
Qed.

Lemma assignment_lookup (names t : list string) (i : nat) (n v : string) :
  NoDup names → length t = length names → names !! i = Some n → t !! i = Some v →
  assignment names t !! n = Some v.
Proof.
  intros Hnodup Hlen Hn Hv. unfold assignment. apply elem_of_list_to_map_1.
  - rewrite fst_zip by lia. done.
  - apply list_elem_of_lookup. exists i. apply lookup_zip_with_Some. eauto.
Qed.

Lemma assignment_inj (names t1 t2 : list string) :
  NoDup names → length t1 = length names → length t2 = length names →
  assignment names t1 = assignment names t2 → t1 = t2.
Proof.
  intros Hnodup Hlen1 Hlen2 Heq. apply list_eq. intros i.
  destruct (names !! i) as [n|] eqn:Hn.
  - destruct (lookup_lt_is_Some_2 t1 i) as [v1 Hv1].
    { rewrite Hlen1. by eapply lookup_lt_Some. }
    destruct (lookup_lt_is_Some_2 t2 i) as [v2 Hv2].
    { rewrite Hlen2. by eapply lookup_lt_Some. }
    pose proof (assignment_lookup names t1 i n v1 Hnodup Hlen1 Hn Hv1) as H1.
    pose proof (assignment_lookup names t2 i n v2 Hnodup Hlen2 Hn Hv2) as H2.
    rewrite Heq in H1. congruence.
  - apply lookup_ge_None in Hn.
    rewrite !(proj2 (lookup_ge_None _ _)) by lia. done.
Qed.

Lemma dom_assignment (names t : list string) :
  length t = length names → dom (assignment names t) = list_to_set names.
Proof.
  intros Hlen. unfold assignment. rewrite dom_list_to_map_L, fst_zip by lia. done.
Qed.

Lemma NoDup_cartesian (dims : list Dimension) :
  NoDup dims.*1 → Forall (λ d, NoDup d.2) dims → NoDup (cartesian dims).
Proof.
  intros Hnames Hdoms. rewrite cartesian_tuples by done.
  apply NoDup_fmap_2_strong.
  - intros t1 t2 Ht1%length_tuples Ht2%length_tuples Heq.
    rewrite length_fmap in Ht1, Ht2.
    apply (assignment_inj dims.*1); rewrite ?length_fmap; done.
  - apply NoDup_tuples. by apply Forall_fmap.
Qed.

(** Membership in the enumeration: the assignments of the dimension names
    to values of their domains. *)
Lemma elem_of_enumerate (dims : list Dimension) (l : prometheus.Labels) :
  dims ≠ [] → Forall (λ d, d.2 ≠ []) dims → NoDup dims.*1 →
  l ∈ enumerate dims ↔
  ∃ t, Forall2 (λ v (d : Dimension), v ∈ d.2) t dims ∧ l = assignment dims.*1 t.
Proof.
  intros Hne Hdoms Hnames.
  rewrite enumerate_cartesian, cartesian_tuples by done.
  rewrite list_elem_of_fmap. split.
  - intros (t & -> & Ht). exists t. split; [|done].
    apply elem_of_tuples in Ht.
    exact (proj1 (Forall2_fmap_r snd (λ v (d : list string), v ∈ d) t dims) Ht).
  - intros (t & Ht & ->). exists t. split; [done|].
    apply elem_of_tuples.
    exact (proj2 (Forall2_fmap_r snd (λ v (d : list string), v ∈ d) t dims) Ht).
Qed.

Lemma dom_enumerate (dims : list Dimension) (l : prometheus.Labels) :
  dims ≠ [] → Forall (λ d, d.2 ≠ []) dims → NoDup dims.*1 →
  l ∈ enumerate dims → dom l = list_to_set dims.*1.
Proof.
  intros Hne Hdoms Hnames (t & Ht & ->)%elem_of_enumerate; [|done..].
  apply dom_assignment. rewrite length_fmap. by eapply Forall2_length.
Qed.

(** ** The series of a family *)

(** The vectors of the struct, by the field that holds them. *)
Inductive Family : Type :=
| connErrorF | impsF | legacyImpsF | requestsF | reqTimerF | adaptRequestsF
| adaptTimerF | adaptBidsF | adaptPricesF | adaptErrorsF | adaptPanicsF
| adaptCookieSyncF | userIDF | storedReqCacheResultF | storedImpCacheResultF.

Global Instance Family_eq_dec : EqDecision Family.
Proof. solve_decision. Defined.

(** The label assignments for which the family has a series. *)
Definition series (m : Metrics) (f : Family) : gset (gmap string string) :=
  match f with
  | connErrorF => dom (prometheus.cv_series (connError m))
  | impsF => dom (prometheus.cv_series (imps m))
  | legacyImpsF => dom (prometheus.cv_series (legacyImps m))
  | requestsF => dom (prometheus.cv_series (requests m))
  | reqTimerF => dom (prometheus.hv_series (reqTimer m))
  | adaptRequestsF => dom (prometheus.cv_series (adaptRequests m))
  | adaptTimerF => dom (prometheus.hv_series (adaptTimer m))
  | adaptBidsF => dom (prometheus.cv_series (adaptBids m))
  | adaptPricesF => dom (prometheus.hv_series (adaptPrices m))
  | adaptErrorsF => dom (prometheus.cv_series (adaptErrors m))
  | adaptPanicsF => dom (prometheus.cv_series (adaptPanics m))
  | adaptCookieSyncF => dom (prometheus.cv_series (adaptCookieSync m))
  | userIDF => dom (prometheus.cv_series (userID m))
  | storedReqCacheResultF => dom (prometheus.cv_series (storedReqCacheResult m))
  | storedImpCacheResultF => dom (prometheus.cv_series (storedImpCacheResult m))
  end.

(** The descriptors of the seventeen collectors of the struct, in the order
    NewMetrics registers them. *)
Definition collectors (m : Metrics) : list prometheus.Desc :=
  [ prometheus.Gauge_Desc (connCounter m);
    prometheus.CounterVec_Desc (connError m);
    prometheus.CounterVec_Desc (imps m);
    prometheus.CounterVec_Desc (legacyImps m);
    prometheus.CounterVec_Desc (requests m);
    prometheus.HistogramVec_Desc (reqTimer m);
    prometheus.CounterVec_Desc (adaptRequests m);
    prometheus.CounterVec_Desc (adaptPanics m);
    prometheus.HistogramVec_Desc (adaptTimer m);
    prometheus.CounterVec_Desc (adaptBids m);
    prometheus.CounterVec_Desc (storedReqCacheResult m);
    prometheus.CounterVec_Desc (storedImpCacheResult m);
    prometheus.HistogramVec_Desc (adaptPrices m);
    prometheus.CounterVec_Desc (adaptErrors m);
    prometheus.Counter_Desc (cookieSync m);
    prometheus.CounterVec_Desc (adaptCookieSync m);
    prometheus.CounterVec_Desc (userID m) ].

(** What never changes after construction: the registry and the
    descriptors (names, help, label names, bucket edges). *)
Definition static_of (m : Metrics) : prometheus.Registry * list prometheus.Desc :=
  (Registry m, collectors m).

Arguments addDimension : simpl never.

Section Precreated.
Context (D : pbsmetrics.Domains).

(** The four dimensions shared by the request and the adapter families. *)
Definition sharedDims : list Dimension :=
  [ (demandSourceLabel, demandTypesAsString D);
    (requestTypeLabel, requestTypesAsString D);
    (browserLabel, browserTypesAsString D);
    (cookieLabel, cookieTypesAsString D) ].

Definition impDims : list Dimension :=
  [ (bannerLabel, ["yes"; "no"]); (videoLabel, ["yes"; "no"]);
    (audioLabel, ["yes"; "no"]); (nativeLabel, ["yes"; "no"]) ].

(** The dimension list initializeTimeSeries enumerates for a family, in the
    order it adds the dimensions; [None] for the two families it has no
    loop for. *)
Definition dimensions (f : Family) : option (list Dimension) :=
  match f with
  | connErrorF => Some [ ("ErrorType", ["accept_error"; "close_error"]) ]
  | requestsF | reqTimerF =>
      Some (sharedDims ++ [ (responseStatusLabel, requestStatusesAsString D) ])
  | adaptRequestsF | adaptTimerF | adaptPricesF | adaptPanicsF =>
      Some (sharedDims ++ [ (adapterLabel, adaptersAsString D);
                            (adapterBidLabel, adapterBidsAsString D) ])
  | adaptBidsF =>
      Some (sharedDims ++ [ (adapterLabel, adaptersAsString D);
                            (adapterBidLabel, adapterBidsAsString D);
                            (bidTypeLabel, bidTypesAsString D);
                            (markupTypeLabel, ["unknown"; "adm"]) ])
  | adaptErrorsF =>
      Some (sharedDims ++ [ (adapterLabel, adaptersAsString D);
                            (adapterErrLabel, adapterErrorsAsString D) ])
  | adaptCookieSyncF =>
      Some [ (adapterLabel, adaptersAsString D); (gdprBlockedLabel, ["true"; "false"]) ]
  | storedReqCacheResultF | storedImpCacheResultF =>
      Some [ ("cache_result", cacheResultAsString D) ]
  | impsF => Some impDims
  | legacyImpsF | userIDF => None
  end.

(** The series initializeTimeSeries creates for a family: the enumeration of
    its dimension list, each list enumerated on its own from the empty
    slice. *)
Definition precreated (f : Family) : list prometheus.Labels :=
  match dimensions f with
  | Some dims => enumerate dims
  | None => []
  end.

(** A loop body that calls [With(l)] on the families [fs] and does nothing
    else. *)
Definition touches (fs : list Family) (body : Metrics → prometheus.Labels → option Metrics)
  : Prop :=
  ∀ m l m', body m l = Some m' →
    static_of m' = static_of m
    ∧ ∀ g, series m' g = series m g ∪ (if bool_decide (g ∈ fs) then {[ l ]} else ∅).

Ltac solve_touch :=
  let m := fresh "m" in let l := fresh "l" in let m' := fresh "m'" in
  let Hrun := fresh "Hrun" in let Hl := fresh "Hl" in
  intros m l m' Hrun;
  unfold touchC, touchH, prometheus.CounterVec_With, prometheus.HistogramVec_With in Hrun;
  destruct (prometheus.validLabels _ l); [|done];
  match type of Hrun with
  | context [ ?s !! l ] => destruct (s !! l) eqn:Hl
  end;
  simpl in Hrun; injection Hrun as <-;
  (split; [reflexivity|]);
  intros g; destruct g; simpl; rewrite ?dom_insert_L;
  try apply elem_of_dom_2 in Hl;
  set_solver.

Lemma touches_connError : touches [connErrorF] (touchC connError set_connError).
Proof. solve_touch. Qed.
Lemma touches_imps : touches [impsF] (touchC imps set_imps).
Proof. solve_touch. Qed.
Lemma touches_requests : touches [requestsF] (touchC requests set_requests).
Proof. solve_touch. Qed.
Lemma touches_reqTimer : touches [reqTimerF] (touchH reqTimer set_reqTimer).
Proof. solve_touch. Qed.
Lemma touches_adaptRequests :
  touches [adaptRequestsF] (touchC adaptRequests set_adaptRequests).
Proof. solve_touch. Qed.
Lemma touches_adaptTimer : touches [adaptTimerF] (touchH adaptTimer set_adaptTimer).
Proof. solve_touch. Qed.
Lemma touches_adaptPrices : touches [adaptPricesF] (touchH adaptPrices set_adaptPrices).
Proof. solve_touch. Qed.
Lemma touches_adaptPanics : touches [adaptPanicsF] (touchC adaptPanics set_adaptPanics).
Proof. solve_touch. Qed.
Lemma touches_adaptBids : touches [adaptBidsF] (touchC adaptBids set_adaptBids).
Proof. solve_touch. Qed.
Lemma touches_adaptErrors : touches [adaptErrorsF] (touchC adaptErrors set_adaptErrors).
Proof. solve_touch. Qed.
Lemma touches_adaptCookieSync :
  touches [adaptCookieSyncF] (touchC adaptCookieSync set_adaptCookieSync).
Proof. solve_touch. Qed.
Lemma touches_storedImpCacheResult :
  touches [storedImpCacheResultF] (touchC storedImpCacheResult set_storedImpCacheResult).
Proof. solve_touch. Qed.
Lemma touches_storedReqCacheResult :
  touches [storedReqCacheResultF] (touchC storedReqCacheResult set_storedReqCacheResult).
Proof. solve_touch. Qed.

Lemma touches_seq fs1 fs2 body1 body2 :
  touches fs1 body1 → touches fs2 body2 →
  touches (fs1 ++ fs2) (λ m l, m1 ← body1 m l; body2 m1 l).
Proof.
  intros H1 H2 m l m' Hrun.
  destruct (body1 m l) as [m1|] eqn:Hb1; [|done]. simpl in Hrun.
  destruct (H1 _ _ _ Hb1) as [Hs1 Hser1]. destruct (H2 _ _ _ Hrun) as [Hs2 Hser2].
  split; [congruence|]. intros g. rewrite Hser2, Hser1.
  rewrite (bool_decide_ext _ _ (elem_of_app fs1 fs2 g)), bool_decide_or.
  destruct (bool_decide (g ∈ fs1)), (bool_decide (g ∈ fs2)); simpl;
    rewrite ?(right_id_L ∅ (∪)); [|done..].
  by rewrite <-(assoc_L (∪)), (idemp_L (∪)).
Qed.

Lemma touches_range fs body (ls : list prometheus.Labels) m m' :
  touches fs body → range_over body ls m = Some m' →
  static_of m' = static_of m
  ∧ ∀ g, series m' g = series m g ∪ (if bool_decide (g ∈ fs) then list_to_set ls else ∅).
Proof.
  intros Hbody. revert m. induction ls as [|l ls IH]; intros m Hrun; simpl in Hrun.
  - simplify_eq. split; [done|]. intros g.
    destruct (bool_decide (g ∈ fs)); simpl; by rewrite (right_id_L ∅ (∪)).
  - destruct (body m l) as [m1|] eqn:Hb; [|done].
    destruct (Hbody _ _ _ Hb) as [Hs1 Hser1]. destruct (IH _ Hrun) as [Hs2 Hser2].
    split; [congruence|]. intros g. rewrite Hser2, Hser1.
    destruct (bool_decide (g ∈ fs)); simpl.
    + by rewrite <-(assoc_L (∪)).
    + by rewrite !(right_id_L ∅ (∪)).
Qed.

(** What initializeTimeSeries does to the series: it adds the enumeration of
    each family's dimension list, and nothing to the two families it has no
    loop for; the registry and the descriptors are as before. *)
Lemma initializeTimeSeries_series (m m' : Metrics) :
  initializeTimeSeries D m = Some m' →
  static_of m' = static_of m
  ∧ ∀ f, series m' f = series m f ∪ list_to_set (precreated f).
Proof.
  unfold initializeTimeSeries. intros Hrun.
  repeat match type of Hrun with
  | (range_over ?body ?ls ?m0 ≫= _) = Some _ =>
      let m1 := fresh "m" in let Hloop := fresh "Hloop" in
      destruct (range_over body ls m0) as [m1|] eqn:Hloop; [|done];
      cbn [mbind option_bind] in Hrun
  end.
  apply (touches_range _ _ _ _ _ touches_connError) in Hloop as [Hs1 Hser1].
  apply (touches_range _ _ _ _ _ (touches_seq _ _ _ _ touches_requests touches_reqTimer))
    in Hloop0 as [Hs2 Hser2].
  apply (touches_range _ _ _ _ _
           (touches_seq _ _ _ _ touches_adaptRequests
              (touches_seq _ _ _ _ touches_adaptTimer
                 (touches_seq _ _ _ _ touches_adaptPrices touches_adaptPanics))))
    in Hloop1 as [Hs3 Hser3].
  apply (touches_range _ _ _ _ _ touches_adaptBids) in Hloop2 as [Hs4 Hser4].
  apply (touches_range _ _ _ _ _ touches_adaptErrors) in Hloop3 as [Hs5 Hser5].
  apply (touches_range _ _ _ _ _ touches_adaptCookieSync) in Hloop4 as [Hs6 Hser6].
  apply (touches_range _ _ _ _ _
           (touches_seq _ _ _ _ touches_storedImpCacheResult touches_storedReqCacheResult))
    in Hloop5 as [Hs7 Hser7].
  apply (touches_range _ _ _ _ _ touches_imps) in Hrun as [Hs8 Hser8].
  split; [congruence|].
  intros f. rewrite Hser8, Hser7, Hser6, Hser5, Hser4, Hser3, Hser2, Hser1.
  destruct f;
    repeat match goal with
    | |- context [bool_decide ?P] =>
        let b := eval vm_compute in (bool_decide P) in change (bool_decide P) with b
    end; cbn iota;
    unfold precreated, dimensions, enumerate, sharedDims, impDims;
    cbn [foldl app fst snd]; rewrite ?(right_id_L ∅ (∪)); try reflexivity.
  all: change (list_to_set []) with (∅ : gset (gmap string string));
    by rewrite (right_id_L ∅ (∪)).
Qed.

End Precreated.

(** ** What NewMetrics declares *)

(** The latency edges as float64 values: the twenty sums of
    [LinearBuckets(0.05, 0.05, 20)] and the six appended edges. *)
Definition latencyEdges : list float :=
  [ 0.05; 0.1; 0.15000000000000002; 0.2; 0.25; 0.3; 0.35; 0.39999999999999997;
    0.44999999999999996; 0.49999999999999994; 0.5499999999999999; 0.6; 0.65;
    0.7000000000000001; 0.7500000000000001; 0.8000000000000002; 0.8500000000000002;
    0.9000000000000002; 0.9500000000000003; 1.0000000000000002;
    1.5; 2.0; 3.0; 5.0; 20.0; 50.0 ]%float.

(** The price edges: [LinearBuckets(0.1, 0.1, 200)]. *)
Definition priceEdges : list float := prometheus.linearBuckets 0.1 0.1 200.

Arguments prometheus.BuildFQName : simpl never.
Arguments prometheus.linearBuckets : simpl never.

Lemma LinearBuckets_latency :
  prometheus.LinearBuckets 0.05 0.05 20 = Some (take 20 latencyEdges).
Proof. vm_compute. reflexivity. Qed.

Lemma LinearBuckets_price : prometheus.LinearBuckets 0.1 0.1 200 = Some priceEdges.
Proof. reflexivity. Qed.

Lemma MustRegister_fresh (r : prometheus.Registry) (d : prometheus.Desc) :
  prometheus.validDesc d = true →
  prometheus.fqName d ∉ prometheus.fqName <$> r →
  prometheus.MustRegister r d = Some (r ++ [d]).
Proof.
  intros Hvalid Hfresh. unfold prometheus.MustRegister.
  by rewrite Hvalid, bool_decide_eq_false_2.
Qed.

Lemma MustRegister_Some (r r' : prometheus.Registry) (d : prometheus.Desc) :
  prometheus.MustRegister r d = Some r' →
  r' = r ++ [d] ∧ prometheus.validDesc d = true
  ∧ prometheus.fqName d ∉ prometheus.fqName <$> r.
Proof.
  unfold prometheus.MustRegister.
  destruct (prometheus.validDesc d); cbn [negb]; [|done].
  case_bool_decide; naive_solver.
Qed.

Lemma MustRegister_invalid (r : prometheus.Registry) (d : prometheus.Desc) :
  prometheus.validDesc d = false → prometheus.MustRegister r d = None.
Proof. intros Hinvalid. unfold prometheus.MustRegister. by rewrite Hinvalid. Qed.

(** *** Metric names under a prefix *)

Lemma bytesFrom_app (ok : nat → Ascii.ascii → bool) (i : nat) (p n : string) :
  prometheus.bytesFrom ok i (p +:+ n)
  = prometheus.bytesFrom ok i p && prometheus.bytesFrom ok (i + String.length p) n.
Proof.
  revert i. induction p as [|b p IH]; intros i.
  - change ("" +:+ n) with n. cbn [prometheus.bytesFrom String.length].
    by rewrite Nat.add_0_r.
  - change (String b p +:+ n) with (String b (p +:+ n)).
    cbn [prometheus.bytesFrom String.length].
    by rewrite IH, Nat.add_succ_r, andb_assoc.
Qed.

Lemma append_assoc (a b c : string) : (a +:+ b) +:+ c = a +:+ (b +:+ c).
Proof.
  induction a as [|x a IH]; [done|].
  change (String x a +:+ b) with (String x (a +:+ b)).
  change (String x (a +:+ b) +:+ c) with (String x ((a +:+ b) +:+ c)). by rewrite IH.
Qed.

Lemma append_nonempty (p n : string) : n ≠ "" → String.eqb (p +:+ n) "" = false.
Proof. intros Hn. apply String.eqb_neq. by destruct p, n. Qed.

(** What BuildFQName puts in front of a name. *)
Definition fqPrefix (namespace subsystem : string) : string :=
  if negb (String.eqb namespace "") && negb (String.eqb subsystem "") then
    namespace +:+ "_" +:+ subsystem +:+ "_"
  else if negb (String.eqb namespace "") then namespace +:+ "_"
  else if negb (String.eqb subsystem "") then subsystem +:+ "_"
  else "".

Lemma BuildFQName_prefix (namespace subsystem name : string) :
  name ≠ "" →
  prometheus.BuildFQName namespace subsystem name = fqPrefix namespace subsystem +:+ name.
Proof.
  intros Hn. unfold prometheus.BuildFQName, fqPrefix.
  rewrite (proj2 (String.eqb_neq name "")) by done.
  destruct (String.eqb namespace ""), (String.eqb subsystem ""); cbn [negb andb]; try done.
  - by rewrite append_assoc.
  - by rewrite append_assoc.
  - by rewrite !append_assoc.
Qed.

(** A name of letters and underscores is a metric name under a prefix
    exactly when the bytes of the prefix pass. *)
Lemma IsValidMetricName_BuildFQName (namespace subsystem name : string) :
  name ≠ "" → (∀ i, prometheus.bytesFrom prometheus.metricNameByte i name = true) →
  prometheus.IsValidMetricName (prometheus.BuildFQName namespace subsystem name)
  = prometheus.bytesFrom prometheus.metricNameByte 0 (fqPrefix namespace subsystem).
Proof.
  intros Hn Hbytes. rewrite BuildFQName_prefix by done. unfold prometheus.IsValidMetricName.
  rewrite append_nonempty by done. rewrite bytesFrom_app, Hbytes. apply andb_true_r.
Qed.

(** Two family names get different exported names under one prefix. *)
Lemma BuildFQName_inj (namespace subsystem n1 n2 : string) :
  n1 ≠ "" → n2 ≠ "" →
  prometheus.BuildFQName namespace subsystem n1
  = prometheus.BuildFQName namespace subsystem n2 →
  n1 = n2.
Proof.
  intros H1 H2. unfold prometheus.BuildFQName.
  rewrite (proj2 (String.eqb_neq n1 "")), (proj2 (String.eqb_neq n2 "")) by done.
  destruct (String.eqb namespace ""), (String.eqb subsystem ""); simpl; intros Heq.
  - done.
  - by repeat apply (inj (String.app _)) in Heq.
  - by repeat apply (inj (String.app _)) in Heq.
  - by repeat apply (inj (String.app _)) in Heq.
Qed.

(** The name, kind, label names and bucket edges of a descriptor. *)
Definition describe (d : prometheus.Desc)
  : string * prometheus.Kind * list string * list float :=
  (prometheus.fqName d, prometheus.kind d, prometheus.variableLabels d,
   prometheus.upperBounds d).

Section Catalog.
Context (cfg : config.PrometheusMetrics).

(** The exported name of a family under the configured prefix. *)
Definition exported (name : string) : string :=
  prometheus.BuildFQName (config.Namespace cfg) (config.Subsystem cfg) name.

Definition standardLabelNames : list string :=
  [demandSourceLabel; requestTypeLabel; browserLabel; cookieLabel; responseStatusLabel].
Definition adapterLabelNames : list string :=
  [demandSourceLabel; requestTypeLabel; browserLabel; cookieLabel; adapterBidLabel;
   adapterLabel].
Definition bidLabelNames : list string :=
  [demandSourceLabel; requestTypeLabel; browserLabel; cookieLabel; adapterBidLabel;
   adapterLabel; bidTypeLabel; markupTypeLabel].
Definition errorLabelNames : list string :=
  [demandSourceLabel; requestTypeLabel; browserLabel; cookieLabel; adapterErrLabel;
   adapterLabel].

(** The seventeen families NewMetrics declares, in the order it registers
    them: exported name, kind, label names, bucket edges. *)
Definition catalog : list (string * prometheus.Kind * list string * list float) :=
  [ (exported "active_connections", prometheus.GaugeKind, [], []);
    (exported "active_connections_total", prometheus.CounterKind, ["ErrorType"], []);
    (exported "imps_requested", prometheus.CounterKind,
       [bannerLabel; videoLabel; audioLabel; nativeLabel], []);
    (exported "legacy_imps_requested", prometheus.CounterKind, standardLabelNames, []);
    (exported "requests_total", prometheus.CounterKind, standardLabelNames, []);
    (exported "request_time_seconds", prometheus.HistogramKind, standardLabelNames,
       latencyEdges);
    (exported "adapter_requests_total", prometheus.CounterKind, adapterLabelNames, []);
    (exported "adapter_panics_total", prometheus.CounterKind, adapterLabelNames, []);
    (exported "adapter_time_seconds", prometheus.HistogramKind, adapterLabelNames,
       latencyEdges);
    (exported "adapter_bids_received_total", prometheus.CounterKind, bidLabelNames, []);
    (exported "stored_request_cache_performance", prometheus.CounterKind,
       ["cache_result"], []);
    (exported "stored_imp_cache_performance", prometheus.CounterKind,
       ["cache_result"], []);
    (exported "adapter_prices", prometheus.HistogramKind, adapterLabelNames, priceEdges);
    (exported "adapter_errors_total", prometheus.CounterKind, errorLabelNames, []);
    (exported "cookie_sync_requests_total", prometheus.CounterKind, [], []);
    (exported "cookie_sync_returns", prometheus.CounterKind,
       [adapterLabel; gdprBlockedLabel], []);
    (exported "setuid_calls", prometheus.CounterKind, ["action"; "bidder"], []) ].

(** The configured prefix is made of bytes a metric name can have. *)
Definition validPrefix : bool :=
  prometheus.bytesFrom prometheus.metricNameByte 0
    (fqPrefix (config.Namespace cfg) (config.Subsystem cfg)).

(** The struct as NewMetrics hands it to initializeTimeSeries: every family
    of the catalog declared and registered, no series yet, values at zero. *)
Definition declared (m0 : Metrics) : Prop :=
  Registry m0 = collectors m0
  ∧ describe <$> collectors m0 = catalog
  ∧ (∀ f, series m0 f = ∅)
  ∧ prometheus.c_value (cookieSync m0) = 0%Z
  ∧ prometheus.g_value (connCounter m0) = 0%Z.

(** A family of prometheus.go has a valid descriptor exactly when the
    prefix is valid: its name is made of letters and underscores, its label
    names are valid and differ. *)
Lemma validDesc_family (namespace subsystem name : string) (d : prometheus.Desc) :
  prometheus.fqName d = prometheus.BuildFQName namespace subsystem name →
  name ≠ "" → (∀ i, prometheus.bytesFrom prometheus.metricNameByte i name = true) →
  forallb prometheus.checkLabelName (prometheus.variableLabels d) = true →
  bool_decide (NoDup (prometheus.variableLabels d)) = true →
  prometheus.validDesc d
  = prometheus.bytesFrom prometheus.metricNameByte 0 (fqPrefix namespace subsystem).
Proof.
  intros Hfq Hn Hbytes Hlabels Hdup. unfold prometheus.validDesc.
  rewrite Hfq, IsValidMetricName_BuildFQName, Hlabels, Hdup by done.
  by rewrite !andb_true_r.
Qed.

Ltac family_valid :=
  erewrite validDesc_family;
  [ | reflexivity | done | intros ?; reflexivity | reflexivity | by vm_compute ].

Ltac register_fresh Hvalid :=
  rewrite MustRegister_fresh;
  [ cbn [mbind option_bind app]
  | family_valid; exact Hvalid
  | let Hin := fresh "Hin" in let Heq := fresh "Heq" in
    cbn [fmap list_fmap app prometheus.fqName prometheus.Gauge_Desc
         prometheus.Counter_Desc prometheus.CounterVec_Desc prometheus.HistogramVec_Desc];
    intros Hin;
    repeat (apply elem_of_cons in Hin as [Heq|Hin];
            [ apply BuildFQName_inj in Heq; done |]);
    by apply elem_of_nil in Hin ].

(** Under a valid prefix NewMetrics never panics while declaring: the
    seventeen descriptors are valid and their names differ, so every
    MustRegister goes through, and what is left is initializeTimeSeries on
    the declared struct. *)
Lemma NewMetrics_declares (D : pbsmetrics.Domains) :
  validPrefix = true →
  ∃ m0, NewMetrics D cfg = initializeTimeSeries D m0 ∧ declared m0.
Proof.
  intros Hvalid. unfold NewMetrics.
  rewrite LinearBuckets_latency, LinearBuckets_price. cbn [mbind option_bind].
  unfold prometheus.NewRegistry.
  do 17 register_fresh Hvalid.
  eexists. split; [reflexivity|].
  unfold declared. split_and!; try reflexivity.
  intros []; reflexivity.
Qed.

(** Under any other prefix the first MustRegister panics. *)
Lemma NewMetrics_invalid (D : pbsmetrics.Domains) :
  validPrefix = false → NewMetrics D cfg = None.
Proof.
  intros Hinvalid. unfold NewMetrics.
  rewrite LinearBuckets_latency, LinearBuckets_price. cbn [mbind option_bind].
  rewrite MustRegister_invalid; [done|].
  family_valid. exact Hinvalid.
Qed.

Lemma NewMetrics_validPrefix (D : pbsmetrics.Domains) :
  is_Some (NewMetrics D cfg) → validPrefix = true.
Proof.
  intros Hsome. destruct validPrefix eqn:Hvalid; [done|].
  rewrite NewMetrics_invalid in Hsome by done. by destruct Hsome.
Qed.

End Catalog.

(** The state NewMetrics returns: every family of the catalog registered,
    and for each family exactly the series initializeTimeSeries creates. *)
Lemma NewMetrics_Some (D : pbsmetrics.Domains) (cfg : config.PrometheusMetrics)
    (m : Metrics) :
  NewMetrics D cfg = Some m →
  Registry m = collectors m
  ∧ describe <$> collectors m = catalog cfg
  ∧ ∀ f, series m f = list_to_set (precreated D f).
Proof.
  intros Hnew.
  destruct (NewMetrics_declares cfg D (NewMetrics_validPrefix cfg D (mk_is_Some _ _ Hnew)))
    as (m0 & Heq & Hreg & Hcat & Hser & _).
  rewrite Heq in Hnew. apply initializeTimeSeries_series in Hnew as [Hstatic Hseries].
  unfold static_of in Hstatic. apply pair_equal_spec in Hstatic as [HR HC].
  split_and!.
  - congruence.
  - congruence.
  - intros f. rewrite Hseries, Hser. by rewrite (left_id_L ∅ (∪)).
Qed.

Lemma NewMetrics_sample_returns :
  is_Some (NewMetrics sampleDomains samplePrometheus).
Proof.
  assert (H : (if NewMetrics sampleDomains samplePrometheus is Some _ then true else false)
              = true) by (vm_compute; reflexivity).
  destruct (NewMetrics sampleDomains samplePrometheus); [by eexists|discriminate].
Qed.

(** ** Bucket edges *)

Lemma NewMetrics_buckets (D : pbsmetrics.Domains) (cfg : config.PrometheusMetrics)
    (m : Metrics) :
  NewMetrics D cfg = Some m →
  prometheus.hv_buckets (reqTimer m) = latencyEdges
  ∧ prometheus.hv_buckets (adaptTimer m) = latencyEdges
  ∧ prometheus.hv_buckets (adaptPrices m) = priceEdges.
Proof.
  intros (_ & Hcat & _)%NewMetrics_Some.
  unfold collectors, catalog in Hcat. cbn [fmap list_fmap] in Hcat.
  unfold describe in Hcat. simplify_eq/=. done.
Qed.

(** The latency edges read as decimal numbers, each the float64 nearest to
    the decimal. *)
Definition decimalLatencyEdges : list float :=
  [ 0.05; 0.10; 0.15; 0.20; 0.25; 0.30; 0.35; 0.40; 0.45; 0.50; 0.55; 0.60; 0.65;
    0.70; 0.75; 0.80; 0.85; 0.90; 0.95; 1.00; 1.5; 2.0; 3.0; 5.0; 20.0; 50.0 ]%float.

(** The float64 nearest to the fraction [num/den] of two small integers. *)
Definition fraction (num den : Z) : float :=
  (float64_of_Z num / float64_of_Z den)%float.

(** |a - b| < eps *)
Definition within (eps a b : float) : bool :=
  (PrimFloat.abs (a - b) <? eps)%float.

(** The k-th edge of a list is within [eps] of (k+1)/den, for every k. *)
Definition near_multiples (eps : float) (den : Z) (edges : list float) : bool :=
  forallb (λ '(k, e), within eps e (fraction (Z.of_nat k + 1) den))
    (imap (λ k e, (k, e)) edges).

(** Each edge but the first is the float64 sum of the edge before and [width]. *)
Fixpoint accumulates (width : float) (edges : list float) : bool :=
  match edges with
  | e1 :: (e2 :: _) as rest => PrimFloat.Leibniz.eqb e2 (e1 + width)%float && accumulates width rest
  | _ => true
  end.

(** C4 (as amended). The latency families request_time_seconds and
    adapter_time_seconds are constructed with exactly 26 bucket edges: the
    twenty float64 values of LinearBuckets(0.05, 0.05, 20), which start at
    0.05, each add 0.05 to the one before in float64 arithmetic and so lie
    within 1e-15 of 0.05, 0.10, ..., 1.00 without all being equal to them
    (the third is 0.15000000000000002, the twentieth 1.0000000000000002),
    followed by 1.5, 2.0, 3.0, 5.0, 20.0, 50.0, in that order. The price
    family adapter_prices is constructed with exactly the 200 edges of
    LinearBuckets(0.1, 0.1, 200): they start at 0.1, each adds 0.1 to the
    one before in float64 arithmetic, they lie within 1e-13 of 0.1, 0.2,
    ..., 20.0, and the last is 20.000000000000014. *)
Theorem bucket_edge_exactness (D : pbsmetrics.Domains) (cfg : config.PrometheusMetrics)
    (m : Metrics) :
  NewMetrics D cfg = Some m →
  prometheus.hv_buckets (reqTimer m) = latencyEdges
  ∧ prometheus.hv_buckets (adaptTimer m) = latencyEdges
  ∧ length latencyEdges = 26
  ∧ take 20 latencyEdges = prometheus.linearBuckets 0.05 0.05 20
  ∧ accumulates 0.05 (take 20 latencyEdges) = true
  ∧ near_multiples 1e-15 20 (take 20 latencyEdges) = true
  ∧ drop 20 latencyEdges = [1.5; 2.0; 3.0; 5.0; 20.0; 50.0]%float
  ∧ prometheus.hv_buckets (adaptPrices m) = priceEdges
  ∧ length priceEdges = 200
  ∧ priceEdges !! 0 = Some 0.1%float
  ∧ accumulates 0.1 priceEdges = true
  ∧ near_multiples 1e-13 10 priceEdges = true
  ∧ priceEdges !! 199 = Some 20.000000000000014%float.
Proof.
  intros (-> & -> & ->)%NewMetrics_buckets.
  split_and!; by vm_compute.
Qed.

Lemma bucket_edge_exactness_witness :
  ∃ m, NewMetrics sampleDomains samplePrometheus = Some m
       ∧ prometheus.hv_buckets (reqTimer m) = latencyEdges
       ∧ prometheus.hv_buckets (adaptPrices m) = priceEdges.
Proof.
  destruct NewMetrics_sample_returns as [m Hm]. exists m. split; [exact Hm|].
  pose proof (bucket_edge_exactness sampleDomains samplePrometheus m Hm) as H.
  split; [apply H|apply H].
Defined.

(** The claim read literally fails: the edges the latency families get are
    not the decimal edges 0.05, 0.10, ..., 1.00 (the third edge is not the
    float64 0.15, the twentieth is not 1.0), and the last price edge is not
    20.0. *)
Lemma bucket_edges_not_decimal :
  ∃ m, NewMetrics sampleDomains samplePrometheus = Some m
       ∧ prometheus.hv_buckets (reqTimer m) ≠ decimalLatencyEdges
       ∧ prometheus.hv_buckets (reqTimer m) !! 2 = Some 0.15000000000000002%float
       ∧ PrimFloat.eqb 0.15000000000000002 0.15 = false
       ∧ prometheus.hv_buckets (reqTimer m) !! 19 = Some 1.0000000000000002%float
       ∧ PrimFloat.eqb 1.0000000000000002 1.0 = false
       ∧ prometheus.hv_buckets (adaptPrices m) !! 199 = Some 20.000000000000014%float
       ∧ PrimFloat.eqb 20.000000000000014 20.0 = false.
Proof.
  destruct NewMetrics_sample_returns as [m Hm]. exists m. split; [exact Hm|].
  destruct (NewMetrics_buckets sampleDomains samplePrometheus m Hm) as (-> & _ & ->).
  split_and!; by vm_compute.
Qed.

(** ** The empty dimension list *)




(** ** The size of the enumeration *)

(** C5 (as amended). For every non-empty sequence of dimensions with
    pairwise distinct names, each with a non-empty duplicate-free domain,
    folding [addDimension] over the sequence from the empty slice yields
    exactly the product of the domain sizes many assignments, pairwise
    distinct, one per tuple of the cartesian product of the domains (the
    assignment of the names to the tuple's values, in the order of the
    product). The four two-valued dimensions banner, video, audio, native
    yield 16 distinct assignments, and each is a series of the imps family
    in the state NewMetrics returns. *)
Theorem cartesian_size_law :
  (∀ dims : list Dimension,
     dims ≠ [] → Forall (λ d, d.2 ≠ [] ∧ NoDup d.2) dims → NoDup dims.*1 →
     length (enumerate dims) = product ((λ d : Dimension, length d.2) <$> dims)
     ∧ NoDup (enumerate dims)
     ∧ enumerate dims = assignment dims.*1 <$> tuples dims.*2)
  ∧ length (enumerate impDims) = 16
  ∧ NoDup (enumerate impDims)
  ∧ (∀ D cfg m, NewMetrics D cfg = Some m →
       ∀ l, l ∈ enumerate impDims → l ∈ series m impsF).
Proof.
  assert (Hgen : ∀ dims : list Dimension,
     dims ≠ [] → Forall (λ d, d.2 ≠ [] ∧ NoDup d.2) dims → NoDup dims.*1 →
     length (enumerate dims) = product ((λ d : Dimension, length d.2) <$> dims)
     ∧ NoDup (enumerate dims)
     ∧ enumerate dims = assignment dims.*1 <$> tuples dims.*2).
  { intros dims Hne Hdoms Hnames.
    assert (Hnonempty : Forall (λ d : Dimension, d.2 ≠ []) dims).
    { eapply Forall_impl; [exact Hdoms|]. by intros d [? _]. }
    assert (Hnodup : Forall (λ d : Dimension, NoDup d.2) dims).
    { eapply Forall_impl; [exact Hdoms|]. by intros d [_ ?]. }
    rewrite enumerate_cartesian by done. split_and!.
    - apply length_cartesian.
    - by apply NoDup_cartesian.
    - by apply cartesian_tuples. }
  assert (Himp : impDims ≠ [] ∧ Forall (λ d : Dimension, d.2 ≠ [] ∧ NoDup d.2) impDims
                 ∧ NoDup impDims.*1).
  { split; [done|]. split.
    - repeat constructor; try done; set_solver.
    - apply (bool_decide_unpack _). by vm_compute. }
  destruct Himp as (Hi1 & Hi2 & Hi3).
  destruct (Hgen impDims Hi1 Hi2 Hi3) as (Hlen & Hnodup & _).
  split_and!; [exact Hgen|exact Hlen|exact Hnodup|].
  intros D cfg m (_ & _ & Hser)%NewMetrics_Some l Hl.
  rewrite Hser. apply elem_of_list_to_set. exact Hl.
Qed.

Lemma cartesian_size_law_witness :
  impDims ≠ [] ∧ Forall (λ d : Dimension, d.2 ≠ [] ∧ NoDup d.2) impDims
  ∧ NoDup impDims.*1
  ∧ length (enumerate impDims) = product ((λ d : Dimension, length d.2) <$> impDims)
  ∧ NoDup (enumerate impDims).
Proof.
  assert (H1 : impDims ≠ []) by done.
  assert (H2 : Forall (λ d : Dimension, d.2 ≠ [] ∧ NoDup d.2) impDims).
  { repeat constructor; try done; set_solver. }
  assert (H3 : NoDup impDims.*1).
  { apply (bool_decide_unpack _). by vm_compute. }
  split; [exact H1|]. split; [exact H2|]. split; [exact H3|].
  pose proof (proj1 cartesian_size_law impDims H1 H2 H3) as H.
  split; apply H.
Defined.

(** The claim read literally fails: two dimensions with the same name, each
    with a non-empty duplicate-free domain, yield four assignments that
    are not pairwise distinct (the second dimension overwrites the first). *)
Lemma same_name_dimensions_collide :
  let dims : list Dimension := [ ("a", ["x"; "y"]); ("a", ["x"; "y"]) ] in
  dims ≠ [] ∧ Forall (λ d : Dimension, d.2 ≠ [] ∧ NoDup d.2) dims
  ∧ length (enumerate dims) = 4
  ∧ ¬ NoDup (enumerate dims).
Proof.
  split_and!.
  - done.
  - repeat constructor; try done; set_solver.
  - reflexivity.
  - apply (bool_decide_eq_false_1 (NoDup _)). by vm_compute.
Qed.

(** ** Recording against the pre-created series *)

(** The label names of the vectors in the state NewMetrics returns. *)
Lemma NewMetrics_labelNames (D : pbsmetrics.Domains) (cfg : config.PrometheusMetrics)
    (m : Metrics) :
  NewMetrics D cfg = Some m →
  prometheus.cv_labelNames (connError m) = ["ErrorType"]
  ∧ prometheus.cv_labelNames (imps m) = [bannerLabel; videoLabel; audioLabel; nativeLabel]
  ∧ prometheus.cv_labelNames (legacyImps m) = standardLabelNames
  ∧ prometheus.cv_labelNames (requests m) = standardLabelNames
  ∧ prometheus.hv_labelNames (reqTimer m) = standardLabelNames
  ∧ prometheus.cv_labelNames (adaptRequests m) = adapterLabelNames
  ∧ prometheus.cv_labelNames (adaptPanics m) = adapterLabelNames
  ∧ prometheus.hv_labelNames (adaptTimer m) = adapterLabelNames
  ∧ prometheus.cv_labelNames (adaptBids m) = bidLabelNames
  ∧ prometheus.cv_labelNames (storedReqCacheResult m) = ["cache_result"]
  ∧ prometheus.cv_labelNames (storedImpCacheResult m) = ["cache_result"]
  ∧ prometheus.hv_labelNames (adaptPrices m) = adapterLabelNames
  ∧ prometheus.cv_labelNames (adaptErrors m) = errorLabelNames
  ∧ prometheus.cv_labelNames (adaptCookieSync m) = [adapterLabel; gdprBlockedLabel]
  ∧ prometheus.cv_labelNames (userID m) = ["action"; "bidder"].
Proof.
  intros (_ & Hcat & _)%NewMetrics_Some.
  unfold collectors, catalog in Hcat. cbn [fmap list_fmap] in Hcat.
  unfold describe in Hcat. simplify_eq/=. done.
Qed.

(** [v.With(l).Add(x)] on a series that does not exist yet creates it. *)
Lemma withAdd_new (v : prometheus.CounterVec) (l : prometheus.Labels) (x : Z) :
  prometheus.validLabels (prometheus.cv_labelNames v) l = true →
  l ∉ dom (prometheus.cv_series v) → (0 ≤ x)%Z →
  ∃ v', withAdd v l x = Returned v'
        ∧ dom (prometheus.cv_series v') = {[ l ]} ∪ dom (prometheus.cv_series v)
        ∧ prometheus.cv_series v' !! l = Some x.
Proof.
  intros Hvalid Hnew Hx. unfold withAdd, prometheus.CounterVec_With.
  rewrite Hvalid. apply not_elem_of_dom in Hnew. rewrite Hnew.
  unfold prometheus.CounterVec_Add. rewrite (proj2 (Z.ltb_ge x 0)) by done.
  eexists. split; [reflexivity|]. simpl.
  rewrite lookup_insert_eq. simpl. rewrite lookup_insert_eq, !dom_insert_L.
  split; [set_solver|]. first [done | f_equal; lia].
Qed.

(** [v.With(l).Add(x)] on a series that exists creates none, whether it
    returns or panics. *)
Lemma withAdd_existing (v : prometheus.CounterVec) (l : prometheus.Labels) (x : Z) :
  l ∈ dom (prometheus.cv_series v) →
  dom (prometheus.cv_series (state_of (withAdd v l x))) = dom (prometheus.cv_series v).
Proof.
  intros Hl. unfold withAdd, prometheus.CounterVec_With.
  destruct (prometheus.validLabels _ l); [|done].
  apply elem_of_dom in Hl as [c Hc]. rewrite Hc.
  unfold prometheus.CounterVec_Add. destruct (x <? 0)%Z; [done|]. simpl.
  rewrite dom_insert_L. apply elem_of_dom_2 in Hc. set_solver.
Qed.

Lemma withObserve_existing (v : prometheus.HistogramVec) (l : prometheus.Labels)
    (x : float) :
  l ∈ dom (prometheus.hv_series v) →
  dom (prometheus.hv_series (state_of (withObserve v l x))) = dom (prometheus.hv_series v).
Proof.
  intros Hl. unfold withObserve, prometheus.HistogramVec_With.
  destruct (prometheus.validLabels _ l); [|done].
  apply elem_of_dom in Hl as [c Hc]. rewrite Hc. simpl.
  rewrite dom_insert_L. apply elem_of_dom_2 in Hc. set_solver.
Qed.

(** C2, at the family the code leaves out. In the state NewMetrics returns
    the legacy_imps_requested family has no series: initializeTimeSeries
    has no loop for it, though it shares the label names of requests_total.
    So the first [RecordLegacyImps] with any label context, in its domains
    or not, creates a series: the series count of the family goes from
    zero to one. *)
Theorem legacy_imps_series_created_at_recording (D : pbsmetrics.Domains)
    (cfg : config.PrometheusMetrics) (m : Metrics) (labels : pbsmetrics.Labels)
    (numImps : Z) :
  NewMetrics D cfg = Some m → (0 ≤ numImps)%Z →
  series m legacyImpsF = ∅
  ∧ ∃ m', RecordLegacyImps m labels numImps = Returned m'
          ∧ series m' legacyImpsF = {[ resolveLabels labels ]}
          ∧ size (series m legacyImpsF) = 0
          ∧ size (series m' legacyImpsF) = 1.
Proof.
  intros Hnew Hnum.
  destruct (NewMetrics_Some D cfg m Hnew) as (_ & _ & Hser).
  destruct (NewMetrics_labelNames D cfg m Hnew) as (_ & _ & Hnames & _).
  pose proof (Hser legacyImpsF) as Hempty. change (list_to_set _) with
    (∅ : gset (gmap string string)) in Hempty.
  split; [exact Hempty|].
  destruct (withAdd_new (legacyImps m) (resolveLabels labels) numImps) as (v' & Hv' & Hdom & _).
  - rewrite Hnames. reflexivity.
  - change (dom (prometheus.cv_series (legacyImps m))) with (series m legacyImpsF).
    rewrite Hempty. set_solver.
  - done.
  - exists (set_legacyImps m v'). unfold RecordLegacyImps. rewrite Hv'.
    split; [reflexivity|].
    change (series (set_legacyImps m v') legacyImpsF) with (dom (prometheus.cv_series v')).
    rewrite Hdom.
    change (dom (prometheus.cv_series (legacyImps m))) with (series m legacyImpsF).
    rewrite Hempty, (right_id_L ∅ (∪)).
    split; [done|]. split; [apply size_empty|apply size_singleton].
Qed.

Lemma legacy_imps_series_created_witness :
  ∃ m, NewMetrics sampleDomains samplePrometheus = Some m
       ∧ series m legacyImpsF = ∅
       ∧ ∃ m', RecordLegacyImps m sampleLabels 1 = Returned m'
               ∧ series m' legacyImpsF = {[ resolveLabels sampleLabels ]}.
Proof.
  destruct NewMetrics_sample_returns as [m Hm]. exists m. split; [exact Hm|].
  destruct (legacy_imps_series_created_at_recording
              sampleDomains samplePrometheus m sampleLabels 1 Hm ltac:(lia))
    as (Hempty & m' & Hrec & Hser & _).
  split; [exact Hempty|]. exists m'. split; [exact Hrec|exact Hser].
Defined.

(** *** Label contexts with fields in their domains *)

Section Closure.
Context (D : pbsmetrics.Domains).

Definition inDomains (labels : pbsmetrics.Labels) : Prop :=
  pbsmetrics.l_Source labels ∈ pbsmetrics.DemandTypes D
  ∧ pbsmetrics.l_RType labels ∈ pbsmetrics.RequestTypes D
  ∧ pbsmetrics.l_Browser labels ∈ pbsmetrics.BrowserTypes D
  ∧ pbsmetrics.l_CookieFlag labels ∈ pbsmetrics.CookieTypes D
  ∧ pbsmetrics.l_RequestStatus labels ∈ pbsmetrics.RequestStatuses D.

Definition adapterInDomains (labels : pbsmetrics.AdapterLabels) : Prop :=
  pbsmetrics.al_Source labels ∈ pbsmetrics.DemandTypes D
  ∧ pbsmetrics.al_RType labels ∈ pbsmetrics.RequestTypes D
  ∧ pbsmetrics.al_Browser labels ∈ pbsmetrics.BrowserTypes D
  ∧ pbsmetrics.al_CookieFlag labels ∈ pbsmetrics.CookieTypes D
  ∧ pbsmetrics.al_Adapter labels ∈ pbsmetrics.BidderList D
  ∧ pbsmetrics.al_AdapterBids labels ∈ pbsmetrics.AdapterBids D
  ∧ ∀ k, k ∈ pbsmetrics.al_AdapterErrors labels → k ∈ pbsmetrics.AdapterErrors D.

Lemma asString_id (l : list string) : string_of <$> l = l.
Proof. induction l as [|x l IH]; [done|]. by rewrite fmap_cons, IH. Qed.

Lemma elem_of_nonempty (x : string) (l : list string) : x ∈ l → string_of <$> l ≠ [].
Proof. rewrite asString_id. intros Hx Hnil. rewrite Hnil in Hx. by apply elem_of_nil in Hx. Qed.

(** Membership in an enumeration, from the values chosen per dimension. *)
Lemma enumerate_intro (dims : list Dimension) (t : list string) (l : prometheus.Labels) :
  dims ≠ [] → NoDup dims.*1 →
  Forall2 (λ v (d : Dimension), v ∈ d.2) t dims →
  l = assignment dims.*1 t → l ∈ enumerate dims.
Proof.
  intros Hne Hnames Ht ->. apply elem_of_enumerate; [done| |done|by exists t].
  clear Hne Hnames. induction Ht as [|v d t dims Hv _ IH]; constructor; [|done].
  intros Hnil. rewrite Hnil in Hv. by apply elem_of_nil in Hv.
Qed.

Ltac in_enumeration t :=
  unfold precreated, dimensions;
  apply (enumerate_intro _ t);
  [ done
  | apply (bool_decide_unpack _); by vm_compute
  | unfold sharedDims, impDims, demandTypesAsString, requestTypesAsString, browserTypesAsString,
      cookieTypesAsString, requestStatusesAsString, adapterBidsAsString,
      adapterErrorsAsString, cacheResultAsString, adaptersAsString, bidTypesAsString;
    rewrite ?asString_id; cbn [app];
    repeat match goal with
    | |- Forall2 _ [] [] => constructor
    | |- Forall2 _ (_ :: _) (_ :: _) => constructor; [simpl; try assumption|]
    end
  | ].

Lemma resolveLabels_precreated (labels : pbsmetrics.Labels) :
  inDomains labels → resolveLabels labels ∈ precreated D requestsF.
Proof.
  intros (H1 & H2 & H3 & H4 & H5).
  in_enumeration [pbsmetrics.l_Source labels; pbsmetrics.l_RType labels;
                  pbsmetrics.l_Browser labels; pbsmetrics.l_CookieFlag labels;
                  pbsmetrics.l_RequestStatus labels].
  reflexivity.
Qed.

Lemma resolveAdapterLabels_precreated (labels : pbsmetrics.AdapterLabels) :
  adapterInDomains labels → resolveAdapterLabels labels ∈ precreated D adaptRequestsF.
Proof.
  intros (H1 & H2 & H3 & H4 & H5 & H6 & _).
  in_enumeration [pbsmetrics.al_Source labels; pbsmetrics.al_RType labels;
                  pbsmetrics.al_Browser labels; pbsmetrics.al_CookieFlag labels;
                  pbsmetrics.al_Adapter labels; pbsmetrics.al_AdapterBids labels].
  reflexivity.
Qed.

Lemma resolveBidLabels_precreated (labels : pbsmetrics.AdapterLabels)
    (bidType : pbsmetrics.BidType) (hasAdm : bool) :
  adapterInDomains labels → bidType ∈ pbsmetrics.BidTypes D →
  resolveBidLabels labels bidType hasAdm ∈ precreated D adaptBidsF.
Proof.
  intros (H1 & H2 & H3 & H4 & H5 & H6 & _) H7.
  in_enumeration [pbsmetrics.al_Source labels; pbsmetrics.al_RType labels;
                  pbsmetrics.al_Browser labels; pbsmetrics.al_CookieFlag labels;
                  pbsmetrics.al_Adapter labels; pbsmetrics.al_AdapterBids labels;
                  bidType; if hasAdm then "adm" else "unknown"].
  - destruct hasAdm; set_solver.
  - destruct hasAdm; reflexivity.
Qed.

Lemma resolveAdapterErrorLabels_precreated (labels : pbsmetrics.AdapterLabels)
    (errorType : string) :
  adapterInDomains labels → errorType ∈ pbsmetrics.AdapterErrors D →
  resolveAdapterErrorLabels labels errorType ∈ precreated D adaptErrorsF.
Proof.
  intros (H1 & H2 & H3 & H4 & H5 & H6 & _) H7.
  in_enumeration [pbsmetrics.al_Source labels; pbsmetrics.al_RType labels;
                  pbsmetrics.al_Browser labels; pbsmetrics.al_CookieFlag labels;
                  pbsmetrics.al_Adapter labels; errorType].
  reflexivity.
Qed.

Lemma resolveImpLabels_precreated (labels : pbsmetrics.ImpLabels) :
  resolveImpLabels labels ∈ precreated D impsF.
Proof.
  in_enumeration [yes_no (pbsmetrics.BannerImps labels); yes_no (pbsmetrics.VideoImps labels);
                  yes_no (pbsmetrics.AudioImps labels); yes_no (pbsmetrics.NativeImps labels)].
  all: destruct labels as [[] [] [] []]; unfold yes_no; simpl;
    first [reflexivity | set_solver].
Qed.

Lemma cookieSyncLabels_precreated (adapter : pbsmetrics.BidderName) (gdprBlocked : bool) :
  adapter ∈ pbsmetrics.BidderList D →
  (if gdprBlocked
   then <[gdprBlockedLabel := "true"]> (list_to_map [ (adapterLabel, string_of adapter) ])
   else <[gdprBlockedLabel := "false"]> (list_to_map [ (adapterLabel, string_of adapter) ]))
  ∈ precreated D adaptCookieSyncF.
Proof.
  intros H1.
  in_enumeration [adapter; if gdprBlocked then "true" else "false"].
  - destruct gdprBlocked; set_solver.
  - destruct gdprBlocked; reflexivity.
Qed.

Lemma cacheLabels_precreated (f : Family) (cacheResult : pbsmetrics.CacheResult) :
  f = storedReqCacheResultF ∨ f = storedImpCacheResultF →
  cacheResult ∈ pbsmetrics.CacheResults D →
  (list_to_map [ (cacheResultLabel, string_of cacheResult) ] : prometheus.Labels)
  ∈ precreated D f.
Proof.
  intros [-> | ->] H1; in_enumeration [cacheResult]; reflexivity.
Qed.

Lemma connErrorLabels_precreated (errorType : string) :
  errorType = "accept_error" ∨ errorType = "close_error" →
  (list_to_map (zip ["ErrorType"] [errorType]) : prometheus.Labels)
  ∈ precreated D connErrorF.
Proof.
  intros H1. in_enumeration [errorType]; [|reflexivity].
  destruct H1 as [-> | ->]; set_solver.
Qed.

End Closure.

(** *** The invariant of the recording operations *)

Section Invariant.
Context (D : pbsmetrics.Domains) (cfg : config.PrometheusMetrics).

(** A well-formed state: the families are those of the catalog, and every
    pre-created series exists. Series of later recordings may exist too. *)
Definition wellFormed (m : Metrics) : Prop :=
  describe <$> collectors m = catalog cfg
  ∧ ∀ f, list_to_set (precreated D f) ⊆ series m f.

(** The result keeps the descriptors and the series of the state [m]. *)
Definition unchanged (m : Metrics) (r : result Metrics) : Prop :=
  collectors (state_of r) = collectors m ∧ ∀ f, series (state_of r) f = series m f.

Lemma NewMetrics_wellFormed (m : Metrics) : NewMetrics D cfg = Some m → wellFormed m.
Proof.
  intros (_ & Hcat & Hser)%NewMetrics_Some. split; [done|].
  intros f. by rewrite Hser.
Qed.

Lemma unchanged_wellFormed (m : Metrics) (r : result Metrics) :
  wellFormed m → unchanged m r → wellFormed (state_of r).
Proof. intros [Hcat Hcov] [Hc Hs]. split; [by rewrite Hc|]. intros f. by rewrite Hs. Qed.

Lemma state_of_map_result {S T : Type} (f : S → T) (r : result S) :
  state_of (map_result f r) = f (state_of r).
Proof. by destruct r. Qed.

Lemma withAdd_static (v : prometheus.CounterVec) (l : prometheus.Labels) (x : Z) :
  prometheus.CounterVec_Desc (state_of (withAdd v l x)) = prometheus.CounterVec_Desc v.
Proof.
  unfold withAdd, prometheus.CounterVec_With, prometheus.CounterVec_Add.
  repeat case_match; simplify_eq/=; done.
Qed.

Lemma withObserve_static (v : prometheus.HistogramVec) (l : prometheus.Labels) (x : float) :
  prometheus.HistogramVec_Desc (state_of (withObserve v l x))
  = prometheus.HistogramVec_Desc v.
Proof.
  unfold withObserve, prometheus.HistogramVec_With.
  repeat case_match; simplify_eq/=; done.
Qed.

Lemma unchanged_and_then (m : Metrics) (r : result Metrics) (k : Metrics → result Metrics) :
  unchanged m r → (∀ s, unchanged m (Returned s) → unchanged m (k s)) →
  unchanged m (and_then r k).
Proof. intros Hr Hk. destruct r as [s|s]; simpl; [by apply Hk|done]. Qed.

Ltac counter_unchanged Hin :=
  split;
  [ rewrite state_of_map_result; unfold collectors; simpl;
    rewrite ?withAdd_static; reflexivity
  | let f := fresh "f" in
    intros f; rewrite state_of_map_result; destruct f; simpl; try reflexivity;
    apply withAdd_existing; exact Hin ].

Ltac histogram_unchanged Hin :=
  split;
  [ rewrite state_of_map_result; unfold collectors; simpl;
    rewrite ?withObserve_static; reflexivity
  | let f := fresh "f" in
    intros f; rewrite state_of_map_result; destruct f; simpl; try reflexivity;
    apply withObserve_existing; exact Hin ].

Lemma covered (m : Metrics) (f : Family) (l : prometheus.Labels) :
  wellFormed m → l ∈ precreated D f → l ∈ series m f.
Proof. intros [_ Hcov] Hl. apply Hcov. by apply elem_of_list_to_set. Qed.

Lemma RecordRequest_unchanged (m : Metrics) (labels : pbsmetrics.Labels) :
  wellFormed m → inDomains D labels → unchanged m (RecordRequest m labels).
Proof.
  intros Hwf Hdom.
  pose proof (covered m requestsF _ Hwf (resolveLabels_precreated D labels Hdom)) as Hin.
  unfold RecordRequest. counter_unchanged Hin.
Qed.

Lemma RecordRequestTime_unchanged (m : Metrics) (labels : pbsmetrics.Labels)
    (length : pbsmetrics.Duration) :
  wellFormed m → inDomains D labels → unchanged m (RecordRequestTime m labels length).
Proof.
  intros Hwf Hdom.
  pose proof (covered m reqTimerF _ Hwf (resolveLabels_precreated D labels Hdom)) as Hin.
  unfold RecordRequestTime. histogram_unchanged Hin.
Qed.

Lemma RecordImps_unchanged (m : Metrics) (implabels : pbsmetrics.ImpLabels) :
  wellFormed m → unchanged m (RecordImps m implabels).
Proof.
  intros Hwf.
  pose proof (covered m impsF _ Hwf (resolveImpLabels_precreated D implabels)) as Hin.
  unfold RecordImps. counter_unchanged Hin.
Qed.

Lemma RecordAdapterPanic_unchanged (m : Metrics) (labels : pbsmetrics.AdapterLabels) :
  wellFormed m → adapterInDomains D labels → unchanged m (RecordAdapterPanic m labels).
Proof.
  intros Hwf Hdom.
  pose proof (covered m adaptPanicsF _ Hwf (resolveAdapterLabels_precreated D labels Hdom))
    as Hin.
  unfold RecordAdapterPanic. counter_unchanged Hin.
Qed.

Lemma RecordAdapterBidReceived_unchanged (m : Metrics) (labels : pbsmetrics.AdapterLabels)
    (bidType : pbsmetrics.BidType) (hasAdm : bool) :
  wellFormed m → adapterInDomains D labels → bidType ∈ pbsmetrics.BidTypes D →
  unchanged m (RecordAdapterBidReceived m labels bidType hasAdm).
Proof.
  intros Hwf Hdom Hbid.
  pose proof (covered m adaptBidsF _ Hwf
                (resolveBidLabels_precreated D labels bidType hasAdm Hdom Hbid)) as Hin.
  unfold RecordAdapterBidReceived. counter_unchanged Hin.
Qed.

Lemma RecordAdapterPrice_unchanged (m : Metrics) (labels : pbsmetrics.AdapterLabels)
    (cpm : float) :
  wellFormed m → adapterInDomains D labels → unchanged m (RecordAdapterPrice m labels cpm).
Proof.
  intros Hwf Hdom.
  pose proof (covered m adaptPricesF _ Hwf (resolveAdapterLabels_precreated D labels Hdom))
    as Hin.
  unfold RecordAdapterPrice. histogram_unchanged Hin.
Qed.

Lemma RecordAdapterTime_unchanged (m : Metrics) (labels : pbsmetrics.AdapterLabels)
    (length : pbsmetrics.Duration) :
  wellFormed m → adapterInDomains D labels →
  unchanged m (RecordAdapterTime m labels length).
Proof.
  intros Hwf Hdom.
  pose proof (covered m adaptTimerF _ Hwf (resolveAdapterLabels_precreated D labels Hdom))
    as Hin.
  unfold RecordAdapterTime. histogram_unchanged Hin.
Qed.

Lemma RecordAdapterRequest_unchanged (m : Metrics) (labels : pbsmetrics.AdapterLabels) :
  wellFormed m → adapterInDomains D labels → unchanged m (RecordAdapterRequest m labels).
Proof.
  intros Hwf Hdom. unfold RecordAdapterRequest. apply unchanged_and_then.
  - pose proof (covered m adaptRequestsF _ Hwf
                  (resolveAdapterLabels_precreated D labels Hdom)) as Hin.
    counter_unchanged Hin.
  - intros s Hs.
    assert (Herrs : ∀ k, k ∈ pbsmetrics.al_AdapterErrors labels →
                         k ∈ pbsmetrics.AdapterErrors D) by apply Hdom.
    revert Herrs.
    apply (set_fold_ind_L (λ r X, (∀ k, k ∈ X → k ∈ pbsmetrics.AdapterErrors D) →
                                  unchanged m r)); [done|].
    intros k X r Hk IH Hall. apply unchanged_and_then.
    + apply IH. intros k' Hk'. apply Hall. set_solver.
    + intros s' [Hc' Hs'].
      assert (Hwf' : wellFormed s').
      { apply (unchanged_wellFormed m (Returned s')); done. }
      assert (Hk_in : k ∈ pbsmetrics.AdapterErrors D) by (apply Hall; set_solver).
      pose proof (covered s' adaptErrorsF _ Hwf'
                    (resolveAdapterErrorLabels_precreated D labels k Hdom Hk_in)) as Hin.
      split.
      * rewrite state_of_map_result. simpl in Hc'. rewrite <-Hc'.
        unfold collectors; simpl. rewrite ?withAdd_static. reflexivity.
      * intros f. rewrite state_of_map_result. simpl in Hs'. rewrite <-Hs'.
        destruct f; simpl; try reflexivity. apply withAdd_existing. exact Hin.
Qed.

Lemma RecordAdapterCookieSync_unchanged (m : Metrics) (adapter : pbsmetrics.BidderName)
    (gdprBlocked : bool) :
  wellFormed m → adapter ∈ pbsmetrics.BidderList D →
  unchanged m (RecordAdapterCookieSync m adapter gdprBlocked).
Proof.
  intros Hwf Hdom.
  pose proof (covered m adaptCookieSyncF _ Hwf
                (cookieSyncLabels_precreated D adapter gdprBlocked Hdom)) as Hin.
  unfold RecordAdapterCookieSync. destruct gdprBlocked; counter_unchanged Hin.
Qed.

Lemma RecordStoredReqCacheResult_unchanged (m : Metrics)
    (cacheResult : pbsmetrics.CacheResult) (inc : Z) :
  wellFormed m → cacheResult ∈ pbsmetrics.CacheResults D →
  unchanged m (RecordStoredReqCacheResult m cacheResult inc).
Proof.
  intros Hwf Hdom.
  pose proof (covered m storedReqCacheResultF _ Hwf
                (cacheLabels_precreated D _ cacheResult (or_introl eq_refl) Hdom)) as Hin.
  unfold RecordStoredReqCacheResult. counter_unchanged Hin.
Qed.

Lemma RecordStoredImpCacheResult_unchanged (m : Metrics)
    (cacheResult : pbsmetrics.CacheResult) (inc : Z) :
  wellFormed m → cacheResult ∈ pbsmetrics.CacheResults D →
  unchanged m (RecordStoredImpCacheResult m cacheResult inc).
Proof.
  intros Hwf Hdom.
  pose proof (covered m storedImpCacheResultF _ Hwf
                (cacheLabels_precreated D _ cacheResult (or_intror eq_refl) Hdom)) as Hin.
  unfold RecordStoredImpCacheResult. counter_unchanged Hin.
Qed.

Lemma withLabelValuesInc_existing (v : prometheus.CounterVec) (lvs : list string) :
  list_to_map (zip (prometheus.cv_labelNames v) lvs) ∈ dom (prometheus.cv_series v) →
  prometheus.CounterVec_Desc (state_of (withLabelValuesInc v lvs))
  = prometheus.CounterVec_Desc v
  ∧ dom (prometheus.cv_series (state_of (withLabelValuesInc v lvs)))
    = dom (prometheus.cv_series v).
Proof.
  intros Hl. unfold withLabelValuesInc, prometheus.CounterVec_WithLabelValues.
  case_bool_decide; [|done]. unfold prometheus.CounterVec_With.
  destruct (prometheus.validLabels _ _); [|done].
  apply elem_of_dom in Hl as [c Hc]. rewrite Hc. simpl.
  split; [done|]. rewrite dom_insert_L. apply elem_of_dom_2 in Hc. set_solver.
Qed.

Lemma connError_labelNames (m : Metrics) :
  wellFormed m → prometheus.cv_labelNames (connError m) = ["ErrorType"].
Proof.
  intros [Hcat _]. unfold collectors, catalog in Hcat. cbn [fmap list_fmap] in Hcat.
  unfold describe in Hcat. simplify_eq/=. done.
Qed.

Lemma RecordConnection_unchanged (m : Metrics) (success : bool) :
  wellFormed m →
  unchanged m (RecordConnectionAccept m success)
  ∧ unchanged m (RecordConnectionClose m success).
Proof.
  intros Hwf. pose proof (connError_labelNames m Hwf) as Hnames.
  unfold RecordConnectionAccept, RecordConnectionClose.
  destruct success.
  { split; (split; [done|]); by intros []. }
  split.
  - destruct (withLabelValuesInc_existing (connError m) ["accept_error"]) as [Hd Hs].
    { rewrite Hnames. apply (covered m connErrorF _ Hwf).
      apply connErrorLabels_precreated. by left. }
    split.
    + rewrite state_of_map_result. unfold collectors. simpl. by rewrite Hd.
    + intros f. rewrite state_of_map_result. destruct f; simpl; try reflexivity. exact Hs.
  - destruct (withLabelValuesInc_existing (connError m) ["close_error"]) as [Hd Hs].
    { rewrite Hnames. apply (covered m connErrorF _ Hwf).
      apply connErrorLabels_precreated. by right. }
    split.
    + rewrite state_of_map_result. unfold collectors. simpl. by rewrite Hd.
    + intros f. rewrite state_of_map_result. destruct f; simpl; try reflexivity. exact Hs.
Qed.

Lemma RecordCookieSync_unchanged (m : Metrics) (labels : pbsmetrics.Labels) :
  unchanged m (RecordCookieSync m labels).
Proof. split; [done|]. by intros []. Qed.

End Invariant.

(** ** The multi-backend engine *)

Import metricsconfig.

Section FanOut.
Context {B : Type} {engineB : pbsmetrics.MetricsEngine B}.

(** The state a backend is left in by a method call on it. *)
Definition after (ev : pbsmetrics.Event) (b : B) : B := state_of (pbsmetrics.record ev b).

(** The property the specification asks of the fan-out: the call returns to
    the caller, and every backend of the list has taken the call. *)
Definition isolates_panics (ev : pbsmetrics.Event) (me : MultiMetricsEngine B) : Prop :=
  Multi_record ev me = Returned (after ev <$> me).

Lemma Multi_record_returns (ev : pbsmetrics.Event) (me : MultiMetricsEngine B) :
  Forall (λ b, returns (pbsmetrics.record ev b) = true) me →
  Multi_record ev me = Returned (after ev <$> me).
Proof.
  induction 1 as [|b me Hb _ IH]; [done|]. simpl. unfold after at 1.
  destruct (pbsmetrics.record ev b); [|done]. by rewrite IH.
Qed.

Lemma Multi_record_panics (ev : pbsmetrics.Event) (pre post : MultiMetricsEngine B)
    (b b' : B) :
  Forall (λ b, returns (pbsmetrics.record ev b) = true) pre →
  pbsmetrics.record ev b = Panicked b' →
  Multi_record ev (pre ++ b :: post) = Panicked ((after ev <$> pre) ++ b' :: post).
Proof.
  intros Hpre Hb. induction Hpre as [|b0 pre Hb0 _ IH]; simpl.
  - by rewrite Hb.
  - unfold after at 1. destruct (pbsmetrics.record ev b0); [|done]. by rewrite IH.
Qed.

End FanOut.

(** C1 (as amended). Every recording operation of the fan-out engine calls
    the backends one after the other in the order of the list. When every
    backend's update returns, the call returns and every backend has taken
    the event. A panic inside a backend's update is not recovered: it
    propagates to the caller, the backends before the panicking one have
    taken the event, and the backends after it are not called and stay as
    they were. *)
Theorem fan_out_forwarding (B : Type) (engineB : pbsmetrics.MetricsEngine B)
    (ev : pbsmetrics.Event) :
  (∀ me : MultiMetricsEngine B,
     Forall (λ b, returns (pbsmetrics.record ev b) = true) me →
     Multi_record ev me = Returned (after ev <$> me))
  ∧ (∀ (pre post : MultiMetricsEngine B) (b b' : B),
       Forall (λ b, returns (pbsmetrics.record ev b) = true) pre →
       pbsmetrics.record ev b = Panicked b' →
       Multi_record ev (pre ++ b :: post) = Panicked ((after ev <$> pre) ++ b' :: post)).
Proof. split; [apply Multi_record_returns|apply Multi_record_panics]. Qed.

(** Two mock engines: one made by [NewMockMetricsEngine], and then a nil
    function value followed by the made one. *)
Definition madeMock : MockMetricsEngine :=
  NewMockMetricsEngine (Some {| DNSLookupTimer := 0 |}).

Lemma fan_out_forwarding_witness :
  Multi_record (pbsmetrics.RecordDNSTime 5%Z) [madeMock; madeMock]
  = Returned [Some {| DNSLookupTimer := 1 |}; Some {| DNSLookupTimer := 1 |}]
  ∧ Multi_record (pbsmetrics.RecordDNSTime 5%Z) ([madeMock] ++ None :: [madeMock])
    = Panicked ([Some {| DNSLookupTimer := 1 |}] ++ None :: [madeMock]).
Proof.
  split.
  - apply (proj1 (fan_out_forwarding MockMetricsEngine Mock_engine
                    (pbsmetrics.RecordDNSTime 5%Z)) [madeMock; madeMock]).
    repeat constructor.
  - apply (proj2 (fan_out_forwarding MockMetricsEngine Mock_engine
                    (pbsmetrics.RecordDNSTime 5%Z)) [madeMock] [madeMock] None None).
    + repeat constructor.
    + reflexivity.
Defined.

(** The claim read literally fails: with a nil mock engine before a made
    one, RecordDNSTime panics in the first, the panic reaches the caller,
    and the second has not taken the event (its timer is still 0, where a
    call would have made it 1). *)
Lemma fan_out_panic_propagates :
  let me : MultiMetricsEngine MockMetricsEngine := [None; madeMock] in
  let ev := pbsmetrics.RecordDNSTime 5%Z in
  ¬ isolates_panics ev me
  ∧ Multi_record ev me = Panicked [None; madeMock]
  ∧ after ev madeMock = Some {| DNSLookupTimer := 1 |}
  ∧ madeMock = Some {| DNSLookupTimer := 0 |}.
Proof. split_and!; try reflexivity. intros H. discriminate H. Qed.

(** ** Choosing the engine *)

(** The dynamic types an interface value can have. *)
Inductive Implementation : Type :=
| GoMetricsImpl | PrometheusImpl | MultiImpl | DummyImpl | MockImpl.

(** The variants of the engine in the words of the specification. *)
Inductive Variant : Type :=
| NoOp
| Single (backend : Implementation)
| FanOut (backends : list Implementation).

(** The backends a configuration activates, in configuration order: Influx
    (served by go-metrics) iff its host is non-empty, Prometheus iff its
    port is non-zero. *)
Definition activeBackends (cfg : config.Configuration) : list Implementation :=
  (if decide (config.Host (config.Influxdb (config.cfg_Metrics cfg)) = "")
   then [] else [GoMetricsImpl])
  ++ (if decide (config.Port (config.Prometheus (config.cfg_Metrics cfg)) = 0%Z)
      then [] else [PrometheusImpl]).

(** The composition rule of the specification. *)
Definition composed (active : list Implementation) : Variant :=
  match active with
  | [] => NoOp
  | [backend] => Single backend
  | _ => FanOut active
  end.

Section Choice.
Context {GoMetrics : Type}.
Context (pbsmetrics_NewMetrics :
  string → list pbsmetrics.BidderName → config.DisabledMetrics → GoMetrics).
Context {engineGo : pbsmetrics.MetricsEngine GoMetrics}.
Context {engineProm : pbsmetrics.MetricsEngine prometheusmetrics.Metrics}.
Context (D : pbsmetrics.Domains).

Definition implementation (e : EngineValue (GoMetrics := GoMetrics)) : Implementation :=
  match e with
  | OfGoMetrics _ => GoMetricsImpl
  | OfPrometheus _ => PrometheusImpl
  | OfMulti _ => MultiImpl
  | OfDummy _ => DummyImpl
  | OfMock _ => MockImpl
  end.

(** The variant an interface value is: the no-op engine, a fan-out over the
    listed backends, or a backend itself. *)
Definition variant (e : EngineValue (GoMetrics := GoMetrics)) : Variant :=
  match e with
  | OfDummy _ => NoOp
  | OfMulti l => FanOut (implementation <$> l)
  | _ => Single (implementation e)
  end.

Lemma implementation_record (ev : pbsmetrics.Event) (e : EngineValue) :
  implementation (state_of (Engine_record ev e)) = implementation e.
Proof. destruct e; simpl; rewrite ?state_of_map_result; done. Qed.

Lemma implementation_Multi_record (ev : pbsmetrics.Event) (l : list EngineValue) :
  implementation <$> state_of (Multi_record (engineB := Engine_record) ev l)
  = implementation <$> l.
Proof.
  induction l as [|e l IH]; [done|]. cbn [Multi_record].
  pose proof (implementation_record ev e) as He.
  change (pbsmetrics.record ev e) with (Engine_record ev e).
  destruct (Engine_record ev e) as [e'|e']; cbn [state_of] in He.
  - rewrite state_of_map_result, !fmap_cons. f_equal; [exact He|exact IH].
  - cbn [state_of]. rewrite !fmap_cons. f_equal. exact He.
Qed.

Lemma variant_record (ev : pbsmetrics.Event) (e : EngineValue) :
  variant (state_of (Engine_record ev e)) = variant e.
Proof.
  destruct e; simpl; rewrite ?state_of_map_result; simpl; try done.
  f_equal. apply implementation_Multi_record.
Qed.

(** What NewMetricsEngine returns, by the two connection parameters. *)
Lemma NewMetricsEngine_cases (cfg : config.Configuration)
    (adapterList : list pbsmetrics.BidderName) :
  let influx := config.Influxdb (config.cfg_Metrics cfg) in
  let prom := config.Prometheus (config.cfg_Metrics cfg) in
  let g := pbsmetrics_NewMetrics "prebidserver." adapterList
             (config.Disabled (config.cfg_Metrics cfg)) in
  (config.Host influx = "" → config.Port prom = 0%Z →
     NewMetricsEngine pbsmetrics_NewMetrics D cfg adapterList
     = Some ({| MetricsEngine := OfDummy Dummy; GoMetrics_ := None;
                PrometheusMetrics := None |}, []))
  ∧ (config.Host influx ≠ "" → config.Port prom = 0%Z →
       ∃ started,
         NewMetricsEngine pbsmetrics_NewMetrics D cfg adapterList
         = Some ({| MetricsEngine := OfGoMetrics g; GoMetrics_ := Some g;
                    PrometheusMetrics := None |}, started))
  ∧ (config.Host influx = "" → config.Port prom ≠ 0%Z →
       ∀ p, NewMetrics D prom = Some p →
         NewMetricsEngine pbsmetrics_NewMetrics D cfg adapterList
         = Some ({| MetricsEngine := OfPrometheus p; GoMetrics_ := None;
                    PrometheusMetrics := Some p |}, []))
  ∧ (config.Host influx ≠ "" → config.Port prom ≠ 0%Z →
       ∀ p, NewMetrics D prom = Some p →
         ∃ started,
           NewMetricsEngine pbsmetrics_NewMetrics D cfg adapterList
           = Some ({| MetricsEngine := OfMulti [OfGoMetrics g; OfPrometheus p];
                      GoMetrics_ := Some g; PrometheusMetrics := Some p |}, started))
  ∧ (NewMetricsEngine pbsmetrics_NewMetrics D cfg adapterList = None
     ↔ config.Port prom ≠ 0%Z ∧ NewMetrics D prom = None)
  ∧ (∀ e started,
       NewMetricsEngine pbsmetrics_NewMetrics D cfg adapterList = Some (e, started) →
       variant (MetricsEngine e) = composed (activeBackends cfg)
       ∧ (∀ p, PrometheusMetrics e = Some p → NewMetrics D prom = Some p)).
Proof.
  intros influx prom g. unfold NewMetricsEngine, activeBackends.
  fold influx prom. fold g.
  destruct (String.eqb_spec (config.Host influx) "") as [Hhost|Hhost];
    destruct (Z.eqb_spec (config.Port prom) 0) as [Hport|Hport];
    cbn [negb mbind option_bind app];
    try destruct (NewMetrics D prom) as [p|] eqn:Hp;
    cbn [negb mbind option_bind app length Nat.ltb Nat.leb Nat.eqb lookup list_lookup];
    (split_and!;
     [ naive_solver | naive_solver | naive_solver | naive_solver | naive_solver
     | intros e started Heq; simplify_eq;
       try (split;
            [ repeat case_decide; simplify_eq; done
            | intros ? ?; simplify_eq/=; done ]) ]).
Qed.

(** C3. A backend is active iff its connection parameter is non-zero
    (Influx iff Host is non-empty, Prometheus iff Port is non-zero). With
    no active backend NewMetricsEngine returns the no-op engine, with one
    it returns that backend itself, with both the fan-out engine over the
    go-metrics backend and the Prometheus backend in this order; the links
    to the backends are set for the active ones only. The call panics only
    when the Prometheus backend is active and its construction panics. No
    recording operation changes the variant of the engine. *)
Theorem NewMetricsEngine_choice (cfg : config.Configuration)
    (adapterList : list pbsmetrics.BidderName) :
  let influx := config.Influxdb (config.cfg_Metrics cfg) in
  let prom := config.Prometheus (config.cfg_Metrics cfg) in
  let g := pbsmetrics_NewMetrics "prebidserver." adapterList
             (config.Disabled (config.cfg_Metrics cfg)) in
  (config.Host influx = "" → config.Port prom = 0%Z →
     NewMetricsEngine pbsmetrics_NewMetrics D cfg adapterList
     = Some ({| MetricsEngine := OfDummy Dummy; GoMetrics_ := None;
                PrometheusMetrics := None |}, []))
  ∧ (config.Host influx ≠ "" → config.Port prom = 0%Z →
       ∃ started,
         NewMetricsEngine pbsmetrics_NewMetrics D cfg adapterList
         = Some ({| MetricsEngine := OfGoMetrics g; GoMetrics_ := Some g;
                    PrometheusMetrics := None |}, started))
  ∧ (config.Host influx = "" → config.Port prom ≠ 0%Z →
       ∀ p, NewMetrics D prom = Some p →
         NewMetricsEngine pbsmetrics_NewMetrics D cfg adapterList
         = Some ({| MetricsEngine := OfPrometheus p; GoMetrics_ := None;
                    PrometheusMetrics := Some p |}, []))
  ∧ (config.Host influx ≠ "" → config.Port prom ≠ 0%Z →
       ∀ p, NewMetrics D prom = Some p →
         ∃ started,
           NewMetricsEngine pbsmetrics_NewMetrics D cfg adapterList
           = Some ({| MetricsEngine := OfMulti [OfGoMetrics g; OfPrometheus p];
                      GoMetrics_ := Some g; PrometheusMetrics := Some p |}, started))
  ∧ (NewMetricsEngine pbsmetrics_NewMetrics D cfg adapterList = None
     ↔ config.Port prom ≠ 0%Z ∧ NewMetrics D prom = None)
  ∧ (∀ e started,
       NewMetricsEngine pbsmetrics_NewMetrics D cfg adapterList = Some (e, started) →
       variant (MetricsEngine e) = composed (activeBackends cfg)
       ∧ ∀ ev, variant (MetricsEngine (state_of (Detailed_record ev e)))
               = variant (MetricsEngine e)).
Proof.
  intros influx prom g.
  destruct (NewMetricsEngine_cases cfg adapterList) as (H1 & H2 & H3 & H4 & H5 & H6).
  split_and!; [exact H1|exact H2|exact H3|exact H4|exact H5|].
  intros e started Heq. split; [by apply (H6 e started)|].
  intros ev. unfold Detailed_record. rewrite state_of_map_result. apply variant_record.
Qed.

End Choice.

(** A configuration with both backends active, and one with the Prometheus
    backend alone and a non-empty disabled set. *)
Definition sampleConfiguration : config.Configuration := {|
  config.cfg_Metrics := {|
    config.Influxdb := {| config.Host := "http://influx:8086"; config.Database := "pbs";
                          config.Username := "u"; config.Password := "p";
                          config.MetricSendInterval := 30 |};
    config.Prometheus := samplePrometheus;
    config.Disabled := ∅;
  |}
|}.

Definition disabledConfiguration : config.Configuration := {|
  config.cfg_Metrics := {|
    config.Influxdb := {| config.Host := ""; config.Database := "";
                          config.Username := ""; config.Password := "";
                          config.MetricSendInterval := 0 |};
    config.Prometheus := samplePrometheus;
    config.Disabled := {[ "requests_total" ]};
  |}
|}.

(** A go-metrics backend without state, for examples. *)
Definition unitMetrics (_ : string) (_ : list pbsmetrics.BidderName)
    (_ : config.DisabledMetrics) : unit := tt.
Definition unit_record (ev : pbsmetrics.Event) (g : unit) : result unit := Returned g.

(** The sixteen methods of prometheus.go behind the interface, for
    examples; the methods the file does not have do nothing here. *)
Definition Prometheus_record (ev : pbsmetrics.Event) (me : Metrics) : result Metrics :=
  match ev with
  | pbsmetrics.RecordRequest labels => RecordRequest me labels
  | pbsmetrics.RecordConnectionAccept success => RecordConnectionAccept me success
  | pbsmetrics.RecordConnectionClose success => RecordConnectionClose me success
  | pbsmetrics.RecordImps implabels => RecordImps me implabels
  | pbsmetrics.RecordLegacyImps labels numImps => RecordLegacyImps me labels numImps
  | pbsmetrics.RecordRequestTime labels length => RecordRequestTime me labels length
  | pbsmetrics.RecordAdapterPanic labels => RecordAdapterPanic me labels
  | pbsmetrics.RecordAdapterRequest labels => RecordAdapterRequest me labels
  | pbsmetrics.RecordAdapterBidReceived labels bidType hasAdm =>
      RecordAdapterBidReceived me labels bidType hasAdm
  | pbsmetrics.RecordAdapterPrice labels cpm => RecordAdapterPrice me labels cpm
  | pbsmetrics.RecordAdapterTime labels length => RecordAdapterTime me labels length
  | pbsmetrics.RecordStoredReqCacheResult cacheResult inc =>
      RecordStoredReqCacheResult me cacheResult inc
  | pbsmetrics.RecordStoredImpCacheResult cacheResult inc =>
      RecordStoredImpCacheResult me cacheResult inc
  | pbsmetrics.RecordAdapterCookieSync adapter gdprBlocked =>
      RecordAdapterCookieSync me adapter gdprBlocked
  | pbsmetrics.RecordUserIDSet userLabels => RecordUserIDSet me userLabels
  | _ => Returned me
  end.

Lemma NewMetricsEngine_choice_witness :
  ∃ p started,
    NewMetrics sampleDomains samplePrometheus = Some p
    ∧ NewMetricsEngine unitMetrics sampleDomains sampleConfiguration ["appnexus"]
      = Some ({| MetricsEngine := OfMulti [OfGoMetrics tt; OfPrometheus p];
                 GoMetrics_ := Some tt; PrometheusMetrics := Some p |}, started).
Proof.
  destruct NewMetrics_sample_returns as [p Hp]. exists p.
  destruct (NewMetricsEngine_choice unitMetrics (engineGo := unit_record)
              (engineProm := Prometheus_record) sampleDomains sampleConfiguration
              ["appnexus"]) as (_ & _ & _ & H4 & _).
  destruct (H4 ltac:(done) ltac:(done) p Hp) as [started Hs].
  exists started. split; [exact Hp|exact Hs].
Defined.

(** ** Registering the families *)




(** ** Label maps as references

    A Go map is a reference: a slice of [prometheus.Labels] holds pointers,
    and the slice [adapterLabels] that initializeTimeSeries saves shares its
    maps with [labels]. The value-level functions above are justified by
    the model below, in which the three functions that build label maps run
    on a heap of map objects: they allocate the maps they return and write
    to no other map. *)

Module Heap.

(** A heap of map objects by address. *)
Abbreviation heap := (gmap nat (gmap string string)).

(** A computation on the heap; [None] is a panic (a write through a nil
    map). *)
Definition M (A : Type) : Type := heap → option (A * heap).

Definition ret {A : Type} (a : A) : M A := λ h, Some (a, h).

Definition bind {A B : Type} (m : M A) (k : A → M B) : M B :=
  λ h, match m h with
       | Some (a, h') => k a h'
       | None => None
       end.

Notation "'run' x <~ m ;; k" := (bind m (λ x, k))
  (at level 10, x name, m at level 99, k at level 200).

Lemma bind_run {A B : Type} (m : M A) (k : A → M B) (h h' : heap) (a : A) :
  m h = Some (a, h') → bind m k h = k a h'.
Proof. intros Hm. unfold bind. by rewrite Hm. Qed.

(** [make(prometheus.Labels)] *)
Definition make : M nat :=
  λ h, let l := fresh (dom h) in Some (l, <[l := ∅]> h).

(** The entries a [range] over the map at [l] visits, in some order. *)
Definition entries (l : nat) : M (list (string * string)) :=
  λ h, match h !! l with
       | Some m => Some (map_to_list m, h)
       | None => None
       end.

(** [l[k] = v] *)
Definition store (l : nat) (k v : string) : M unit :=
  λ h, match h !! l with
       | Some m => Some (tt, <[l := <[k := v]> m]> h)
       | None => None
       end.

Fixpoint for_each {A : Type} (xs : list A) (body : A → M unit) : M unit :=
  match xs with
  | [] => ret tt
  | x :: rest => run _ <~ body x ;; for_each rest body
  end.

Fixpoint map_each {A B : Type} (xs : list A) (body : A → M B) : M (list B) :=
  match xs with
  | [] => ret []
  | x :: rest => run y <~ body x ;; run ys <~ map_each rest body ;; ret (y :: ys)
  end.

(** Need to be able to deep copy prometheus labels. *)
Definition copyLabel (label : nat) : M nat :=
  run newLabel <~ make ;;
  run kvs <~ entries label ;;
  run _ <~ for_each kvs (λ kv, store newLabel kv.1 kv.2) ;;
  ret newLabel.

(** addToLabel will create a slice of labels adding a set of values tied to
    a label name. *)
Definition addToLabel (label : nat) (field : string) (values : list string)
  : M (list nat) :=
  map_each values (λ v,
    run l <~ copyLabel label ;;
    run _ <~ store l field v ;;
    ret l).

(** addDimension will expand a slice of labels to add the dimension of a new
    set of values for a new label name. *)
Definition addDimension (labels : list nat) (field : string) (values : list string)
  : M (list nat) :=
  match labels with
  | [] =>
      (* We are starting a new slice of labels, so we can't loop. *)
      run l0 <~ make ;; addToLabel l0 field values
  | _ =>
      run rows <~ map_each labels (λ l, addToLabel l field values) ;;
      ret (concat rows)
  end.

(** The slice [ls] of addresses holds the maps [Ls]. *)
Definition holds (h : heap) (ls : list nat) (Ls : list (gmap string string)) : Prop :=
  Forall2 (λ l m, h !! l = Some m) ls Ls.

Lemma holds_weaken (h h' : heap) ls Ls : h ⊆ h' → holds h ls Ls → holds h' ls Ls.
Proof.
  intros Hsub Hholds. unfold holds. eapply Forall2_impl; [exact Hholds|].
  intros l m Hl. exact (lookup_weaken _ _ _ _ Hl Hsub).
Qed.

Lemma holds_app (h : heap) ls1 ls2 Ls1 Ls2 :
  holds h ls1 Ls1 → holds h ls2 Ls2 → holds h (ls1 ++ ls2) (Ls1 ++ Ls2).
Proof. apply Forall2_app. Qed.

Lemma holds_allocated (h : heap) ls Ls l : holds h ls Ls → l ∈ ls → is_Some (h !! l).
Proof.
  induction 1 as [|l0 m ls Ls Hl _ IH]; [by intros ?%elem_of_nil|].
  intros [->|Hin]%elem_of_cons; eauto.
Qed.

Lemma make_spec (h : heap) :
  ∃ l, make h = Some (l, <[l := ∅]> h) ∧ h !! l = None.
Proof.
  exists (fresh (dom h)). split; [done|]. apply not_elem_of_dom, is_fresh.
Qed.

Lemma foldl_insert (kvs : list (string * string)) (c : gmap string string) :
  foldl (λ c kv, <[kv.1 := kv.2]> c) c kvs = list_to_map (reverse kvs) ∪ c.
Proof.
  revert c. induction kvs as [|[k v] kvs IH]; intros c; simpl.
  - by rewrite (left_id_L ∅ (∪)).
  - rewrite IH, reverse_cons, list_to_map_app. simpl.
    rewrite <-(assoc_L (∪)). f_equal.
    by rewrite insert_empty, <-insert_union_singleton_l.
Qed.

Lemma foldl_insert_entries (m : gmap string string) :
  foldl (λ c kv, <[kv.1 := kv.2]> c) ∅ (map_to_list m) = m.
Proof.
  rewrite foldl_insert, (right_id_L ∅ (∪)).
  rewrite <-(list_to_map_to_list m) at 2.
  symmetry. apply list_to_map_proper; [apply NoDup_fst_map_to_list|].
  symmetry. apply reverse_Permutation.
Qed.

Lemma for_each_store (kvs : list (string * string)) (l : nat) (c : gmap string string)
    (h : heap) :
  h !! l = Some c →
  for_each kvs (λ kv, store l kv.1 kv.2) h
  = Some (tt, <[l := foldl (λ c kv, <[kv.1 := kv.2]> c) c kvs]> h).
Proof.
  revert c h. induction kvs as [|[k v] kvs IH]; intros c h Hl; simpl.
  - unfold ret. by rewrite insert_id.
  - assert (Hstore : store l k v h = Some (tt, <[l := <[k := v]> c]> h)).
    { unfold store. by rewrite Hl. }
    rewrite (bind_run _ _ _ _ _ Hstore).
    rewrite (IH (<[k := v]> c)) by apply lookup_insert_eq.
    by rewrite insert_insert_eq.
Qed.

(** copyLabel allocates one map, a copy of its argument, and writes to no
    map that existed before. *)
Lemma copyLabel_spec (h : heap) (label : nat) (m : gmap string string) :
  h !! label = Some m →
  ∃ l, copyLabel label h = Some (l, <[l := m]> h) ∧ h !! l = None.
Proof.
  intros Hlabel. destruct (make_spec h) as (l & Hmake & Hfresh).
  exists l. split; [|done]. unfold copyLabel.
  assert (Hne : l ≠ label) by congruence.
  assert (Hentries : entries label (<[l := ∅]> h) = Some (map_to_list m, <[l := ∅]> h)).
  { unfold entries. by rewrite lookup_insert_ne, Hlabel. }
  rewrite (bind_run _ _ _ _ _ Hmake), (bind_run _ _ _ _ _ Hentries).
  erewrite bind_run; [|apply (for_each_store _ l ∅), lookup_insert_eq].
  unfold ret. by rewrite foldl_insert_entries, insert_insert_eq.
Qed.

(** addToLabel allocates one map per value and writes to no map that
    existed before: every binding of the heap is still there. *)
Lemma addToLabel_spec (h : heap) (label : nat) (m : gmap string string)
    (field : string) (values : list string) :
  h !! label = Some m →
  ∃ ls h', addToLabel label field values h = Some (ls, h')
           ∧ h ⊆ h'
           ∧ holds h' ls ((λ v, <[field := v]> m) <$> values)
           ∧ (∀ l, l ∈ ls → h !! l = None)
           ∧ NoDup ls.
Proof.
  revert h. induction values as [|v values IH]; intros h Hlabel.
  - exists [], h. split_and!; [done|done|constructor|by intros ? ?%elem_of_nil|constructor].
  - destruct (copyLabel_spec h label m Hlabel) as (l & Hcopy & Hfresh).
    assert (Hne : l ≠ label) by congruence.
    set (h2 := <[l := <[field := v]> m]> h).
    assert (Hh2 : h ⊆ h2) by (by apply insert_subseteq).
    destruct (IH h2) as (ls & h' & Hrun & Hsub & Hholds & Hnew & Hnodup).
    { unfold h2. by rewrite lookup_insert_ne. }
    exists (l :: ls), h'. split_and!.
    + assert (Hbody : (run l0 <~ copyLabel label ;; run _ <~ store l0 field v ;; ret l0) h
                      = Some (l, h2)).
      { rewrite (bind_run _ _ _ _ _ Hcopy). unfold bind, store.
        rewrite lookup_insert_eq. unfold ret, h2. by rewrite insert_insert_eq. }
      unfold addToLabel in *. cbn [map_each].
      rewrite (bind_run _ _ _ _ _ Hbody), (bind_run _ _ _ _ _ Hrun). done.
    + by etrans.
    + constructor; [|done]. eapply lookup_weaken; [|exact Hsub].
      unfold h2. apply lookup_insert_eq.
    + intros l' [->|Hin]%elem_of_cons; [done|].
      eapply lookup_weaken_None; [apply Hnew, Hin|done].
    + constructor; [|done]. intros Hin. apply Hnew in Hin.
      unfold h2 in Hin. by rewrite lookup_insert_eq in Hin.
Qed.

Lemma rows_spec (h : heap) (labels : list nat) (Ls : list (gmap string string))
    (field : string) (values : list string) :
  holds h labels Ls →
  ∃ rows h', map_each labels (λ l, addToLabel l field values) h = Some (rows, h')
             ∧ h ⊆ h'
             ∧ holds h' (concat rows) (Ls ≫= λ m, (λ v, <[field := v]> m) <$> values)
             ∧ (∀ l, l ∈ concat rows → h !! l = None)
             ∧ NoDup (concat rows).
Proof.
  intros Hholds. revert h Hholds.
  induction Ls as [|m Ls IH] in labels |- *; intros h Hholds.
  - apply Forall2_nil_inv_r in Hholds as ->.
    exists [], h. split_and!; [done|done|constructor|by intros ? ?%elem_of_nil|constructor].
  - apply Forall2_cons_inv_r in Hholds as (l & labels' & Hl & Hrest & ->).
    destruct (addToLabel_spec h l m field values Hl)
      as (ls1 & h1 & Hrun1 & Hsub1 & Hholds1 & Hnew1 & Hnodup1).
    destruct (IH labels' h1) as (rows & h2 & Hrun2 & Hsub2 & Hholds2 & Hnew2 & Hnodup2).
    { by eapply holds_weaken. }
    exists (ls1 :: rows), h2. split_and!.
    + cbn [map_each].
      rewrite (bind_run _ _ _ _ _ Hrun1), (bind_run _ _ _ _ _ Hrun2). done.
    + by etrans.
    + simpl. apply holds_app; [|done]. by eapply holds_weaken.
    + simpl. intros l' [Hin|Hin]%elem_of_app; [by apply Hnew1|].
      eapply lookup_weaken_None; [apply Hnew2, Hin|done].
    + simpl. apply NoDup_app. split_and!; [done| |done].
      intros l' Hin1 Hin2. apply Hnew2 in Hin2.
      destruct (holds_allocated _ _ _ l' Hholds1 Hin1) as [? ?]. congruence.
Qed.

(** addDimension on the heap computes what the value-level addDimension
    computes on the maps the slice holds, returns maps it allocated, all
    different, and leaves every map that existed before as it was: in
    particular the maps of its input slice. *)
Lemma addDimension_spec (h : heap) (labels : list nat) (Ls : list (gmap string string))
    (field : string) (values : list string) :
  holds h labels Ls →
  ∃ labels' h', addDimension labels field values h = Some (labels', h')
                ∧ h ⊆ h'
                ∧ holds h' labels' (prometheusmetrics.addDimension Ls field values)
                ∧ holds h' labels Ls
                ∧ (∀ l, l ∈ labels' → h !! l = None)
                ∧ NoDup labels'.
Proof.
  intros Hholds. destruct Ls as [|m Ls].
  - apply Forall2_nil_inv_r in Hholds as ->.
    destruct (make_spec h) as (l0 & Hmake & Hfresh).
    destruct (addToLabel_spec (<[l0 := ∅]> h) l0 ∅ field values)
      as (ls & h' & Hrun & Hsub & Hls & Hnew & Hnodup); [apply lookup_insert_eq|].
    assert (Hh : h ⊆ <[l0 := ∅]> h) by (by apply insert_subseteq).
    exists ls, h'. split_and!.
    + unfold addDimension. by rewrite (bind_run _ _ _ _ _ Hmake).
    + by etrans.
    + unfold prometheusmetrics.addDimension. by rewrite addToLabel_eq.
    + constructor.
    + intros l Hin. eapply lookup_weaken_None; [apply Hnew, Hin|done].
    + done.
  - destruct (rows_spec h labels (m :: Ls) field values Hholds)
      as (rows & h' & Hrun & Hsub & Hrows & Hnew & Hnodup).
    assert (Hcons : ∃ l labels0, labels = l :: labels0).
    { apply Forall2_cons_inv_r in Hholds as (l & labels0 & _ & _ & ->). eauto. }
    destruct Hcons as (l & labels0 & ->).
    exists (concat rows), h'. split_and!.
    + unfold addDimension. by rewrite (bind_run _ _ _ _ _ Hrun).
    + done.
    + unfold prometheusmetrics.addDimension.
      erewrite list_bind_ext; [exact Hrows| |done].
      intros m'. apply addToLabel_eq.
    + by eapply holds_weaken.
    + done.
    + done.
Qed.

End Heap.

(** ** Reusing an expanded prefix *)

(** C8. Reusing the expanded product of a prefix as the starting set gives
    the same label assignments as enumerating the whole dimension list
    from scratch: the enumeration of [pre ++ ext] is the enumeration of
    [pre] expanded by [ext]. So in the state NewMetrics returns, the series
    of the request, adapter, bid and error families - the last three built
    from saved slices - are exactly the from-scratch enumerations of their
    dimension lists (in the order initializeTimeSeries adds the
    dimensions). On the heap, [addDimension] returns maps it allocated and
    mutates none of the maps that existed before, its input maps among
    them, because [addToLabel] copies the base map before it writes the new
    key; hence a saved slice can be expanded twice, and both results are
    what the value-level function computes from the saved maps. *)
Theorem prefix_reuse_equivalence :
  (∀ pre ext : list Dimension,
     enumerate (pre ++ ext)
     = foldl (λ labels d, addDimension labels d.1 d.2) (enumerate pre) ext)
  ∧ (∀ D cfg m, NewMetrics D cfg = Some m →
       series m requestsF
       = list_to_set (enumerate (sharedDims D
                                 ++ [ (responseStatusLabel, requestStatusesAsString D) ]))
       ∧ series m adaptRequestsF
         = list_to_set (enumerate (sharedDims D
                                   ++ [ (adapterLabel, adaptersAsString D);
                                        (adapterBidLabel, adapterBidsAsString D) ]))
       ∧ series m adaptBidsF
         = list_to_set (enumerate (sharedDims D
                                   ++ [ (adapterLabel, adaptersAsString D);
                                        (adapterBidLabel, adapterBidsAsString D);
                                        (bidTypeLabel, bidTypesAsString D);
                                        (markupTypeLabel, ["unknown"; "adm"]) ]))
       ∧ series m adaptErrorsF
         = list_to_set (enumerate (sharedDims D
                                   ++ [ (adapterLabel, adaptersAsString D);
                                        (adapterErrLabel, adapterErrorsAsString D) ])))
  ∧ (∀ h labels Ls field values,
       Heap.holds h labels Ls →
       ∃ labels' h',
         Heap.addDimension labels field values h = Some (labels', h')
         ∧ h ⊆ h'
         ∧ Heap.holds h' labels' (addDimension Ls field values)
         ∧ Heap.holds h' labels Ls)
  ∧ (∀ h saved Ls field1 values1 field2 values2,
       Heap.holds h saved Ls →
       ∃ out1 h1 out2 h2,
         Heap.addDimension saved field1 values1 h = Some (out1, h1)
         ∧ Heap.addDimension saved field2 values2 h1 = Some (out2, h2)
         ∧ Heap.holds h2 out1 (addDimension Ls field1 values1)
         ∧ Heap.holds h2 out2 (addDimension Ls field2 values2)
         ∧ Heap.holds h2 saved Ls).
Proof.
  split_and!.
  - intros pre ext. unfold enumerate. by rewrite foldl_app.
  - intros D cfg m (_ & _ & Hser)%NewMetrics_Some. by rewrite !Hser.
  - intros h labels Ls field values Hholds.
    destruct (Heap.addDimension_spec h labels Ls field values Hholds)
      as (labels' & h' & Hrun & Hsub & Hout & Hin & _).
    by exists labels', h'.
  - intros h saved Ls field1 values1 field2 values2 Hholds.
    destruct (Heap.addDimension_spec h saved Ls field1 values1 Hholds)
      as (out1 & h1 & Hrun1 & Hsub1 & Hout1 & Hin1 & _).
    destruct (Heap.addDimension_spec h1 saved Ls field2 values2 Hin1)
      as (out2 & h2 & Hrun2 & Hsub2 & Hout2 & Hin2 & _).
    exists out1, h1, out2, h2. split_and!; try done.
    by eapply Heap.holds_weaken.
Qed.

Lemma prefix_reuse_equivalence_witness :
  ∃ out1 h1 out2 h2,
    Heap.addDimension [0] "adapter" ["appnexus"] {[ 0 := {[ "cookie" := "no" ]} ]}
    = Some (out1, h1)
    ∧ Heap.addDimension [0] "response_status" ["ok"; "err"] h1 = Some (out2, h2)
    ∧ Heap.holds h2 out1 (addDimension [ {[ "cookie" := "no" ]} ] "adapter" ["appnexus"])
    ∧ Heap.holds h2 out2
        (addDimension [ {[ "cookie" := "no" ]} ] "response_status" ["ok"; "err"])
    ∧ Heap.holds h2 [0] [ {[ "cookie" := "no" ]} ].
Proof.
  apply (proj2 (proj2 (proj2 prefix_reuse_equivalence))).
  constructor; [apply lookup_singleton_eq|constructor].
Defined.

(** * Further properties of prometheus.go *)

(** ** Calls of the recording methods *)

(** A call of one of the sixteen recording methods of prometheus.go, with
    its arguments. *)
Inductive Call : Type :=
| CallConnectionAccept (success : bool)
| CallConnectionClose (success : bool)
| CallRequest (labels : pbsmetrics.Labels)
| CallImps (implabels : pbsmetrics.ImpLabels)
| CallLegacyImps (labels : pbsmetrics.Labels) (numImps : Z)
| CallRequestTime (labels : pbsmetrics.Labels) (length : pbsmetrics.Duration)
| CallAdapterPanic (labels : pbsmetrics.AdapterLabels)
| CallAdapterRequest (labels : pbsmetrics.AdapterLabels)
| CallAdapterBidReceived (labels : pbsmetrics.AdapterLabels) (bidType : pbsmetrics.BidType)
    (hasAdm : bool)
| CallAdapterPrice (labels : pbsmetrics.AdapterLabels) (cpm : float)
| CallAdapterTime (labels : pbsmetrics.AdapterLabels) (length : pbsmetrics.Duration)
| CallCookieSync (labels : pbsmetrics.Labels)
| CallAdapterCookieSync (adapter : pbsmetrics.BidderName) (gdprBlocked : bool)
| CallStoredReqCacheResult (cacheResult : pbsmetrics.CacheResult) (inc : Z)
| CallStoredImpCacheResult (cacheResult : pbsmetrics.CacheResult) (inc : Z)
| CallUserIDSet (userLabels : pbsmetrics.UserLabels).

Definition call (c : Call) (me : Metrics) : result Metrics :=
  match c with
  | CallConnectionAccept success => RecordConnectionAccept me success
  | CallConnectionClose success => RecordConnectionClose me success
  | CallRequest labels => RecordRequest me labels
  | CallImps implabels => RecordImps me implabels
  | CallLegacyImps labels numImps => RecordLegacyImps me labels numImps
  | CallRequestTime labels length => RecordRequestTime me labels length
  | CallAdapterPanic labels => RecordAdapterPanic me labels
  | CallAdapterRequest labels => RecordAdapterRequest me labels
  | CallAdapterBidReceived labels bidType hasAdm =>
      RecordAdapterBidReceived me labels bidType hasAdm
  | CallAdapterPrice labels cpm => RecordAdapterPrice me labels cpm
  | CallAdapterTime labels length => RecordAdapterTime me labels length
  | CallCookieSync labels => RecordCookieSync me labels
  | CallAdapterCookieSync adapter gdprBlocked => RecordAdapterCookieSync me adapter gdprBlocked
  | CallStoredReqCacheResult cacheResult inc => RecordStoredReqCacheResult me cacheResult inc
  | CallStoredImpCacheResult cacheResult inc => RecordStoredImpCacheResult me cacheResult inc
  | CallUserIDSet userLabels => RecordUserIDSet me userLabels
  end.

(** One call after the other, as long as none panics. *)
Fixpoint calls (cs : list Call) (me : Metrics) : result Metrics :=
  match cs with
  | [] => Returned me
  | c :: rest => and_then (call c me) (calls rest)
  end.

(** The amount a call adds with [Counter.Add], where it takes one from its
    caller. *)
Definition amount (c : Call) : option Z :=
  match c with
  | CallLegacyImps _ numImps => Some numImps
  | CallStoredReqCacheResult _ inc | CallStoredImpCacheResult _ inc => Some inc
  | _ => None
  end.

Definition nonnegative (c : Call) : Prop :=
  match amount c with Some x => (0 ≤ x)%Z | None => True end.

(** The state has the seventeen families with the names, kinds, label names
    and bucket edges NewMetrics declares. *)
Definition declares (cfg : config.PrometheusMetrics) (m : Metrics) : Prop :=
  describe <$> collectors m = catalog cfg.

Lemma declares_labelNames (cfg : config.PrometheusMetrics) (m : Metrics) :
  declares cfg m →
  prometheus.cv_labelNames (connError m) = ["ErrorType"]
  ∧ prometheus.cv_labelNames (imps m) = [bannerLabel; videoLabel; audioLabel; nativeLabel]
  ∧ prometheus.cv_labelNames (legacyImps m) = standardLabelNames
  ∧ prometheus.cv_labelNames (requests m) = standardLabelNames
  ∧ prometheus.hv_labelNames (reqTimer m) = standardLabelNames
  ∧ prometheus.cv_labelNames (adaptRequests m) = adapterLabelNames
  ∧ prometheus.cv_labelNames (adaptPanics m) = adapterLabelNames
  ∧ prometheus.hv_labelNames (adaptTimer m) = adapterLabelNames
  ∧ prometheus.cv_labelNames (adaptBids m) = bidLabelNames
  ∧ prometheus.cv_labelNames (storedReqCacheResult m) = ["cache_result"]
  ∧ prometheus.cv_labelNames (storedImpCacheResult m) = ["cache_result"]
  ∧ prometheus.hv_labelNames (adaptPrices m) = adapterLabelNames
  ∧ prometheus.cv_labelNames (adaptErrors m) = errorLabelNames
  ∧ prometheus.cv_labelNames (adaptCookieSync m) = [adapterLabel; gdprBlockedLabel]
  ∧ prometheus.cv_labelNames (userID m) = ["action"; "bidder"].
Proof.
  intros Hcat. unfold declares, collectors, catalog in Hcat.
  cbn [fmap list_fmap] in Hcat. unfold describe in Hcat. simplify_eq/=. done.
Qed.

(** *** The vectors under a call *)

(** [v.With(l).Add(x)] with a valid assignment: it panics exactly on a
    negative amount; the series [l] exists afterwards, the others are kept
    with their values, and [l] has gained [x] when the call returns. *)
Lemma withAdd_valid (v : prometheus.CounterVec) (l : prometheus.Labels) (x : Z) :
  prometheus.validLabels (prometheus.cv_labelNames v) l = true →
  let old := default 0%Z (prometheus.cv_series v !! l) in
  withAdd v l x
  = if (x <? 0)%Z
    then Panicked {| prometheus.cv_opts := prometheus.cv_opts v;
                     prometheus.cv_labelNames := prometheus.cv_labelNames v;
                     prometheus.cv_series := <[l := old]> (prometheus.cv_series v) |}
    else Returned {| prometheus.cv_opts := prometheus.cv_opts v;
                     prometheus.cv_labelNames := prometheus.cv_labelNames v;
                     prometheus.cv_series := <[l := (old + x)%Z]> (prometheus.cv_series v) |}.
Proof.
  intros Hvalid old. unfold withAdd, prometheus.CounterVec_With. rewrite Hvalid.
  subst old. destruct (prometheus.cv_series v !! l) as [c|] eqn:Hl.
  - unfold prometheus.CounterVec_Add. rewrite Hl. simpl.
    destruct (x <? 0)%Z; [|done]. f_equal. destruct v as [o n s]. simpl in *.
    f_equal. by rewrite insert_id.
  - unfold prometheus.CounterVec_Add. cbn [prometheus.cv_series prometheus.cv_opts
      prometheus.cv_labelNames]. rewrite lookup_insert_eq. simpl.
    destruct (x <? 0)%Z; [done|]. by rewrite insert_insert_eq.
Qed.

Lemma withObserve_valid (v : prometheus.HistogramVec) (l : prometheus.Labels) (x : float) :
  prometheus.validLabels (prometheus.hv_labelNames v) l = true →
  withObserve v l x
  = Returned {| prometheus.hv_opts := prometheus.hv_opts v;
                prometheus.hv_labelNames := prometheus.hv_labelNames v;
                prometheus.hv_buckets := prometheus.hv_buckets v;
                prometheus.hv_series :=
                  <[l := x :: default [] (prometheus.hv_series v !! l)]>
                    (prometheus.hv_series v) |}.
Proof.
  intros Hvalid. unfold withObserve, prometheus.HistogramVec_With. rewrite Hvalid.
  destruct (prometheus.hv_series v !! l) as [c|] eqn:Hl.
  - unfold prometheus.HistogramVec_Observe. by rewrite Hl.
  - unfold prometheus.HistogramVec_Observe.
    cbn [prometheus.hv_series prometheus.hv_opts prometheus.hv_labelNames
         prometheus.hv_buckets].
    rewrite lookup_insert_eq. simpl. by rewrite insert_insert_eq.
Qed.

(** The assignments the resolve functions build have the label names the
    families are declared with, whatever the values. *)
Lemma resolveLabels_valid (labels : pbsmetrics.Labels) :
  prometheus.validLabels standardLabelNames (resolveLabels labels) = true.
Proof. by vm_compute. Qed.

Lemma resolveAdapterLabels_valid (labels : pbsmetrics.AdapterLabels) :
  prometheus.validLabels adapterLabelNames (resolveAdapterLabels labels) = true.
Proof. by vm_compute. Qed.

Lemma resolveBidLabels_valid (labels : pbsmetrics.AdapterLabels)
    (bidType : pbsmetrics.BidType) (hasAdm : bool) :
  prometheus.validLabels bidLabelNames (resolveBidLabels labels bidType hasAdm) = true.
Proof. destruct hasAdm; by vm_compute. Qed.

Lemma resolveAdapterErrorLabels_valid (labels : pbsmetrics.AdapterLabels)
    (errorType : string) :
  prometheus.validLabels errorLabelNames (resolveAdapterErrorLabels labels errorType) = true.
Proof. by vm_compute. Qed.

Lemma resolveImpLabels_valid (labels : pbsmetrics.ImpLabels) :
  prometheus.validLabels [bannerLabel; videoLabel; audioLabel; nativeLabel]
    (resolveImpLabels labels) = true.
Proof. destruct labels as [[] [] [] []]; by vm_compute. Qed.

Lemma resolveUserSyncLabels_valid (userLabels : pbsmetrics.UserLabels) :
  prometheus.validLabels ["action"; "bidder"] (resolveUserSyncLabels userLabels) = true.
Proof. by vm_compute. Qed.

(** What a call keeps of the state [m]: the registry and the descriptors,
    and every series that exists. *)
Definition keeps (m : Metrics) (r : result Metrics) : Prop :=
  static_of (state_of r) = static_of m ∧ ∀ f, series m f ⊆ series (state_of r) f.

Lemma keeps_declares (cfg : config.PrometheusMetrics) (m : Metrics) (r : result Metrics) :
  keeps m r → declares cfg m → declares cfg (state_of r).
Proof.
  intros [Hstatic _] Hm. unfold declares.
  apply pair_equal_spec in Hstatic as [_ ->]. exact Hm.
Qed.

Lemma keeps_trans (m m1 : Metrics) (r : result Metrics) :
  keeps m (Returned m1) → keeps m1 r → keeps m r.
Proof.
  intros [Hs1 Hsub1] [Hs2 Hsub2]. split.
  - by rewrite Hs2.
  - intros f. etrans; [apply Hsub1|apply Hsub2].
Qed.

(** The adapter errors of [RecordAdapterRequest], one [With(..).Inc()] per
    key of the map. *)
Definition recordAdapterErrors (labels : pbsmetrics.AdapterLabels) (k : pbsmetrics.AdapterError)
    (me : Metrics) : result Metrics :=
  map_result (set_adaptErrors me)
    (withAdd (adaptErrors me) (resolveAdapterErrorLabels labels (string_of k)) 1).

Ltac counter_call Hnames lemma :=
  rewrite withAdd_valid by (rewrite Hnames; apply lemma);
  match goal with
  | |- context [ (?x <? 0)%Z ] =>
      let Hx := fresh "Hx" in
      destruct (Z.ltb_spec x 0) as [Hx|Hx]; try (exfalso; lia);
      cbn [map_result returns state_of]
  | _ => cbn [map_result returns state_of]
  end;
  (split; [first [done | split; [done|intros; lia] | split; [done|intros; assumption]]|]);
  (split; [reflexivity|]);
  (let f := fresh "f" in
   intros f; destruct f; cbn [series]; try reflexivity;
   cbn; rewrite dom_insert_L; set_solver).

Ltac histogram_call Hnames lemma :=
  rewrite withObserve_valid by (rewrite Hnames; apply lemma);
  cbn [map_result returns state_of];
  (split; [done|]); (split; [reflexivity|]);
  (let f := fresh "f" in
   intros f; destruct f; cbn [series]; try reflexivity;
   cbn; rewrite dom_insert_L; set_solver).

Lemma recordAdapterErrors_keeps (cfg : config.PrometheusMetrics) (m : Metrics)
    (labels : pbsmetrics.AdapterLabels) (k : pbsmetrics.AdapterError) :
  declares cfg m →
  returns (recordAdapterErrors labels k m) = true ∧ keeps m (recordAdapterErrors labels k m).
Proof.
  intros Hm. destruct (declares_labelNames cfg m Hm)
    as (_ & _ & _ & _ & _ & _ & _ & _ & _ & _ & _ & _ & Hnames & _).
  unfold recordAdapterErrors, keeps.
  rewrite withAdd_valid by (rewrite Hnames; apply resolveAdapterErrorLabels_valid).
  cbn [map_result returns state_of Z.ltb Z.compare].
  split; [done|]. split; [reflexivity|].
  intros f; destruct f; cbn [series]; try reflexivity.
  cbn. rewrite dom_insert_L. set_solver.
Qed.

Lemma adapterErrors_fold (cfg : config.PrometheusMetrics) (m : Metrics)
    (labels : pbsmetrics.AdapterLabels) (ks : list pbsmetrics.AdapterError) :
  declares cfg m →
  let r := foldr (λ k (acc : result Metrics), and_then acc (recordAdapterErrors labels k))
             (Returned m) ks in
  returns r = true ∧ keeps m r.
Proof.
  intros Hm. induction ks as [|k ks [Hret Hkeeps]]; simpl.
  - split; [done|]. split; [done|]. intros f. done.
  - destruct (foldr _ _ ks) as [m1|m1]; [|done]. cbn [and_then].
    pose proof (keeps_declares cfg m (Returned m1) Hkeeps Hm) as Hm1.
    destruct (recordAdapterErrors_keeps cfg m1 labels k Hm1) as [Hret1 Hkeeps1].
    split; [exact Hret1|]. by eapply keeps_trans.
Qed.

Lemma withLabelValuesInc_withAdd (v : prometheus.CounterVec) (lvs : list string) :
  length lvs = length (prometheus.cv_labelNames v) →
  withLabelValuesInc v lvs
  = withAdd v (list_to_map (zip (prometheus.cv_labelNames v) lvs)) 1.
Proof.
  intros Hlen. unfold withLabelValuesInc, withAdd, prometheus.CounterVec_WithLabelValues.
  rewrite bool_decide_eq_true_2 by done.
  by destruct (prometheus.CounterVec_With v _).
Qed.

Lemma RecordAdapterRequest_fold (me : Metrics) (labels : pbsmetrics.AdapterLabels) :
  RecordAdapterRequest me labels
  = and_then
      (map_result (set_adaptRequests me)
         (withAdd (adaptRequests me) (resolveAdapterLabels labels) 1))
      (λ me, foldr (λ k (acc : result Metrics), and_then acc (recordAdapterErrors labels k))
               (Returned me) (elements (pbsmetrics.al_AdapterErrors labels))).
Proof. reflexivity. Qed.

(** Under the declared families a call panics only by adding a negative
    amount, and it keeps the registry, the descriptors and every series. *)
Lemma call_keeps (cfg : config.PrometheusMetrics) (m : Metrics) (c : Call) :
  declares cfg m →
  (returns (call c m) = true ↔ nonnegative c) ∧ keeps m (call c m).
Proof.
  intros Hm.
  destruct (declares_labelNames cfg m Hm)
    as (HconnError & Himps & HlegacyImps & Hrequests & HreqTimer & HadaptRequests
        & HadaptPanics & HadaptTimer & HadaptBids & HstoredReq & HstoredImp
        & HadaptPrices & HadaptErrors & HadaptCookieSync & HuserID).
  assert (Hconn : ∀ e : string,
    prometheus.validLabels ["ErrorType"] (list_to_map (zip ["ErrorType"] [e])) = true)
    by (intros e; by vm_compute).
  assert (Hcache : ∀ e : string,
    prometheus.validLabels ["cache_result"]
      (list_to_map [ (cacheResultLabel, string_of e) ]) = true)
    by (intros e; by vm_compute).
  assert (Hcookie : ∀ (a : string) (b : bool),
    prometheus.validLabels [adapterLabel; gdprBlockedLabel]
      (if b then <[gdprBlockedLabel := "true"]> (list_to_map [ (adapterLabel, string_of a) ])
       else <[gdprBlockedLabel := "false"]> (list_to_map [ (adapterLabel, string_of a) ]))
    = true)
    by (intros a []; by vm_compute).
  unfold keeps, nonnegative.
  destruct c; cbn [call amount].
  - unfold RecordConnectionAccept. destruct success.
    + cbn. split; [done|]. split; [reflexivity|]. intros f. by destruct f.
    + rewrite withLabelValuesInc_withAdd by (by rewrite HconnError).
      rewrite HconnError. counter_call HconnError Hconn.
  - unfold RecordConnectionClose. destruct success.
    + cbn. split; [done|]. split; [reflexivity|]. intros f. by destruct f.
    + rewrite withLabelValuesInc_withAdd by (by rewrite HconnError).
      rewrite HconnError. counter_call HconnError Hconn.
  - unfold RecordRequest. counter_call Hrequests resolveLabels_valid.
  - unfold RecordImps. counter_call Himps resolveImpLabels_valid.
  - unfold RecordLegacyImps. cbn zeta. counter_call HlegacyImps resolveLabels_valid.
  - unfold RecordRequestTime. cbn zeta. histogram_call HreqTimer resolveLabels_valid.
  - unfold RecordAdapterPanic. counter_call HadaptPanics resolveAdapterLabels_valid.
  - rewrite RecordAdapterRequest_fold.
    rewrite withAdd_valid by (rewrite HadaptRequests; apply resolveAdapterLabels_valid).
    cbn [Z.ltb Z.compare map_result and_then].
    match goal with |- context [ foldr _ (Returned ?m1) _ ] => set (m1' := m1) end.
    assert (Hkeeps1 : keeps m (Returned m1')).
    { split; [reflexivity|]. intros f; destruct f; cbn [series]; try reflexivity.
      cbn. rewrite dom_insert_L. set_solver. }
    pose proof (keeps_declares cfg m _ Hkeeps1 Hm) as Hm1.
    destruct (adapterErrors_fold cfg m1' labels
                (elements (pbsmetrics.al_AdapterErrors labels)) Hm1) as [Hret Hkeeps].
    split; [by rewrite Hret|]. by eapply keeps_trans.
  - unfold RecordAdapterBidReceived. counter_call HadaptBids resolveBidLabels_valid.
  - unfold RecordAdapterPrice. histogram_call HadaptPrices resolveAdapterLabels_valid.
  - unfold RecordAdapterTime. cbn zeta. histogram_call HadaptTimer resolveAdapterLabels_valid.
  - cbn. split; [done|]. split; [reflexivity|]. intros f. by destruct f.
  - unfold RecordAdapterCookieSync. cbn zeta.
    counter_call HadaptCookieSync (Hcookie adapter gdprBlocked).
  - unfold RecordStoredReqCacheResult. cbn zeta. counter_call HstoredReq Hcache.
  - unfold RecordStoredImpCacheResult. cbn zeta. counter_call HstoredImp Hcache.
  - unfold RecordUserIDSet. counter_call HuserID resolveUserSyncLabels_valid.
Qed.

Lemma calls_keeps (cfg : config.PrometheusMetrics) (cs : list Call) (m : Metrics) :
  declares cfg m → Forall nonnegative cs →
  returns (calls cs m) = true ∧ keeps m (calls cs m).
Proof.
  revert m. induction cs as [|c cs IH]; intros m Hm Hcs; cbn [calls].
  - split; [done|]. split; [done|]. by intros f.
  - apply Forall_cons in Hcs as [Hc Hcs].
    destruct (call_keeps cfg m c Hm) as [Hret Hkeeps].
    apply Hret in Hc. destruct (call c m) as [m1|m1]; [|done]. cbn [and_then].
    pose proof (keeps_declares cfg m _ Hkeeps Hm) as Hm1.
    destruct (IH m1 Hm1 Hcs) as [Hret1 Hkeeps1].
    split; [exact Hret1|]. by eapply keeps_trans.
Qed.

Lemma NewMetrics_catalog (D : pbsmetrics.Domains) (cfg : config.PrometheusMetrics)
    (m : Metrics) :
  NewMetrics D cfg = Some m → declares cfg m.
Proof. by intros (_ & Hcat & _)%NewMetrics_Some. Qed.

(** ** Recording cannot panic on its labels *)

(** X1. In a state with the families NewMetrics declares, so in the state it
    returns and in every state recordings lead to, each of the sixteen
    recording methods returns for every label context, with values in the
    label domains or not: the assignment a resolve function builds always
    has exactly the label names its family was declared with. The only
    panic is that of [Counter.Add] on a negative amount, which
    RecordLegacyImps, RecordStoredReqCacheResult and
    RecordStoredImpCacheResult pass on from their caller. Returning or
    panicking, a call keeps the registry and the descriptors and removes no
    series; so every sequence of calls without a negative amount returns.
    (Label values are taken to be valid UTF-8, as the values of the Go
    string types are in practice: [With] also refuses a value that is
    not.) *)
Theorem recording_panics_only_on_negative_amount (cfg : config.PrometheusMetrics)
    (m : Metrics) :
  declares cfg m →
  (∀ c : Call,
     (returns (call c m) = true ↔ nonnegative c)
     ∧ declares cfg (state_of (call c m))
     ∧ Registry (state_of (call c m)) = Registry m
     ∧ ∀ f, series m f ⊆ series (state_of (call c m)) f)
  ∧ (∀ cs : list Call,
       Forall nonnegative cs →
       returns (calls cs m) = true
       ∧ declares cfg (state_of (calls cs m))
       ∧ ∀ f, series m f ⊆ series (state_of (calls cs m)) f).
Proof.
  intros Hm. split.
  - intros c. destruct (call_keeps cfg m c Hm) as [Hret Hkeeps].
    split; [exact Hret|]. split; [by eapply keeps_declares|].
    destruct Hkeeps as [Hstatic Hsub]. split; [|exact Hsub].
    by apply pair_equal_spec in Hstatic as [-> _].
  - intros cs Hcs. destruct (calls_keeps cfg cs m Hm Hcs) as [Hret Hkeeps].
    split; [exact Hret|]. split; [by eapply keeps_declares|]. apply Hkeeps.
Qed.

(** A context none of whose values is in a label domain. *)
Definition strayLabels : pbsmetrics.Labels := {|
  pbsmetrics.l_Source := "tv";
  pbsmetrics.l_RType := "video";
  pbsmetrics.l_PubID := "pub-1";
  pbsmetrics.l_Browser := "lynx";
  pbsmetrics.l_CookieFlag := "maybe";
  pbsmetrics.l_RequestStatus := "teapot";
|}.

Lemma recording_panics_only_on_negative_amount_witness :
  ∃ m, NewMetrics sampleDomains samplePrometheus = Some m
       ∧ returns (call (CallRequest strayLabels) m) = true
       ∧ returns (call (CallLegacyImps sampleLabels (-1)) m) = false.
Proof.
  destruct NewMetrics_sample_returns as [m Hm]. exists m. split; [exact Hm|].
  pose proof (recording_panics_only_on_negative_amount samplePrometheus m
                (NewMetrics_catalog _ _ _ Hm)) as [Hcall _].
  split.
  - by apply (Hcall (CallRequest strayLabels)).
  - destruct (Hcall (CallLegacyImps sampleLabels (-1))) as [Hret _].
    destruct (returns _); [|done]. by destruct (proj1 Hret eq_refl).
Defined.

(** ** Recording within the label domains creates no series *)

(** The calls whose label values all lie in the closed domains, for the
    families initializeTimeSeries has a loop for. *)
Definition inDomain (D : pbsmetrics.Domains) (c : Call) : Prop :=
  match c with
  | CallConnectionAccept _ | CallConnectionClose _ | CallImps _ | CallCookieSync _ => True
  | CallRequest labels | CallRequestTime labels _ => inDomains D labels
  | CallAdapterPanic labels | CallAdapterRequest labels
  | CallAdapterPrice labels _ | CallAdapterTime labels _ => adapterInDomains D labels
  | CallAdapterBidReceived labels bidType _ =>
      adapterInDomains D labels ∧ bidType ∈ pbsmetrics.BidTypes D
  | CallAdapterCookieSync adapter _ => adapter ∈ pbsmetrics.BidderList D
  | CallStoredReqCacheResult cacheResult _ | CallStoredImpCacheResult cacheResult _ =>
      cacheResult ∈ pbsmetrics.CacheResults D
  | CallLegacyImps _ _ | CallUserIDSet _ => False
  end.

Lemma call_unchanged (D : pbsmetrics.Domains) (cfg : config.PrometheusMetrics)
    (m : Metrics) (c : Call) :
  wellFormed D cfg m → inDomain D c → unchanged m (call c m).
Proof.
  intros Hm Hc. destruct c; cbn [call inDomain] in *; try done.
  - by apply (RecordConnection_unchanged D cfg).
  - by apply (RecordConnection_unchanged D cfg).
  - by apply (RecordRequest_unchanged D cfg).
  - by apply (RecordImps_unchanged D cfg).
  - by apply (RecordRequestTime_unchanged D cfg).
  - by apply (RecordAdapterPanic_unchanged D cfg).
  - by apply (RecordAdapterRequest_unchanged D cfg).
  - destruct Hc. by apply (RecordAdapterBidReceived_unchanged D cfg).
  - by apply (RecordAdapterPrice_unchanged D cfg).
  - by apply (RecordAdapterTime_unchanged D cfg).
  - by apply (RecordAdapterCookieSync_unchanged D cfg).
  - by apply (RecordStoredReqCacheResult_unchanged D cfg).
  - by apply (RecordStoredImpCacheResult_unchanged D cfg).
Qed.

Lemma calls_unchanged (D : pbsmetrics.Domains) (cfg : config.PrometheusMetrics)
    (cs : list Call) (m : Metrics) :
  wellFormed D cfg m → Forall (inDomain D) cs → unchanged m (calls cs m).
Proof.
  revert m. induction cs as [|c cs IH]; intros m Hm Hcs; cbn [calls].
  - by split.
  - apply Forall_cons in Hcs as [Hc Hcs].
    pose proof (call_unchanged D cfg m c Hm Hc) as Hun.
    pose proof (unchanged_wellFormed D cfg m _ Hm Hun) as Hm1.
    destruct (call c m) as [m1|m1]; cbn [and_then]; [|exact Hun].
    destruct (IH m1 Hm1 Hcs) as [Hcol Hser]. destruct Hun as [Hcol1 Hser1].
    cbn [state_of] in *. split.
    + by rewrite Hcol.
    + intros f. by rewrite Hser.
Qed.

(** X2. From the state NewMetrics returns, every sequence of recordings with
    label values in the closed domains, by any of the sixteen methods but
    RecordLegacyImps and RecordUserIDSet, runs on the series
    initializeTimeSeries created: after the sequence, whether it returned
    or stopped at a panic, each family has exactly its pre-created series,
    as many as before, and the descriptors are as NewMetrics declared
    them. *)
Theorem in_domain_recordings_create_no_series (D : pbsmetrics.Domains)
    (cfg : config.PrometheusMetrics) (m : Metrics) (cs : list Call) :
  NewMetrics D cfg = Some m → Forall (inDomain D) cs →
  (∀ f, series (state_of (calls cs m)) f = list_to_set (precreated D f))
  ∧ (∀ f, size (series (state_of (calls cs m)) f) = size (series m f))
  ∧ declares cfg (state_of (calls cs m)).
Proof.
  intros Hnew Hcs.
  pose proof (NewMetrics_wellFormed D cfg m Hnew) as Hm.
  destruct (calls_unchanged D cfg cs m Hm Hcs) as [Hcol Hser].
  destruct (NewMetrics_Some D cfg m Hnew) as (_ & Hcat & Hpre).
  split_and!.
  - intros f. by rewrite Hser.
  - intros f. by rewrite Hser.
  - unfold declares. by rewrite Hcol.
Qed.

Definition sampleAdapterLabels : pbsmetrics.AdapterLabels := {|
  pbsmetrics.al_Source := "app";
  pbsmetrics.al_RType := "legacy";
  pbsmetrics.al_Adapter := "rubicon";
  pbsmetrics.al_PubID := "pub-1";
  pbsmetrics.al_Browser := "other";
  pbsmetrics.al_CookieFlag := "exists";
  pbsmetrics.al_AdapterBids := "bid";
  pbsmetrics.al_AdapterErrors := {[ "timeout"; "badinput" ]};
|}.

Definition sampleCalls : list Call :=
  [ CallConnectionAccept true; CallRequest sampleLabels;
    CallAdapterRequest sampleAdapterLabels;
    CallAdapterBidReceived sampleAdapterLabels "banner" true;
    CallAdapterPrice sampleAdapterLabels 1.25%float; CallRequestTime sampleLabels 250000000%Z;
    CallStoredReqCacheResult "hit" 3%Z; CallConnectionClose false ].

Lemma sampleCalls_inDomain : Forall (inDomain sampleDomains) sampleCalls.
Proof.
  assert (Hl : inDomains sampleDomains sampleLabels).
  { unfold inDomains, sampleDomains, sampleLabels. cbn.
    split_and!; apply (bool_decide_unpack _); by vm_compute. }
  assert (Ha : adapterInDomains sampleDomains sampleAdapterLabels).
  { unfold adapterInDomains, sampleDomains, sampleAdapterLabels. cbn.
    split_and!; apply (bool_decide_unpack _); by vm_compute. }
  unfold sampleCalls.
  repeat (apply Forall_cons; split); try apply Forall_nil; cbn [inDomain];
    try done; try (split; [done|]);
    cbn; apply (bool_decide_unpack _); by vm_compute.
Qed.

Lemma in_domain_recordings_create_no_series_witness :
  ∃ m, NewMetrics sampleDomains samplePrometheus = Some m
       ∧ ∀ f, series (state_of (calls sampleCalls m)) f
              = list_to_set (precreated sampleDomains f).
Proof.
  destruct NewMetrics_sample_returns as [m Hm]. exists m. split; [exact Hm|].
  exact (proj1 (in_domain_recordings_create_no_series sampleDomains samplePrometheus m
                  sampleCalls Hm sampleCalls_inDomain)).
Defined.

(** ** NewMetrics returns on non-empty label domains *)

(** Every label domain has a value. *)
Definition populated (D : pbsmetrics.Domains) : Prop :=
  pbsmetrics.DemandTypes D ≠ [] ∧ pbsmetrics.RequestTypes D ≠ []
  ∧ pbsmetrics.BrowserTypes D ≠ [] ∧ pbsmetrics.CookieTypes D ≠ []
  ∧ pbsmetrics.RequestStatuses D ≠ [] ∧ pbsmetrics.AdapterBids D ≠ []
  ∧ pbsmetrics.AdapterErrors D ≠ [] ∧ pbsmetrics.CacheResults D ≠ []
  ∧ pbsmetrics.BidderList D ≠ [] ∧ pbsmetrics.BidTypes D ≠ [].

(** A loop whose body cannot panic under an invariant does not panic. *)
Lemma range_over_total {S A : Type} (P : S → Prop) (Q : A → Prop)
    (body : S → A → option S) (xs : list A) (s : S) :
  (∀ s x, P s → Q x → ∃ s', body s x = Some s' ∧ P s') →
  P s → Forall Q xs → ∃ s', range_over body xs s = Some s' ∧ P s'.
Proof.
  intros Hbody. revert s. induction xs as [|x xs IH]; intros s Hs Hxs; simpl.
  - by exists s.
  - apply Forall_cons in Hxs as [Hx Hxs].
    destruct (Hbody s x Hs Hx) as (s1 & -> & Hs1). by apply IH.
Qed.

(** An assignment whose keys are the label names passes the check of
    [With]. *)
Lemma validLabels_dom (names : list string) (l : prometheus.Labels) :
  NoDup names → dom l = list_to_set names → prometheus.validLabels names l = true.
Proof.
  intros Hnd Hdom. unfold prometheus.validLabels. apply andb_true_intro. split.
  - apply bool_decide_eq_true_2.
    by rewrite <-size_dom, Hdom, size_list_to_set.
  - apply forallb_forall. intros n Hn%list_elem_of_In.
    apply bool_decide_eq_true_2. apply elem_of_dom. rewrite Hdom.
    by apply elem_of_list_to_set.
Qed.

Lemma enumerate_valid (names : list string) (dims : list Dimension) :
  dims ≠ [] → Forall (λ d, d.2 ≠ []) dims → NoDup dims.*1 → NoDup names →
  list_to_set names =@{gset string} list_to_set dims.*1 →
  Forall (λ l, prometheus.validLabels names l = true) (enumerate dims).
Proof.
  intros Hne Hvals Hnd Hnames Hset. apply Forall_forall. intros l Hl.
  apply validLabels_dom; [done|]. rewrite Hset. by eapply dom_enumerate.
Qed.

Lemma touchC_total (cfg : config.PrometheusMetrics) (names : list string)
    (fs : list Family) (get : Metrics → prometheus.CounterVec)
    (set : Metrics → prometheus.CounterVec → Metrics) :
  (∀ m, declares cfg m → prometheus.cv_labelNames (get m) = names) →
  touches fs (touchC get set) →
  ∀ m l, declares cfg m → prometheus.validLabels names l = true →
    ∃ m', touchC get set m l = Some m' ∧ declares cfg m'.
Proof.
  intros Hnames Htouch m l Hm Hl.
  assert (Hsome : is_Some (touchC get set m l)).
  { unfold touchC, prometheus.CounterVec_With. rewrite (Hnames m Hm), Hl.
    destruct (prometheus.cv_series (get m) !! l); by eexists. }
  destruct Hsome as [m' Hm']. exists m'. split; [exact Hm'|].
  destruct (Htouch _ _ _ Hm') as [Hstatic _].
  unfold declares. apply pair_equal_spec in Hstatic as [_ ->]. exact Hm.
Qed.

Lemma touchH_total (cfg : config.PrometheusMetrics) (names : list string)
    (fs : list Family) (get : Metrics → prometheus.HistogramVec)
    (set : Metrics → prometheus.HistogramVec → Metrics) :
  (∀ m, declares cfg m → prometheus.hv_labelNames (get m) = names) →
  touches fs (touchH get set) →
  ∀ m l, declares cfg m → prometheus.validLabels names l = true →
    ∃ m', touchH get set m l = Some m' ∧ declares cfg m'.
Proof.
  intros Hnames Htouch m l Hm Hl.
  assert (Hsome : is_Some (touchH get set m l)).
  { unfold touchH, prometheus.HistogramVec_With. rewrite (Hnames m Hm), Hl.
    destruct (prometheus.hv_series (get m) !! l); by eexists. }
  destruct Hsome as [m' Hm']. exists m'. split; [exact Hm'|].
  destruct (Htouch _ _ _ Hm') as [Hstatic _].
  unfold declares. apply pair_equal_spec in Hstatic as [_ ->]. exact Hm.
Qed.

(** Two statements in a loop body, the second on the state the first
    left. *)
Lemma seq_total (P : Metrics → Prop) (Q : prometheus.Labels → Prop)
    (body1 body2 : Metrics → prometheus.Labels → option Metrics) :
  (∀ m l, P m → Q l → ∃ m', body1 m l = Some m' ∧ P m') →
  (∀ m l, P m → Q l → ∃ m', body2 m l = Some m' ∧ P m') →
  ∀ m l, P m → Q l → ∃ m', (m1 ← body1 m l; body2 m1 l) = Some m' ∧ P m'.
Proof.
  intros H1 H2 m l Hm Hl. destruct (H1 m l Hm Hl) as (m1 & -> & Hm1).
  by apply H2.
Qed.

Lemma initializeTimeSeries_total (D : pbsmetrics.Domains) (cfg : config.PrometheusMetrics)
    (m : Metrics) :
  populated D → declares cfg m → is_Some (initializeTimeSeries D m).
Proof.
  intros (Hd1 & Hd2 & Hd3 & Hd4 & Hd5 & Hd6 & Hd7 & Hd8 & Hd9 & Hd10) Hm.
  assert (Hfmap : ∀ l : list string, l ≠ [] → string_of <$> l ≠ [])
    by (intros l Hl; by rewrite asString_id).
  set (P := declares cfg).
  set (Q := λ (names : list string) (l : prometheus.Labels),
             prometheus.validLabels names l = true).
  (* the enumerations carry the label names of their families *)
  assert (Hvalid : ∀ names dims,
    dims ≠ [] → Forall (λ d : Dimension, d.2 ≠ []) dims →
    bool_decide (NoDup dims.*1) = true → bool_decide (NoDup names) = true →
    bool_decide (list_to_set names =@{gset string} list_to_set dims.*1) = true →
    Forall (Q names) (enumerate dims)).
  { intros names dims ? ? ?%bool_decide_eq_true_1 ?%bool_decide_eq_true_1
      ?%bool_decide_eq_true_1. by apply enumerate_valid. }
  assert (Hfull : ∀ dims : list Dimension,
    Forall (λ d : Dimension, d.2 ≠ []) (sharedDims D) ∧
    (Forall (λ d : Dimension, d.2 ≠ []) dims →
     Forall (λ d : Dimension, d.2 ≠ []) (sharedDims D ++ dims))).
  { intros dims.
    assert (Forall (λ d : Dimension, d.2 ≠ []) (sharedDims D))
      by (repeat constructor; cbn; by apply Hfmap).
    split; [done|]. intros ?. by apply Forall_app. }
  (* each touch goes through under the declared label names *)
  pose proof (touchC_total cfg ["ErrorType"] _ _ _
    (λ m Hm, proj1 (declares_labelNames cfg m Hm)) touches_connError) as TconnError.
  pose proof (touchC_total cfg [bannerLabel; videoLabel; audioLabel; nativeLabel] _ _ _
    (λ m Hm, proj1 (proj2 (declares_labelNames cfg m Hm))) touches_imps) as Timps.
  pose proof (touchC_total cfg standardLabelNames [requestsF] requests set_requests
    (λ m Hm, ltac:(apply (declares_labelNames cfg m Hm))) touches_requests) as Trequests.
  pose proof (touchH_total cfg standardLabelNames [reqTimerF] reqTimer set_reqTimer
    (λ m Hm, ltac:(apply (declares_labelNames cfg m Hm))) touches_reqTimer) as TreqTimer.
  pose proof (touchC_total cfg adapterLabelNames [adaptRequestsF] adaptRequests set_adaptRequests
    (λ m Hm, ltac:(apply (declares_labelNames cfg m Hm))) touches_adaptRequests) as TadaptRequests.
  pose proof (touchH_total cfg adapterLabelNames [adaptTimerF] adaptTimer set_adaptTimer
    (λ m Hm, ltac:(apply (declares_labelNames cfg m Hm))) touches_adaptTimer) as TadaptTimer.
  pose proof (touchH_total cfg adapterLabelNames [adaptPricesF] adaptPrices set_adaptPrices
    (λ m Hm, ltac:(apply (declares_labelNames cfg m Hm))) touches_adaptPrices) as TadaptPrices.
  pose proof (touchC_total cfg adapterLabelNames [adaptPanicsF] adaptPanics set_adaptPanics
    (λ m Hm, ltac:(apply (declares_labelNames cfg m Hm))) touches_adaptPanics) as TadaptPanics.
  pose proof (touchC_total cfg bidLabelNames [adaptBidsF] adaptBids set_adaptBids
    (λ m Hm, ltac:(apply (declares_labelNames cfg m Hm))) touches_adaptBids) as TadaptBids.
  pose proof (touchC_total cfg errorLabelNames [adaptErrorsF] adaptErrors set_adaptErrors
    (λ m Hm, ltac:(apply (declares_labelNames cfg m Hm))) touches_adaptErrors) as TadaptErrors.
  pose proof (touchC_total cfg [adapterLabel; gdprBlockedLabel] [adaptCookieSyncF] adaptCookieSync set_adaptCookieSync
    (λ m Hm, ltac:(apply (declares_labelNames cfg m Hm))) touches_adaptCookieSync) as TadaptCookieSync.
  pose proof (touchC_total cfg ["cache_result"] [storedImpCacheResultF] storedImpCacheResult set_storedImpCacheResult
    (λ m Hm, ltac:(apply (declares_labelNames cfg m Hm))) touches_storedImpCacheResult) as TstoredImp.
  pose proof (touchC_total cfg ["cache_result"] [storedReqCacheResultF] storedReqCacheResult set_storedReqCacheResult
    (λ m Hm, ltac:(apply (declares_labelNames cfg m Hm))) touches_storedReqCacheResult) as TstoredReq.
  unfold initializeTimeSeries.
  edestruct (range_over_total P (Q ["ErrorType"]) (touchC connError set_connError))
    as (m1 & -> & Hm1);
    [ exact TconnError | exact Hm
    | apply (Hvalid _ [ ("ErrorType", ["accept_error"; "close_error"]) ]);
      [done|repeat constructor; done|by vm_compute..]
    | ].
  cbn [mbind option_bind].
  edestruct (range_over_total P (Q standardLabelNames)) as (m2 & -> & Hm2);
    [ exact (seq_total P _ _ _ Trequests TreqTimer) | exact Hm1
    | apply (Hvalid _ (sharedDims D ++ [ (responseStatusLabel, requestStatusesAsString D) ]));
      [ done | apply Hfull; repeat constructor; cbn; by apply Hfmap | by vm_compute.. ]
    | ].
  cbn [mbind option_bind].
  edestruct (range_over_total P (Q adapterLabelNames)) as (m3 & -> & Hm3);
    [ exact (seq_total P _ _ _ TadaptRequests
               (seq_total P _ _ _ TadaptTimer (seq_total P _ _ _ TadaptPrices TadaptPanics)))
    | exact Hm2
    | apply (Hvalid _ (sharedDims D ++ [ (adapterLabel, adaptersAsString D);
                                          (adapterBidLabel, adapterBidsAsString D) ]));
      [ done | apply Hfull; repeat constructor; cbn; by apply Hfmap | by vm_compute.. ]
    | ].
  cbn [mbind option_bind].
  edestruct (range_over_total P (Q bidLabelNames)) as (m4 & -> & Hm4);
    [ exact TadaptBids | exact Hm3
    | apply (Hvalid _ (sharedDims D ++ [ (adapterLabel, adaptersAsString D);
                                          (adapterBidLabel, adapterBidsAsString D);
                                          (bidTypeLabel, bidTypesAsString D);
                                          (markupTypeLabel, ["unknown"; "adm"]) ]));
      [ done | apply Hfull; repeat constructor; cbn; first [done|by apply Hfmap]
      | by vm_compute.. ]
    | ].
  cbn [mbind option_bind].
  edestruct (range_over_total P (Q errorLabelNames)) as (m5 & -> & Hm5);
    [ exact TadaptErrors | exact Hm4
    | apply (Hvalid _ (sharedDims D ++ [ (adapterLabel, adaptersAsString D);
                                          (adapterErrLabel, adapterErrorsAsString D) ]));
      [ done | apply Hfull; repeat constructor; cbn; by apply Hfmap | by vm_compute.. ]
    | ].
  cbn [mbind option_bind].
  edestruct (range_over_total P (Q [adapterLabel; gdprBlockedLabel])) as (m6 & -> & Hm6);
    [ exact TadaptCookieSync | exact Hm5
    | apply (Hvalid _ [ (adapterLabel, adaptersAsString D);
                        (gdprBlockedLabel, ["true"; "false"]) ]);
      [ done | repeat constructor; cbn; first [done|by apply Hfmap] | by vm_compute.. ]
    | ].
  cbn [mbind option_bind].
  edestruct (range_over_total P (Q ["cache_result"])) as (m7 & -> & Hm7);
    [ exact (seq_total P _ _ _ TstoredImp TstoredReq) | exact Hm6
    | apply (Hvalid _ [ ("cache_result", cacheResultAsString D) ]);
      [ done | repeat constructor; cbn; by apply Hfmap | by vm_compute.. ]
    | ].
  cbn [mbind option_bind].
  edestruct (range_over_total P (Q [bannerLabel; videoLabel; audioLabel; nativeLabel]))
    as (m8 & -> & Hm8);
    [ exact Timps | exact Hm7
    | apply (Hvalid _ impDims); [ done | repeat constructor; done | by vm_compute.. ]
    | ].
  by eexists.
Qed.

(** X3. With a value in every label domain, NewMetrics returns exactly when
    the prefix that the namespace and the subsystem of the configuration
    put in front of the names is made of bytes a metric name can have:
    letters, underscores and colons, and digits after the first byte (the
    empty prefix of an empty namespace and subsystem is one). Under such a
    prefix the seventeen descriptors are valid and their names differ, so no
    registration panics, and every assignment initializeTimeSeries
    enumerates has the label names of the families it is created on, so no
    [With] panics. Under any other prefix the first MustRegister panics,
    whatever the domains are. (Metric names are checked as
    model.IsValidMetricName does; the values of the domains are taken to be
    valid UTF-8, which [With] checks too.) *)
Theorem NewMetrics_returns_on_populated_domains (D : pbsmetrics.Domains)
    (cfg : config.PrometheusMetrics) :
  populated D →
  (is_Some (NewMetrics D cfg) ↔ validPrefix cfg = true)
  ∧ (validPrefix cfg = false → ∀ D', NewMetrics D' cfg = None).
Proof.
  intros HD. split; [split|].
  - apply NewMetrics_validPrefix.
  - intros Hvalid. destruct (NewMetrics_declares cfg D Hvalid) as (m0 & -> & _ & Hcat & _).
    by apply (initializeTimeSeries_total D cfg).
  - intros Hinvalid D'. by apply NewMetrics_invalid.
Qed.

Lemma NewMetrics_returns_on_populated_domains_witness :
  is_Some (NewMetrics sampleDomains {| config.Port := 0; config.Namespace := "";
                                       config.Subsystem := "" |})
  ∧ NewMetrics sampleDomains {| config.Port := 9090; config.Namespace := "prebid-server";
                                config.Subsystem := "" |} = None.
Proof.
  split.
  - apply (proj1 (NewMetrics_returns_on_populated_domains sampleDomains _
                    ltac:(by repeat split))). reflexivity.
  - apply (proj2 (NewMetrics_returns_on_populated_domains sampleDomains _
                    ltac:(by repeat split))). reflexivity.
Defined.

(** ** A dimension without values *)

Lemma expand_no_values (S : list prometheus.Labels) (field : string) :
  expand S (field, []) = [].
Proof.
  unfold expand. cbn [snd fmap list_fmap].
  induction S as [|s S IH]; [done|]. rewrite bind_cons, IH. done.
Qed.

Lemma addDimension_no_values (labels : list prometheus.Labels) (field : string) :
  addDimension labels field [] = [].
Proof. rewrite addDimension_expand. apply expand_no_values. Qed.

(** X4. A dimension with no values does not make the enumeration empty for
    good: [addDimension] returns the empty slice for it, and the next
    [addDimension] takes the empty slice for a new start. So the dimensions
    up to and including the empty one are forgotten: the enumeration is
    that of the dimensions after it, whose assignments lack the earlier
    label names. (The product of the specification is empty as soon as one
    domain is.) *)
Theorem empty_domain_restarts_enumeration (pre post : list Dimension) (field : string) :
  addDimension (enumerate pre) field [] = []
  ∧ enumerate (pre ++ (field, []) :: post) = enumerate post
  ∧ cartesian (pre ++ (field, []) :: post) = [].
Proof.
  split_and!.
  - apply addDimension_no_values.
  - unfold enumerate. rewrite foldl_app. cbn [foldl fst snd].
    by rewrite addDimension_no_values.
  - unfold cartesian. rewrite foldl_app. cbn [foldl].
    rewrite expand_no_values. induction post as [|d post IH]; [done|].
    cbn [foldl]. by rewrite expand_nil.
Qed.

(** X5. With no bidder and at least one adapter bid status, NewMetrics panics:
    the adapter dimension has no values, so the enumeration for the adapter
    families restarts at the adapter_bid dimension, and the first [With] on
    adapter_requests_total gets an assignment with the one label
    adapter_bid where the family has six label names. (Under a prefix
    that is no start of a metric name the panic comes earlier, at the first
    MustRegister.) *)
Theorem NewMetrics_panics_without_bidders (D : pbsmetrics.Domains)
    (cfg : config.PrometheusMetrics) :
  pbsmetrics.BidderList D = [] → pbsmetrics.AdapterBids D ≠ [] →
  NewMetrics D cfg = None.
Proof.
  intros Hbidders Hbids.
  destruct (validPrefix cfg) eqn:Hvalid; [|by apply NewMetrics_invalid].
  destruct (NewMetrics_declares cfg D Hvalid) as (m0 & -> & _ & Hcat & _).
  unfold initializeTimeSeries.
  destruct (range_over _ _ m0) as [m1|] eqn:Hloop1; [|done].
  cbn [mbind option_bind].
  apply (touches_range _ _ _ _ _ touches_connError) in Hloop1 as [Hs1 _].
  destruct (range_over _ _ m1) as [m2|] eqn:Hloop2; [|done].
  cbn [mbind option_bind].
  apply (touches_range _ _ _ _ _
           (touches_seq _ _ _ _ touches_requests touches_reqTimer)) in Hloop2 as [Hs2 _].
  assert (Hm2 : declares cfg m2).
  { unfold declares. apply pair_equal_spec in Hs1 as [_ Hc1].
    apply pair_equal_spec in Hs2 as [_ Hc2]. by rewrite Hc2, Hc1. }
  destruct (declares_labelNames cfg m2 Hm2) as (_ & _ & _ & _ & _ & Hnames & _).
  unfold adaptersAsString, adapterBidsAsString. rewrite Hbidders, !asString_id.
  cbn [fmap list_fmap]. rewrite !addDimension_no_values.
  destruct (pbsmetrics.AdapterBids D) as [|b bs]; [done|].
  rewrite (addDimension_expand [] adapterBidLabel (b :: bs)). unfold expand.
  cbn [mbind list_bind fmap list_fmap snd fst app range_over].
  match goal with
  | |- context [ touchC adaptRequests set_adaptRequests m2 ?l ] =>
      assert (Hfirst : touchC adaptRequests set_adaptRequests m2 l = None)
  end.
  { unfold touchC, prometheus.CounterVec_With. rewrite Hnames.
    match goal with
    | |- context [ prometheus.validLabels ?ns ?l ] =>
        assert (Hinvalid : prometheus.validLabels ns l = false) by (by vm_compute)
    end.
    by rewrite Hinvalid. }
  by rewrite Hfirst.
Qed.

(** The sample domains without a bidder. *)
Definition noBidders : pbsmetrics.Domains := {|
  pbsmetrics.DemandTypes := ["web"; "app"];
  pbsmetrics.RequestTypes := ["legacy"; "amp"];
  pbsmetrics.BrowserTypes := ["safari"; "other"];
  pbsmetrics.CookieTypes := ["exists"; "no"];
  pbsmetrics.RequestStatuses := ["ok"; "err"];
  pbsmetrics.AdapterBids := ["bid"; "nobid"];
  pbsmetrics.AdapterErrors := ["badinput"; "timeout"];
  pbsmetrics.CacheResults := ["hit"; "miss"];
  pbsmetrics.BidderList := [];
  pbsmetrics.BidTypes := ["banner"; "video"];
|}.

Lemma NewMetrics_panics_without_bidders_witness :
  NewMetrics noBidders samplePrometheus = None.
Proof.
  apply (NewMetrics_panics_without_bidders noBidders samplePrometheus); done.
Defined.

(** ** Counters *)

(** The counter vector of a family; the three histogram families have
    none. *)
Definition counterOf (m : Metrics) (f : Family) : option prometheus.CounterVec :=
  match f with
  | connErrorF => Some (connError m)
  | impsF => Some (imps m)
  | legacyImpsF => Some (legacyImps m)
  | requestsF => Some (requests m)
  | adaptRequestsF => Some (adaptRequests m)
  | adaptBidsF => Some (adaptBids m)
  | adaptErrorsF => Some (adaptErrors m)
  | adaptPanicsF => Some (adaptPanics m)
  | adaptCookieSyncF => Some (adaptCookieSync m)
  | userIDF => Some (userID m)
  | storedReqCacheResultF => Some (storedReqCacheResult m)
  | storedImpCacheResultF => Some (storedImpCacheResult m)
  | reqTimerF | adaptTimerF | adaptPricesF => None
  end.

Definition histogramOf (m : Metrics) (f : Family) : option prometheus.HistogramVec :=
  match f with
  | reqTimerF => Some (reqTimer m)
  | adaptTimerF => Some (adaptTimer m)
  | adaptPricesF => Some (adaptPrices m)
  | _ => None
  end.

(** What the series [l] of the counter family [f] reads: zero when the
    series does not exist. *)
Definition value (m : Metrics) (f : Family) (l : prometheus.Labels) : Z :=
  match counterOf m f with
  | Some v => default 0%Z (prometheus.cv_series v !! l)
  | None => 0%Z
  end.

(** The observations of the series [l] of the histogram family [f], newest
    first. *)
Definition observations (m : Metrics) (f : Family) (l : prometheus.Labels) : list float :=
  match histogramOf m f with
  | Some v => default [] (prometheus.hv_series v !! l)
  | None => []
  end.

(** Nothing has been counted or observed. *)
Definition pristine (m : Metrics) : Prop :=
  (∀ f l, value m f l = 0%Z) ∧ (∀ f l, observations m f l = [])
  ∧ prometheus.c_value (cookieSync m) = 0%Z
  ∧ prometheus.g_value (connCounter m) = 0%Z.

Lemma touchC_value (get : Metrics → prometheus.CounterVec)
    (set : Metrics → prometheus.CounterVec → Metrics) (m m' : Metrics)
    (l : prometheus.Labels) :
  touchC get set m l = Some m' →
  ∃ v', m' = set m v'
        ∧ ∀ l', default 0%Z (prometheus.cv_series v' !! l')
                = default 0%Z (prometheus.cv_series (get m) !! l').
Proof.
  unfold touchC, prometheus.CounterVec_With. intros Hrun.
  destruct (prometheus.validLabels _ l); [|done].
  destruct (prometheus.cv_series (get m) !! l) as [x|] eqn:Hl; simplify_eq/=.
  - by eexists.
  - eexists. split; [done|]. intros l'. simpl.
    destruct (decide (l' = l)) as [->|Hne].
    + by rewrite lookup_insert_eq, Hl.
    + by rewrite lookup_insert_ne.
Qed.

Lemma touchH_observations (get : Metrics → prometheus.HistogramVec)
    (set : Metrics → prometheus.HistogramVec → Metrics) (m m' : Metrics)
    (l : prometheus.Labels) :
  touchH get set m l = Some m' →
  ∃ v', m' = set m v'
        ∧ ∀ l', default [] (prometheus.hv_series v' !! l')
                = default [] (prometheus.hv_series (get m) !! l').
Proof.
  unfold touchH, prometheus.HistogramVec_With. intros Hrun.
  destruct (prometheus.validLabels _ l); [|done].
  destruct (prometheus.hv_series (get m) !! l) as [x|] eqn:Hl; simplify_eq/=.
  - by eexists.
  - eexists. split; [done|]. intros l'. simpl.
    destruct (decide (l' = l)) as [->|Hne].
    + by rewrite lookup_insert_eq, Hl.
    + by rewrite lookup_insert_ne.
Qed.

(** What a series reads, and the two scalars. *)
Definition readings (m : Metrics)
  : (Family → prometheus.Labels → Z) * (Family → prometheus.Labels → list float) * Z * Z :=
  (value m, observations m, prometheus.c_value (cookieSync m),
   prometheus.g_value (connCounter m)).

(** The loop body changes no reading: [With] creates a series at zero. *)
Definition silent (body : Metrics → prometheus.Labels → option Metrics) : Prop :=
  ∀ m l m', body m l = Some m' →
    (∀ f l', value m' f l' = value m f l')
    ∧ (∀ f l', observations m' f l' = observations m f l')
    ∧ prometheus.c_value (cookieSync m') = prometheus.c_value (cookieSync m)
    ∧ prometheus.g_value (connCounter m') = prometheus.g_value (connCounter m).

Ltac solve_silentC :=
  let m := fresh "m" in let l := fresh "l" in let m' := fresh "m'" in
  let Hrun := fresh "Hrun" in let v' := fresh "v'" in let Hv := fresh "Hv" in
  intros m l m' Hrun;
  apply touchC_value in Hrun as (v' & -> & Hv);
  split_and!; try reflexivity;
  (let f := fresh "f" in let l' := fresh "l'" in
   intros f l'; destruct f; unfold value, observations; cbn; try reflexivity; apply Hv).

Ltac solve_silentH :=
  let m := fresh "m" in let l := fresh "l" in let m' := fresh "m'" in
  let Hrun := fresh "Hrun" in let v' := fresh "v'" in let Hv := fresh "Hv" in
  intros m l m' Hrun;
  apply touchH_observations in Hrun as (v' & -> & Hv);
  split_and!; try reflexivity;
  (let f := fresh "f" in let l' := fresh "l'" in
   intros f l'; destruct f; unfold value, observations; cbn; try reflexivity; apply Hv).

Lemma silent_seq (body1 body2 : Metrics → prometheus.Labels → option Metrics) :
  silent body1 → silent body2 → silent (λ m l, m1 ← body1 m l; body2 m1 l).
Proof.
  intros H1 H2 m l m' Hrun.
  destruct (body1 m l) as [m1|] eqn:Hb1; [|done]. simpl in Hrun.
  destruct (H1 _ _ _ Hb1) as (Ha1 & Hb1' & Hc1 & Hd1).
  destruct (H2 _ _ _ Hrun) as (Ha2 & Hb2 & Hc2 & Hd2).
  split_and!; intros; congruence.
Qed.

Lemma silent_range (body : Metrics → prometheus.Labels → option Metrics)
    (ls : list prometheus.Labels) (m m' : Metrics) :
  silent body → range_over body ls m = Some m' →
  (∀ f l', value m' f l' = value m f l')
  ∧ (∀ f l', observations m' f l' = observations m f l')
  ∧ prometheus.c_value (cookieSync m') = prometheus.c_value (cookieSync m)
  ∧ prometheus.g_value (connCounter m') = prometheus.g_value (connCounter m).
Proof.
  intros Hbody. revert m. induction ls as [|l ls IH]; intros m Hrun; simpl in Hrun.
  - by simplify_eq.
  - destruct (body m l) as [m1|] eqn:Hb; [|done].
    destruct (Hbody _ _ _ Hb) as (Ha1 & Hb1 & Hc1 & Hd1).
    destruct (IH _ Hrun) as (Ha2 & Hb2 & Hc2 & Hd2).
    split_and!; intros; congruence.
Qed.

Lemma initializeTimeSeries_silent (D : pbsmetrics.Domains) (m m' : Metrics) :
  initializeTimeSeries D m = Some m' → pristine m → pristine m'.
Proof.
  unfold initializeTimeSeries. intros Hrun Hm.
  assert (SconnError : silent (touchC connError set_connError)) by solve_silentC.
  assert (Simps : silent (touchC imps set_imps)) by solve_silentC.
  assert (Srequests : silent (touchC requests set_requests)) by solve_silentC.
  assert (SreqTimer : silent (touchH reqTimer set_reqTimer)) by solve_silentH.
  assert (SadaptRequests : silent (touchC adaptRequests set_adaptRequests))
    by solve_silentC.
  assert (SadaptTimer : silent (touchH adaptTimer set_adaptTimer)) by solve_silentH.
  assert (SadaptPrices : silent (touchH adaptPrices set_adaptPrices)) by solve_silentH.
  assert (SadaptPanics : silent (touchC adaptPanics set_adaptPanics)) by solve_silentC.
  assert (SadaptBids : silent (touchC adaptBids set_adaptBids)) by solve_silentC.
  assert (SadaptErrors : silent (touchC adaptErrors set_adaptErrors)) by solve_silentC.
  assert (SadaptCookieSync : silent (touchC adaptCookieSync set_adaptCookieSync))
    by solve_silentC.
  assert (SstoredImp : silent (touchC storedImpCacheResult set_storedImpCacheResult))
    by solve_silentC.
  assert (SstoredReq : silent (touchC storedReqCacheResult set_storedReqCacheResult))
    by solve_silentC.
  repeat match type of Hrun with
  | (range_over ?body ?ls ?m0 ≫= _) = Some _ =>
      let m1 := fresh "m" in let Hloop := fresh "Hloop" in
      destruct (range_over body ls m0) as [m1|] eqn:Hloop; [|done];
      cbn [mbind option_bind] in Hrun
  end.
  apply (silent_range _ _ _ _ SconnError) in Hloop as (Ha1 & Hb1 & Hc1 & Hd1).
  apply (silent_range _ _ _ _ (silent_seq _ _ Srequests SreqTimer))
    in Hloop0 as (Ha2 & Hb2 & Hc2 & Hd2).
  apply (silent_range _ _ _ _
           (silent_seq _ _ SadaptRequests
              (silent_seq _ _ SadaptTimer (silent_seq _ _ SadaptPrices SadaptPanics))))
    in Hloop1 as (Ha3 & Hb3 & Hc3 & Hd3).
  apply (silent_range _ _ _ _ SadaptBids) in Hloop2 as (Ha4 & Hb4 & Hc4 & Hd4).
  apply (silent_range _ _ _ _ SadaptErrors) in Hloop3 as (Ha5 & Hb5 & Hc5 & Hd5).
  apply (silent_range _ _ _ _ SadaptCookieSync) in Hloop4 as (Ha6 & Hb6 & Hc6 & Hd6).
  apply (silent_range _ _ _ _ (silent_seq _ _ SstoredImp SstoredReq))
    in Hloop5 as (Ha7 & Hb7 & Hc7 & Hd7).
  apply (silent_range _ _ _ _ Simps) in Hrun as (Ha8 & Hb8 & Hc8 & Hd8).
  destruct Hm as (Ha & Hb & Hc & Hd).
  split_and!.
  - intros f l. by rewrite Ha8, Ha7, Ha6, Ha5, Ha4, Ha3, Ha2, Ha1.
  - intros f l. by rewrite Hb8, Hb7, Hb6, Hb5, Hb4, Hb3, Hb2, Hb1.
  - congruence.
  - congruence.
Qed.

Lemma NewMetrics_pristine (D : pbsmetrics.Domains) (cfg : config.PrometheusMetrics)
    (m : Metrics) :
  NewMetrics D cfg = Some m → pristine m.
Proof.
  intros Hnew.
  destruct (NewMetrics_declares cfg D (NewMetrics_validPrefix cfg D (mk_is_Some _ _ Hnew)))
    as (m0 & Heq & _ & _ & Hser & Hc & Hg).
  rewrite Heq in Hnew. apply (initializeTimeSeries_silent D m0 m Hnew).
  split_and!; [| |exact Hc|exact Hg].
  - intros f l. unfold value. pose proof (Hser f) as Hf.
    destruct f; cbn [counterOf series] in *; try reflexivity;
      rewrite (proj1 (not_elem_of_dom _ l));
      lazymatch goal with
      | |- _ ∉ _ => rewrite Hf; apply not_elem_of_empty
      | |- _ => reflexivity
      end.
  - intros f l. unfold observations. pose proof (Hser f) as Hf.
    destruct f; cbn [histogramOf series] in *; try reflexivity;
      rewrite (proj1 (not_elem_of_dom _ l));
      lazymatch goal with
      | |- _ ∉ _ => rewrite Hf; apply not_elem_of_empty
      | |- _ => reflexivity
      end.
Qed.

(** *** What the calls add *)

(** The assignments the three methods without a resolve function build. *)
Definition connErrorLabels (errorType : string) : prometheus.Labels :=
  list_to_map (zip ["ErrorType"] [errorType]).

Definition cookieSyncLabels (adapter : pbsmetrics.BidderName) (gdprBlocked : bool)
  : prometheus.Labels :=
  if gdprBlocked
  then <[gdprBlockedLabel := "true"]> (list_to_map [ (adapterLabel, string_of adapter) ])
  else <[gdprBlockedLabel := "false"]> (list_to_map [ (adapterLabel, string_of adapter) ]).

Definition cacheLabels (cacheResult : pbsmetrics.CacheResult) : prometheus.Labels :=
  list_to_map [ (cacheResultLabel, string_of cacheResult) ].

(** The additions a call makes to counter series, read off the sixteen
    methods: the family, the assignment and the amount of each [Inc] or
    [Add]. *)
Definition additions (c : Call) : list (Family * prometheus.Labels * Z) :=
  match c with
  | CallConnectionAccept false => [ (connErrorF, connErrorLabels "accept_error", 1%Z) ]
  | CallConnectionClose false => [ (connErrorF, connErrorLabels "close_error", 1%Z) ]
  | CallRequest labels => [ (requestsF, resolveLabels labels, 1%Z) ]
  | CallImps implabels => [ (impsF, resolveImpLabels implabels, 1%Z) ]
  | CallLegacyImps labels numImps => [ (legacyImpsF, resolveLabels labels, numImps) ]
  | CallAdapterPanic labels => [ (adaptPanicsF, resolveAdapterLabels labels, 1%Z) ]
  | CallAdapterRequest labels =>
      (adaptRequestsF, resolveAdapterLabels labels, 1%Z)
      :: ((λ k, (adaptErrorsF, resolveAdapterErrorLabels labels (string_of k), 1%Z))
          <$> elements (pbsmetrics.al_AdapterErrors labels))
  | CallAdapterBidReceived labels bidType hasAdm =>
      [ (adaptBidsF, resolveBidLabels labels bidType hasAdm, 1%Z) ]
  | CallAdapterCookieSync adapter gdprBlocked =>
      [ (adaptCookieSyncF, cookieSyncLabels adapter gdprBlocked, 1%Z) ]
  | CallStoredReqCacheResult cacheResult inc =>
      [ (storedReqCacheResultF, cacheLabels cacheResult, inc) ]
  | CallStoredImpCacheResult cacheResult inc =>
      [ (storedImpCacheResultF, cacheLabels cacheResult, inc) ]
  | CallUserIDSet userLabels => [ (userIDF, resolveUserSyncLabels userLabels, 1%Z) ]
  | _ => []
  end.

(** The sum of the amounts added to the series [l] of the family [f]. *)
Definition sumOf (adds : list (Family * prometheus.Labels * Z)) (f : Family)
    (l : prometheus.Labels) : Z :=
  foldr (λ a acc, if decide (a.1.1 = f ∧ a.1.2 = l) then (a.2 + acc)%Z else acc) 0%Z adds.

Lemma sumOf_app adds1 adds2 f l :
  sumOf (adds1 ++ adds2) f l = (sumOf adds1 f l + sumOf adds2 f l)%Z.
Proof.
  unfold sumOf. induction adds1 as [|a adds1 IH]; simpl; [done|].
  rewrite IH. case_decide; lia.
Qed.

(** An amount that [float64(n)] represents exactly and [Counter.Add]
    accepts. *)
Definition representable (c : Call) : Prop :=
  match amount c with Some x => (0 ≤ x ≤ 2 ^ 53)%Z | None => True end.

Lemma representable_nonnegative (c : Call) : representable c → nonnegative c.
Proof. unfold representable, nonnegative. destruct (amount c); [lia|done]. Qed.

(** The readings after one valid [With(l).Add(x)] on the counter family
    [f0]. *)
Ltac solve_value :=
  let f := fresh "f" in let l' := fresh "l'" in let Hd := fresh "Hd" in
  intros f l'; unfold value, sumOf; destruct f;
  cbn [counterOf foldr fst snd set_connError set_imps set_legacyImps set_requests
       set_adaptRequests set_adaptBids set_adaptErrors set_adaptPanics set_adaptCookieSync
       set_userID set_storedReqCacheResult set_storedImpCacheResult
       connError imps legacyImps requests adaptRequests adaptBids adaptErrors adaptPanics
       adaptCookieSync userID storedReqCacheResult storedImpCacheResult
       prometheus.cv_series];
  (case_decide as Hd;
   [ destruct Hd as [Hf Hl]; try discriminate Hf; subst;
     rewrite ?lookup_insert_eq; cbn [default]; unfold id; lia
   | rewrite ?lookup_insert_ne by (intros Heq; apply Hd; split; [reflexivity|exact Heq]);
     lia ]).

Lemma recordAdapterErrors_value (cfg : config.PrometheusMetrics) (m : Metrics)
    (labels : pbsmetrics.AdapterLabels) (k : pbsmetrics.AdapterError) :
  declares cfg m →
  ∀ f l, value (state_of (recordAdapterErrors labels k m)) f l
         = (value m f l
            + sumOf [ (adaptErrorsF, resolveAdapterErrorLabels labels (string_of k), 1%Z) ] f l)%Z.
Proof.
  intros Hm. destruct (declares_labelNames cfg m Hm)
    as (_ & _ & _ & _ & _ & _ & _ & _ & _ & _ & _ & _ & Hnames & _).
  unfold recordAdapterErrors.
  rewrite withAdd_valid by (rewrite Hnames; apply resolveAdapterErrorLabels_valid).
  cbn [map_result state_of Z.ltb Z.compare]. solve_value.
Qed.

Lemma adapterErrors_value (cfg : config.PrometheusMetrics) (m : Metrics)
    (labels : pbsmetrics.AdapterLabels) (ks : list pbsmetrics.AdapterError) :
  declares cfg m →
  ∀ f l,
    value (state_of (foldr (λ k (acc : result Metrics),
                        and_then acc (recordAdapterErrors labels k)) (Returned m) ks)) f l
    = (value m f l
       + sumOf ((λ k, (adaptErrorsF, resolveAdapterErrorLabels labels (string_of k), 1%Z))
                <$> ks) f l)%Z.
Proof.
  intros Hm. induction ks as [|k ks IH]; intros f l; cbn [foldr fmap list_fmap].
  - cbn. lia.
  - destruct (adapterErrors_fold cfg m labels ks Hm) as [Hret Hkeeps].
    cbn zeta in Hret, Hkeeps.
    destruct (foldr _ _ ks) as [m1|m1]; [|done]. cbn [and_then].
    pose proof (keeps_declares cfg m (Returned m1) Hkeeps Hm) as Hm1.
    rewrite (recordAdapterErrors_value cfg m1 labels k Hm1).
    cbn [state_of] in IH. rewrite IH.
    change (?a :: ?rest) with ([a] ++ rest) at 2. rewrite sumOf_app. lia.
Qed.

(** One call: every counter series reads what it read before plus what the
    call added to it. *)
Lemma call_value (cfg : config.PrometheusMetrics) (m : Metrics) (c : Call) :
  declares cfg m → nonnegative c →
  ∀ f l, value (state_of (call c m)) f l = (value m f l + sumOf (additions c) f l)%Z.
Proof.
  intros Hm Hc.
  destruct (declares_labelNames cfg m Hm)
    as (HconnError & Himps & HlegacyImps & Hrequests & HreqTimer & HadaptRequests
        & HadaptPanics & HadaptTimer & HadaptBids & HstoredReq & HstoredImp
        & HadaptPrices & HadaptErrors & HadaptCookieSync & HuserID).
  assert (Hconn : ∀ e : string,
    prometheus.validLabels ["ErrorType"] (connErrorLabels e) = true)
    by (intros e; by vm_compute).
  assert (Hcache : ∀ e : string,
    prometheus.validLabels ["cache_result"] (cacheLabels e) = true)
    by (intros e; by vm_compute).
  assert (Hcookie : ∀ (a : string) (b : bool),
    prometheus.validLabels [adapterLabel; gdprBlockedLabel] (cookieSyncLabels a b) = true)
    by (intros a []; by vm_compute).
  unfold nonnegative in Hc.
  destruct c; cbn [call amount additions] in *.
  - unfold RecordConnectionAccept. destruct success.
    + cbn [state_of]. intros f l. unfold value, sumOf. destruct f; cbn; lia.
    + rewrite withLabelValuesInc_withAdd by (by rewrite HconnError).
      rewrite HconnError. fold (connErrorLabels "accept_error").
      rewrite withAdd_valid by (rewrite HconnError; apply Hconn).
      cbn [map_result state_of Z.ltb Z.compare]. solve_value.
  - unfold RecordConnectionClose. destruct success.
    + cbn [state_of]. intros f l. unfold value, sumOf. destruct f; cbn; lia.
    + rewrite withLabelValuesInc_withAdd by (by rewrite HconnError).
      rewrite HconnError. fold (connErrorLabels "close_error").
      rewrite withAdd_valid by (rewrite HconnError; apply Hconn).
      cbn [map_result state_of Z.ltb Z.compare]. solve_value.
  - unfold RecordRequest.
    rewrite withAdd_valid by (rewrite Hrequests; apply resolveLabels_valid).
    cbn [map_result state_of Z.ltb Z.compare]. solve_value.
  - unfold RecordImps.
    rewrite withAdd_valid by (rewrite Himps; apply resolveImpLabels_valid).
    cbn [map_result state_of Z.ltb Z.compare]. solve_value.
  - unfold RecordLegacyImps. cbn zeta.
    rewrite withAdd_valid by (rewrite HlegacyImps; apply resolveLabels_valid).
    rewrite (proj2 (Z.ltb_ge numImps 0)) by done.
    cbn [map_result state_of]. solve_value.
  - unfold RecordRequestTime. cbn zeta.
    rewrite withObserve_valid by (rewrite HreqTimer; apply resolveLabels_valid).
    cbn [map_result state_of]. intros f l. unfold value, sumOf. destruct f; cbn; lia.
  - unfold RecordAdapterPanic.
    rewrite withAdd_valid by (rewrite HadaptPanics; apply resolveAdapterLabels_valid).
    cbn [map_result state_of Z.ltb Z.compare]. solve_value.
  - rewrite RecordAdapterRequest_fold.
    rewrite withAdd_valid by (rewrite HadaptRequests; apply resolveAdapterLabels_valid).
    cbn [Z.ltb Z.compare map_result and_then].
    match goal with |- context [ foldr _ (Returned ?m1) _ ] => set (m1' := m1) end.
    assert (Hm1 : declares cfg m1') by exact Hm.
    intros f l.
    rewrite (adapterErrors_value cfg m1' labels _ Hm1).
    change (?a :: ?rest) with ([a] ++ rest) at 1. rewrite sumOf_app.
    assert (Hfirst : ∀ f l, value m1' f l
              = (value m f l + sumOf [ (adaptRequestsF, resolveAdapterLabels labels, 1%Z) ] f l)%Z).
    { subst m1'. solve_value. }
    rewrite Hfirst. symmetry. apply Z.add_assoc.
  - unfold RecordAdapterBidReceived.
    rewrite withAdd_valid by (rewrite HadaptBids; apply resolveBidLabels_valid).
    cbn [map_result state_of Z.ltb Z.compare]. solve_value.
  - unfold RecordAdapterPrice.
    rewrite withObserve_valid by (rewrite HadaptPrices; apply resolveAdapterLabels_valid).
    cbn [map_result state_of]. intros f l. unfold value, sumOf. destruct f; cbn; lia.
  - unfold RecordAdapterTime. cbn zeta.
    rewrite withObserve_valid by (rewrite HadaptTimer; apply resolveAdapterLabels_valid).
    cbn [map_result state_of]. intros f l. unfold value, sumOf. destruct f; cbn; lia.
  - cbn [RecordCookieSync state_of]. intros f l. unfold value, sumOf. destruct f; cbn; lia.
  - unfold RecordAdapterCookieSync. cbn zeta. fold (cookieSyncLabels adapter gdprBlocked).
    rewrite withAdd_valid by (rewrite HadaptCookieSync; apply Hcookie).
    cbn [map_result state_of Z.ltb Z.compare]. solve_value.
  - unfold RecordStoredReqCacheResult. cbn zeta. fold (cacheLabels cacheResult).
    rewrite withAdd_valid by (rewrite HstoredReq; apply Hcache).
    rewrite (proj2 (Z.ltb_ge inc 0)) by done.
    cbn [map_result state_of]. solve_value.
  - unfold RecordStoredImpCacheResult. cbn zeta. fold (cacheLabels cacheResult).
    rewrite withAdd_valid by (rewrite HstoredImp; apply Hcache).
    rewrite (proj2 (Z.ltb_ge inc 0)) by done.
    cbn [map_result state_of]. solve_value.
  - unfold RecordUserIDSet.
    rewrite withAdd_valid by (rewrite HuserID; apply resolveUserSyncLabels_valid).
    cbn [map_result state_of Z.ltb Z.compare]. solve_value.
Qed.

(** X6. Pre-creating the series counts nothing: in the state NewMetrics
    returns every counter series reads zero, no histogram series has an
    observation, and the cookie sync counter and the connection gauge are
    at zero. ([With] creates a series at zero and adds nothing.) *)
Theorem NewMetrics_counts_nothing (D : pbsmetrics.Domains) (cfg : config.PrometheusMetrics)
    (m : Metrics) :
  NewMetrics D cfg = Some m →
  (∀ v l x, v ∈ [ connError m; imps m; legacyImps m; requests m; adaptRequests m;
                  adaptBids m; adaptErrors m; adaptPanics m; adaptCookieSync m; userID m;
                  storedReqCacheResult m; storedImpCacheResult m ] →
            prometheus.cv_series v !! l = Some x → x = 0%Z)
  ∧ (∀ v l xs, v ∈ [ reqTimer m; adaptTimer m; adaptPrices m ] →
               prometheus.hv_series v !! l = Some xs → xs = [])
  ∧ prometheus.c_value (cookieSync m) = 0%Z
  ∧ prometheus.g_value (connCounter m) = 0%Z.
Proof.
  intros Hnew. destruct (NewMetrics_pristine D cfg m Hnew) as (Hv & Ho & Hc & Hg).
  split_and!; [| |exact Hc|exact Hg].
  - intros v l x Hin Hl.
    assert (Hf : ∃ f, counterOf m f = Some v).
    { repeat (apply elem_of_cons in Hin as [->|Hin]);
        [ by exists connErrorF | by exists impsF | by exists legacyImpsF
        | by exists requestsF | by exists adaptRequestsF | by exists adaptBidsF
        | by exists adaptErrorsF | by exists adaptPanicsF | by exists adaptCookieSyncF
        | by exists userIDF | by exists storedReqCacheResultF
        | by exists storedImpCacheResultF | by apply elem_of_nil in Hin ]. }
    destruct Hf as [f Hf]. specialize (Hv f l). unfold value in Hv.
    by rewrite Hf, Hl in Hv.
  - intros v l xs Hin Hl.
    assert (Hf : ∃ f, histogramOf m f = Some v).
    { repeat (apply elem_of_cons in Hin as [->|Hin]);
        [ by exists reqTimerF | by exists adaptTimerF | by exists adaptPricesF
        | by apply elem_of_nil in Hin ]. }
    destruct Hf as [f Hf]. specialize (Ho f l). unfold observations in Ho.
    by rewrite Hf, Hl in Ho.
Qed.

Lemma NewMetrics_counts_nothing_witness :
  ∃ m, NewMetrics sampleDomains samplePrometheus = Some m
       ∧ prometheus.cv_series (requests m) !! resolveLabels sampleLabels = Some 0%Z.
Proof.
  destruct NewMetrics_sample_returns as [m Hm]. exists m. split; [exact Hm|].
  pose proof (NewMetrics_counts_nothing sampleDomains samplePrometheus m Hm)
    as (Hzero & _).
  assert (Hin : resolveLabels sampleLabels ∈ series m requestsF).
  { apply (covered sampleDomains samplePrometheus m); [by apply NewMetrics_wellFormed|].
    apply resolveLabels_precreated.
    unfold inDomains, sampleDomains, sampleLabels. cbn.
    split_and!; apply (bool_decide_unpack _); by vm_compute. }
  cbn [series] in Hin. apply elem_of_dom in Hin as [x Hx]. rewrite Hx. f_equal.
  apply (Hzero (requests m) (resolveLabels sampleLabels) x); [|exact Hx].
  do 3 apply list_elem_of_further. apply list_elem_of_here.
Defined.

Lemma calls_value (cfg : config.PrometheusMetrics) (cs : list Call) (m : Metrics) :
  declares cfg m → Forall nonnegative cs →
  ∀ f l, value (state_of (calls cs m)) f l
         = (value m f l + sumOf (cs ≫= additions) f l)%Z.
Proof.
  revert m. induction cs as [|c cs IH]; intros m Hm Hcs f l; cbn [calls].
  - cbn. lia.
  - apply Forall_cons in Hcs as [Hc Hcs].
    destruct (call_keeps cfg m c Hm) as [Hret Hkeeps].
    pose proof (call_value cfg m c Hm Hc f l) as Hval.
    apply Hret in Hc. destruct (call c m) as [m1|m1]; [|done]. cbn [and_then].
    pose proof (keeps_declares cfg m _ Hkeeps Hm) as Hm1.
    rewrite (IH m1 Hm1 Hcs). cbn [state_of] in Hval. rewrite Hval.
    rewrite bind_cons, sumOf_app. lia.
Qed.

(** What a counter can count without rounding: a series holds a [float64],
    which holds every whole number from 0 to 2^53 and adds two of them
    exactly when the sum is one of them. The run stays in that range when
    no series starts below zero and none is taken past 2^53 by all that
    the calls add to it. *)
Definition unrounded (m : Metrics) (cs : list Call) : Prop :=
  ∀ f l, (0 ≤ value m f l ∧ value m f l + sumOf (cs ≫= additions) f l ≤ 2 ^ 53)%Z.

(** All the amounts of a list of additions. *)
Definition totalOf (adds : list (Family * prometheus.Labels * Z)) : Z :=
  foldr (λ a acc, (a.2 + acc)%Z) 0%Z adds.

Lemma sumOf_total adds f l :
  Forall (λ a : Family * prometheus.Labels * Z, (0 ≤ a.2)%Z) adds →
  (0 ≤ sumOf adds f l ≤ totalOf adds)%Z.
Proof.
  unfold sumOf, totalOf. induction 1 as [|a adds Ha Hadds IH]; cbn [foldr]; [lia|].
  case_decide; lia.
Qed.

Lemma additions_nonnegative (c : Call) :
  nonnegative c → Forall (λ a : Family * prometheus.Labels * Z, (0 ≤ a.2)%Z) (additions c).
Proof.
  unfold nonnegative.
  destruct c; try destruct success; cbn [additions amount]; intros Hc;
    repeat (apply Forall_cons; split); try (by apply Forall_nil); cbn [snd]; try lia.
  apply Forall_fmap, Forall_forall. intros k _. cbn. lia.
Qed.

Lemma calls_additions_nonnegative (cs : list Call) :
  Forall nonnegative cs →
  Forall (λ a : Family * prometheus.Labels * Z, (0 ≤ a.2)%Z) (cs ≫= additions).
Proof.
  induction 1 as [|c cs Hc Hcs IH]; [by apply Forall_nil|].
  rewrite bind_cons. apply Forall_app. split; [by apply additions_nonnegative|exact IH].
Qed.

(** X7. Every counter series holds the sum of what the calls added under its
    labels, as long as the run stays where a [float64] counts without
    rounding. From a state with the declared families, take any sequence of
    calls of the sixteen methods whose amounts are not negative (so
    [Counter.Add] accepts them) and such that no counter series starts
    below zero or is taken past 2^53 by all that the calls add to it. Then
    after every part of the sequence every counter series reads a whole
    number from 0 to 2^53, and after the whole sequence the series [l] of
    a counter family reads what it read before plus the amounts of the
    [Inc]s and [Add]s the calls made on that family with exactly the
    assignment [l]; a series no call addressed reads what it read before.
    From the state NewMetrics returns it reads that sum alone. (The model
    holds a counter as an integer; within this range the integer is the
    [float64] of the program.) *)
Theorem counters_hold_what_was_added (D : pbsmetrics.Domains)
    (cfg : config.PrometheusMetrics) (m : Metrics) (cs : list Call) :
  declares cfg m → Forall representable cs → unrounded m cs →
  (∀ f l, value (state_of (calls cs m)) f l
          = (value m f l + sumOf (cs ≫= additions) f l)%Z)
  ∧ (∀ cs1 cs2 f l, cs = cs1 ++ cs2 →
       (0 ≤ value (state_of (calls cs1 m)) f l ≤ 2 ^ 53)%Z)
  ∧ (NewMetrics D cfg = Some m →
     ∀ f l, value (state_of (calls cs m)) f l = sumOf (cs ≫= additions) f l).
Proof.
  intros Hm Hcs Hexact.
  assert (Hnn : Forall nonnegative cs)
    by (eapply Forall_impl; [exact Hcs|apply representable_nonnegative]).
  split_and!.
  - by apply (calls_value cfg).
  - intros cs1 cs2 f l ->. apply Forall_app in Hnn as [Hnn1 Hnn2].
    rewrite (calls_value cfg cs1 m Hm Hnn1).
    destruct (Hexact f l) as [Hlow Hhigh]. rewrite bind_app, sumOf_app in Hhigh.
    pose proof (sumOf_total _ f l (calls_additions_nonnegative cs1 Hnn1)) as [H1 _].
    pose proof (sumOf_total _ f l (calls_additions_nonnegative cs2 Hnn2)) as [H2 _].
    lia.
  - intros Hnew f l. rewrite (calls_value cfg cs m Hm Hnn).
    destruct (NewMetrics_pristine D cfg m Hnew) as (Hv & _). rewrite Hv. lia.
Qed.

Lemma sampleCalls_representable : Forall representable (sampleCalls ++ sampleCalls).
Proof.
  apply Forall_app. split; unfold sampleCalls;
    repeat (apply Forall_cons; split); try apply Forall_nil;
    unfold representable; cbn; lia.
Qed.

Lemma sampleCalls_unrounded (m : Metrics) :
  pristine m → unrounded m (sampleCalls ++ sampleCalls).
Proof.
  intros (Hv & _) f l. rewrite Hv. split; [done|].
  assert (Hnn : Forall nonnegative (sampleCalls ++ sampleCalls)).
  { eapply Forall_impl; [exact sampleCalls_representable|apply representable_nonnegative]. }
  pose proof (sumOf_total _ f l (calls_additions_nonnegative _ Hnn)) as [_ Hle].
  assert (Htotal : (totalOf ((sampleCalls ++ sampleCalls) ≫= additions) ≤ 2 ^ 53)%Z)
    by (by vm_compute).
  lia.
Qed.

Lemma counters_hold_what_was_added_witness :
  ∃ m, NewMetrics sampleDomains samplePrometheus = Some m
       ∧ value (state_of (calls (sampleCalls ++ sampleCalls) m)) requestsF
           (resolveLabels sampleLabels) = 2%Z
       ∧ value (state_of (calls (sampleCalls ++ sampleCalls) m)) storedReqCacheResultF
           (cacheLabels "hit") = 6%Z
       ∧ value (state_of (calls (sampleCalls ++ sampleCalls) m)) adaptErrorsF
           (resolveAdapterErrorLabels sampleAdapterLabels "timeout") = 2%Z.
Proof.
  destruct NewMetrics_sample_returns as [m Hm]. exists m. split; [exact Hm|].
  pose proof (proj2 (proj2 (counters_hold_what_was_added sampleDomains samplePrometheus m
                       (sampleCalls ++ sampleCalls) (NewMetrics_catalog _ _ _ Hm)
                       sampleCalls_representable
                       (sampleCalls_unrounded m (NewMetrics_pristine _ _ _ Hm)))) Hm) as Hsum.
  rewrite !Hsum. split_and!; by vm_compute.
Defined.

(** ** The gauge, the cookie sync counter and the histograms *)

(** What RecordAdapterRequest leaves alone: anything that neither of its
    two counter vectors is part of. *)
Lemma RecordAdapterRequest_frame {T : Type} (g : Metrics → T) (m : Metrics)
    (labels : pbsmetrics.AdapterLabels) :
  (∀ m v, g (set_adaptRequests m v) = g m) → (∀ m v, g (set_adaptErrors m v) = g m) →
  g (state_of (RecordAdapterRequest m labels)) = g m.
Proof.
  intros Hreq Herr. rewrite RecordAdapterRequest_fold.
  assert (Hfold : ∀ ks m1,
    g (state_of (foldr (λ k (acc : result Metrics),
                          and_then acc (recordAdapterErrors labels k)) (Returned m1) ks))
    = g m1).
  { intros ks m1. induction ks as [|k ks IH]; [done|]. cbn [foldr].
    destruct (foldr _ _ ks) as [m2|m2]; cbn [and_then state_of] in *; [|exact IH].
    unfold recordAdapterErrors. by rewrite state_of_map_result, Herr. }
  destruct (withAdd (adaptRequests m) (resolveAdapterLabels labels) 1) as [v|v];
    cbn [map_result and_then state_of].
  - by rewrite Hfold, Hreq.
  - apply Hreq.
Qed.

(** The connections a call opens (one for an accepted connection, minus one
    for a closed one) and the cookie syncs it counts. *)
Definition opened (c : Call) : Z :=
  match c with
  | CallConnectionAccept true => 1
  | CallConnectionClose true => -1
  | _ => 0
  end.

Definition synced (c : Call) : Z :=
  match c with CallCookieSync _ => 1 | _ => 0 end.

Lemma call_scalars (c : Call) (m : Metrics) :
  prometheus.g_value (connCounter (state_of (call c m)))
  = (prometheus.g_value (connCounter m) + opened c)%Z
  ∧ prometheus.c_value (cookieSync (state_of (call c m)))
    = (prometheus.c_value (cookieSync m) + synced c)%Z.
Proof.
  destruct c; cbn [call opened synced];
    try (unfold RecordRequest, RecordImps, RecordLegacyImps, RecordRequestTime,
           RecordAdapterPanic, RecordAdapterBidReceived, RecordAdapterPrice,
           RecordAdapterTime, RecordAdapterCookieSync, RecordStoredReqCacheResult,
           RecordStoredImpCacheResult, RecordUserIDSet, RecordCookieSync;
         cbn zeta; rewrite ?state_of_map_result; cbn; lia).
  - unfold RecordConnectionAccept. destruct success;
      rewrite ?state_of_map_result; cbn; lia.
  - unfold RecordConnectionClose. destruct success;
      rewrite ?state_of_map_result; cbn; lia.
  - split.
    + rewrite (RecordAdapterRequest_frame (λ m, prometheus.g_value (connCounter m)));
        [lia|done..].
    + rewrite (RecordAdapterRequest_frame (λ m, prometheus.c_value (cookieSync m)));
        [lia|done..].
Qed.

Definition sumZ (f : Call → Z) (cs : list Call) : Z := foldr (λ c acc, (f c + acc)%Z) 0%Z cs.

(** X8. The connection gauge reads the accepted connections minus the closed
    ones, and the cookie sync counter the cookie syncs: from a state with
    the declared families, after a sequence of calls without a negative
    amount, the gauge has gone up by one for every RecordConnectionAccept
    with success and down by one for every RecordConnectionClose with
    success, the counter up by one for every RecordCookieSync, and no other
    call has moved either. Nothing keeps the gauge at or above zero: a
    close without an accept takes it to minus one. *)
Theorem connection_gauge_balance (D : pbsmetrics.Domains) (cfg : config.PrometheusMetrics)
    (m : Metrics) (cs : list Call) :
  declares cfg m → Forall nonnegative cs →
  prometheus.g_value (connCounter (state_of (calls cs m)))
  = (prometheus.g_value (connCounter m) + sumZ opened cs)%Z
  ∧ prometheus.c_value (cookieSync (state_of (calls cs m)))
    = (prometheus.c_value (cookieSync m) + sumZ synced cs)%Z
  ∧ (NewMetrics D cfg = Some m →
     prometheus.g_value (connCounter (state_of (call (CallConnectionClose true) m)))
     = (-1)%Z).
Proof.
  intros Hm Hcs. split_and!.
  - revert m Hm. induction Hcs as [|c cs Hc Hcs IH]; intros m Hm; cbn [calls sumZ foldr].
    + cbn. lia.
    + destruct (call_keeps cfg m c Hm) as [Hret Hkeeps].
      destruct (call_scalars c m) as [Hg _].
      apply Hret in Hc. destruct (call c m) as [m1|m1]; [|done]. cbn [and_then].
      rewrite (IH m1 (keeps_declares cfg m _ Hkeeps Hm)). cbn [state_of] in Hg.
      rewrite Hg. unfold sumZ. lia.
  - revert m Hm. induction Hcs as [|c cs Hc Hcs IH]; intros m Hm; cbn [calls sumZ foldr].
    + cbn. lia.
    + destruct (call_keeps cfg m c Hm) as [Hret Hkeeps].
      destruct (call_scalars c m) as [_ Hs].
      apply Hret in Hc. destruct (call c m) as [m1|m1]; [|done]. cbn [and_then].
      rewrite (IH m1 (keeps_declares cfg m _ Hkeeps Hm)). cbn [state_of] in Hs.
      rewrite Hs. unfold sumZ. lia.
  - intros Hnew. destruct (NewMetrics_pristine D cfg m Hnew) as (_ & _ & _ & Hg).
    cbn. lia.
Qed.

Lemma connection_gauge_balance_witness :
  ∃ m, NewMetrics sampleDomains samplePrometheus = Some m
       ∧ prometheus.g_value
           (connCounter
              (state_of (calls [ CallConnectionAccept true; CallConnectionAccept true;
                                 CallConnectionAccept false; CallRequest sampleLabels;
                                 CallConnectionClose true ] m)))
         = (prometheus.g_value (connCounter m) + 1)%Z.
Proof.
  destruct NewMetrics_sample_returns as [m Hm]. exists m. split; [exact Hm|].
  refine (proj1 (connection_gauge_balance sampleDomains samplePrometheus m _
                   (NewMetrics_catalog _ _ _ Hm) _)).
  repeat (apply Forall_cons; split); try apply Forall_nil; exact I.
Defined.

(** *** Observations *)

(** The observation a call makes on a histogram series: the family, the
    assignment, and the value, which is the duration in seconds for the
    two timers and the price as given. *)
Definition observed (c : Call) : option (Family * prometheus.Labels * float) :=
  match c with
  | CallRequestTime labels length => Some (reqTimerF, resolveLabels labels, seconds length)
  | CallAdapterPrice labels cpm => Some (adaptPricesF, resolveAdapterLabels labels, cpm)
  | CallAdapterTime labels length =>
      Some (adaptTimerF, resolveAdapterLabels labels, seconds length)
  | _ => None
  end.

(** The values the calls observe on the series [l] of the family [f], in
    the order of the calls. *)
Definition samples (cs : list Call) (f : Family) (l : prometheus.Labels) : list float :=
  cs ≫= (λ c, match observed c with
              | Some (f', l', x) => if decide (f' = f ∧ l' = l) then [x] else []
              | None => []
              end).

Lemma samples_cons (c : Call) (cs : list Call) (f : Family) (l : prometheus.Labels) :
  samples (c :: cs) f l
  = match observed c with
    | Some (f', l', x) => if decide (f' = f ∧ l' = l) then [x] else []
    | None => []
    end ++ samples cs f l.
Proof. unfold samples. by rewrite bind_cons. Qed.

Lemma samples_rev_cons (c : Call) (cs : list Call) (f : Family) (l : prometheus.Labels) :
  reverse (samples (c :: cs) f l) = reverse (samples cs f l) ++ samples [c] f l.
Proof.
  rewrite (samples_cons c cs), (samples_cons c []), reverse_app.
  change (samples [] f l) with (@nil float). rewrite app_nil_r. f_equal.
  destruct (observed c) as [[[f' l'] x]|]; [|done]. by case_decide.
Qed.

Ltac solve_observations :=
  let f := fresh "f" in let l' := fresh "l'" in let Hd := fresh "Hd" in
  intros f l'; unfold observations; destruct f;
  cbn [histogramOf set_reqTimer set_adaptTimer set_adaptPrices reqTimer adaptTimer
       adaptPrices prometheus.hv_series fst snd];
  (case_decide as Hd;
   [ destruct Hd as [Hf Hl]; try discriminate Hf; subst;
     rewrite ?lookup_insert_eq; reflexivity
   | rewrite ?lookup_insert_ne by (intros Heq; apply Hd; split; [reflexivity|exact Heq]);
     reflexivity ]).

Lemma call_observations (cfg : config.PrometheusMetrics) (m : Metrics) (c : Call) :
  declares cfg m →
  ∀ f l, observations (state_of (call c m)) f l = samples [c] f l ++ observations m f l.
Proof.
  intros Hm.
  destruct (declares_labelNames cfg m Hm)
    as (_ & _ & _ & _ & HreqTimer & _ & _ & HadaptTimer & _ & _ & _ & HadaptPrices & _).
  enough (Hgoal : ∀ f l, observations (state_of (call c m)) f l
            = match observed c with
              | Some (f', l', x) => if decide (f' = f ∧ l' = l) then [x] else []
              | None => []
              end ++ observations m f l).
  { intros f l. by rewrite samples_cons, app_nil_r. }
  destruct c; cbn [call observed app];
    try (intros f l;
         unfold RecordRequest, RecordImps, RecordLegacyImps, RecordAdapterPanic,
           RecordAdapterBidReceived, RecordAdapterCookieSync, RecordStoredReqCacheResult,
           RecordStoredImpCacheResult, RecordUserIDSet, RecordCookieSync;
         cbn zeta; rewrite ?state_of_map_result; unfold observations; destruct f; reflexivity).
  - intros f l. unfold RecordConnectionAccept. destruct success;
      rewrite ?state_of_map_result; unfold observations; destruct f; reflexivity.
  - intros f l. unfold RecordConnectionClose. destruct success;
      rewrite ?state_of_map_result; unfold observations; destruct f; reflexivity.
  - unfold RecordRequestTime. cbn zeta.
    rewrite withObserve_valid by (rewrite HreqTimer; apply resolveLabels_valid).
    cbn [map_result state_of]. solve_observations.
  - intros f l.
    rewrite (RecordAdapterRequest_frame (λ m, observations m f l)); [done|..];
      intros m' v; unfold observations; destruct f; reflexivity.
  - unfold RecordAdapterPrice.
    rewrite withObserve_valid by (rewrite HadaptPrices; apply resolveAdapterLabels_valid).
    cbn [map_result state_of]. solve_observations.
  - unfold RecordAdapterTime. cbn zeta.
    rewrite withObserve_valid by (rewrite HadaptTimer; apply resolveAdapterLabels_valid).
    cbn [map_result state_of]. solve_observations.
Qed.

(** X9. Every histogram series holds the observations the calls made under its
    labels, newest first: from a state with the declared families, after a
    sequence of calls without a negative amount, the series [l] of a
    histogram family has, in front of what it held, the values observed on
    that family with exactly the assignment [l], the last call's first.
    RecordRequestTime and RecordAdapterTime observe the duration divided by
    a second in float64 (250ms is 0.25, 1.5s is 1.5), RecordAdapterPrice
    the price it is given; no other call observes anything. *)
Theorem histograms_hold_what_was_observed (cfg : config.PrometheusMetrics) (m : Metrics)
    (cs : list Call) :
  declares cfg m → Forall nonnegative cs →
  ∀ f l, observations (state_of (calls cs m)) f l
         = reverse (samples cs f l) ++ observations m f l.
Proof.
  intros Hm Hcs. revert m Hm.
  induction Hcs as [|c cs Hc Hcs IH]; intros m Hm f l; cbn [calls].
  - done.
  - destruct (call_keeps cfg m c Hm) as [Hret Hkeeps].
    pose proof (call_observations cfg m c Hm f l) as Hobs.
    apply Hret in Hc. destruct (call c m) as [m1|m1]; [|done]. cbn [and_then].
    rewrite (IH m1 (keeps_declares cfg m _ Hkeeps Hm)). cbn [state_of] in Hobs.
    by rewrite Hobs, samples_rev_cons, <-(assoc_L (++)).
Qed.

Lemma histograms_hold_what_was_observed_witness :
  ∃ m, NewMetrics sampleDomains samplePrometheus = Some m
       ∧ observations
           (state_of (calls [ CallRequestTime sampleLabels 250000000%Z;
                              CallRequest sampleLabels;
                              CallRequestTime sampleLabels 1500000000%Z ] m))
           reqTimerF (resolveLabels sampleLabels)
         = [1.5; 0.25]%float.
Proof.
  destruct NewMetrics_sample_returns as [m Hm]. exists m. split; [exact Hm|].
  assert (Hcs : Forall nonnegative [ CallRequestTime sampleLabels 250000000%Z;
                                     CallRequest sampleLabels;
                                     CallRequestTime sampleLabels 1500000000%Z ])
    by (repeat (apply Forall_cons; split); try apply Forall_nil; exact I).
  rewrite (histograms_hold_what_was_observed samplePrometheus m _
             (NewMetrics_catalog _ _ _ Hm) Hcs).
  destruct (NewMetrics_pristine _ _ _ Hm) as (_ & Hobs & _). rewrite Hobs.
  by vm_compute.
Defined.

(** ** The order of the adapter errors *)

(** One pass of the loop of RecordAdapterRequest on the vector of
    adapter_errors_total: the series of the error [k] is created if need be
    and goes up by one. *)
Definition bump (labels : pbsmetrics.AdapterLabels) (k : pbsmetrics.AdapterError)
    (v : prometheus.CounterVec) : prometheus.CounterVec :=
  let l := resolveAdapterErrorLabels labels (string_of k) in
  {| prometheus.cv_opts := prometheus.cv_opts v;
     prometheus.cv_labelNames := prometheus.cv_labelNames v;
     prometheus.cv_series :=
       <[l := (default 0 (prometheus.cv_series v !! l) + 1)%Z]> (prometheus.cv_series v) |}.

Lemma recordAdapterErrors_bump (me : Metrics) (labels : pbsmetrics.AdapterLabels)
    (k : pbsmetrics.AdapterError) :
  prometheus.cv_labelNames (adaptErrors me) = errorLabelNames →
  recordAdapterErrors labels k me
  = Returned (set_adaptErrors me (bump labels k (adaptErrors me))).
Proof.
  intros Hnames. unfold recordAdapterErrors.
  rewrite withAdd_valid by (rewrite Hnames; apply resolveAdapterErrorLabels_valid).
  reflexivity.
Qed.

Lemma increment_comm (s : gmap prometheus.Labels Z) (la lb : prometheus.Labels) :
  <[la := (default 0 (<[lb := (default 0 (s !! lb) + 1)%Z]> s !! la) + 1)%Z]>
    (<[lb := (default 0 (s !! lb) + 1)%Z]> s)
  = <[lb := (default 0 (<[la := (default 0 (s !! la) + 1)%Z]> s !! lb) + 1)%Z]>
      (<[la := (default 0 (s !! la) + 1)%Z]> s).
Proof.
  destruct (decide (la = lb)) as [->|Hne].
  - reflexivity.
  - rewrite (lookup_insert_ne _ lb la) by done.
    rewrite (lookup_insert_ne _ la lb) by done.
    by apply insert_insert_ne.
Qed.

Lemma bump_comm (labels : pbsmetrics.AdapterLabels) (a b : pbsmetrics.AdapterError)
    (v : prometheus.CounterVec) :
  bump labels a (bump labels b v) = bump labels b (bump labels a v).
Proof.
  unfold bump. cbn [prometheus.cv_series prometheus.cv_opts prometheus.cv_labelNames].
  f_equal. apply increment_comm.
Qed.

Lemma foldr_bump_labelNames (labels : pbsmetrics.AdapterLabels)
    (ks : list pbsmetrics.AdapterError) (v : prometheus.CounterVec) :
  prometheus.cv_labelNames (foldr (bump labels) v ks) = prometheus.cv_labelNames v.
Proof. induction ks as [|k ks IH]; [done|]. exact IH. Qed.

Lemma adapterErrors_foldr_bump (me : Metrics) (labels : pbsmetrics.AdapterLabels)
    (ks : list pbsmetrics.AdapterError) :
  prometheus.cv_labelNames (adaptErrors me) = errorLabelNames →
  foldr (λ k (acc : result Metrics), and_then acc (recordAdapterErrors labels k))
    (Returned me) ks
  = Returned (set_adaptErrors me (foldr (bump labels) (adaptErrors me) ks)).
Proof.
  intros Hnames. induction ks as [|k ks IH]; cbn [foldr].
  - by destruct me.
  - rewrite IH. cbn [and_then]. rewrite recordAdapterErrors_bump.
    + reflexivity.
    + cbn. by rewrite foldr_bump_labelNames.
Qed.

Lemma foldl_foldr_reverse {A B : Type} (f : A → B → A) (a : A) (l : list B) :
  foldl f a l = foldr (λ x acc, f acc x) a (reverse l).
Proof.
  revert a. induction l as [|x l IH]; intros a; [done|].
  rewrite reverse_cons, foldr_snoc. cbn [foldl]. apply IH.
Qed.

(** X10. The result of RecordAdapterRequest does not depend on the order in
    which the loop visits the keys of [labels.AdapterErrors], which Go
    leaves unspecified: under the declared families, running the loop body
    over the keys in any order gives the state and the outcome the method
    is modelled with. *)
Theorem adapter_errors_order_is_irrelevant (cfg : config.PrometheusMetrics) (m : Metrics)
    (labels : pbsmetrics.AdapterLabels) (ks : list pbsmetrics.AdapterError) :
  declares cfg m → ks ≡ₚ elements (pbsmetrics.al_AdapterErrors labels) →
  and_then
    (map_result (set_adaptRequests m)
       (withAdd (adaptRequests m) (resolveAdapterLabels labels) 1))
    (λ me, foldl (λ (acc : result Metrics) k, and_then acc (recordAdapterErrors labels k))
             (Returned me) ks)
  = RecordAdapterRequest m labels.
Proof.
  intros Hm Hperm. rewrite RecordAdapterRequest_fold.
  destruct (declares_labelNames cfg m Hm)
    as (_ & _ & _ & _ & _ & HadaptRequests & _ & _ & _ & _ & _ & _ & HadaptErrors & _).
  rewrite withAdd_valid by (rewrite HadaptRequests; apply resolveAdapterLabels_valid).
  cbn [Z.ltb Z.compare map_result and_then].
  rewrite foldl_foldr_reverse, !adapterErrors_foldr_bump by exact HadaptErrors.
  do 2 f_equal.
  apply (foldr_permutation (=) (bump labels)).
  - intros k v1 v2 ->. reflexivity.
  - intros j1 a1 j2 a2 v _ _ _. apply bump_comm.
  - by rewrite reverse_Permutation.
Qed.

Lemma adapter_errors_order_is_irrelevant_witness :
  ∃ m, NewMetrics sampleDomains samplePrometheus = Some m
       ∧ and_then
           (map_result (set_adaptRequests m)
              (withAdd (adaptRequests m) (resolveAdapterLabels sampleAdapterLabels) 1))
           (λ me, foldl (λ (acc : result Metrics) k,
                           and_then acc (recordAdapterErrors sampleAdapterLabels k))
                    (Returned me) ["timeout"; "badinput"])
         = and_then
             (map_result (set_adaptRequests m)
                (withAdd (adaptRequests m) (resolveAdapterLabels sampleAdapterLabels) 1))
             (λ me, foldl (λ (acc : result Metrics) k,
                             and_then acc (recordAdapterErrors sampleAdapterLabels k))
                      (Returned me) ["badinput"; "timeout"]).
Proof.
  destruct NewMetrics_sample_returns as [m Hm]. exists m. split; [exact Hm|].
  pose proof (NewMetrics_catalog _ _ _ Hm) as Hdecl.
  assert (Hnd : NoDup ["timeout"; "badinput"])
    by (apply (bool_decide_unpack _); by vm_compute).
  assert (Hperm : ["timeout"; "badinput"]
                  ≡ₚ elements (pbsmetrics.al_AdapterErrors sampleAdapterLabels)).
  { apply NoDup_Permutation; [exact Hnd|apply NoDup_elements|].
    intros k. rewrite elem_of_elements. unfold sampleAdapterLabels.
    cbn [pbsmetrics.al_AdapterErrors].
    rewrite elem_of_union, !elem_of_singleton, !elem_of_cons, elem_of_nil. tauto. }
  rewrite (adapter_errors_order_is_irrelevant samplePrometheus m sampleAdapterLabels
             ["timeout"; "badinput"] Hdecl Hperm).
  symmetry.
  apply (adapter_errors_order_is_irrelevant samplePrometheus m sampleAdapterLabels
           ["badinput"; "timeout"] Hdecl).
  etrans; [|exact Hperm]. apply Permutation_swap.
Defined.

(** ** Which contexts share a series *)

Ltac lookup_at H key :=
  let Hk := fresh "Hk" in
  pose proof (f_equal (λ l : prometheus.Labels, l !! key) H) as Hk;
  vm_compute in Hk; injection Hk as Hk.

(** X11. Two label contexts address the same series exactly when they agree on
    the fields the resolve function exports. So no two different
    combinations of exported values are counted together, and the fields
    that are not exported ([PubID] of both contexts, and [AdapterErrors]
    for the adapter, bid and error labels) never select a series. *)
Theorem contexts_share_a_series_iff_exported_fields_agree :
  (∀ l1 l2 : pbsmetrics.Labels,
     resolveLabels l1 = resolveLabels l2 ↔
     pbsmetrics.l_Source l1 = pbsmetrics.l_Source l2
     ∧ pbsmetrics.l_RType l1 = pbsmetrics.l_RType l2
     ∧ pbsmetrics.l_Browser l1 = pbsmetrics.l_Browser l2
     ∧ pbsmetrics.l_CookieFlag l1 = pbsmetrics.l_CookieFlag l2
     ∧ pbsmetrics.l_RequestStatus l1 = pbsmetrics.l_RequestStatus l2)
  ∧ (∀ a1 a2 : pbsmetrics.AdapterLabels,
       resolveAdapterLabels a1 = resolveAdapterLabels a2 ↔
       pbsmetrics.al_Source a1 = pbsmetrics.al_Source a2
       ∧ pbsmetrics.al_RType a1 = pbsmetrics.al_RType a2
       ∧ pbsmetrics.al_Browser a1 = pbsmetrics.al_Browser a2
       ∧ pbsmetrics.al_CookieFlag a1 = pbsmetrics.al_CookieFlag a2
       ∧ pbsmetrics.al_AdapterBids a1 = pbsmetrics.al_AdapterBids a2
       ∧ pbsmetrics.al_Adapter a1 = pbsmetrics.al_Adapter a2)
  ∧ (∀ (a1 a2 : pbsmetrics.AdapterLabels) (t1 t2 : pbsmetrics.BidType) (h1 h2 : bool),
       resolveBidLabels a1 t1 h1 = resolveBidLabels a2 t2 h2 ↔
       resolveAdapterLabels a1 = resolveAdapterLabels a2 ∧ t1 = t2 ∧ h1 = h2)
  ∧ (∀ (a1 a2 : pbsmetrics.AdapterLabels) (e1 e2 : string),
       resolveAdapterErrorLabels a1 e1 = resolveAdapterErrorLabels a2 e2 ↔
       pbsmetrics.al_Source a1 = pbsmetrics.al_Source a2
       ∧ pbsmetrics.al_RType a1 = pbsmetrics.al_RType a2
       ∧ pbsmetrics.al_Browser a1 = pbsmetrics.al_Browser a2
       ∧ pbsmetrics.al_CookieFlag a1 = pbsmetrics.al_CookieFlag a2
       ∧ pbsmetrics.al_Adapter a1 = pbsmetrics.al_Adapter a2
       ∧ e1 = e2)
  ∧ (∀ i1 i2 : pbsmetrics.ImpLabels, resolveImpLabels i1 = resolveImpLabels i2 ↔ i1 = i2)
  ∧ (∀ u1 u2 : pbsmetrics.UserLabels,
       resolveUserSyncLabels u1 = resolveUserSyncLabels u2 ↔ u1 = u2).
Proof.
  assert (Hadapter : ∀ a1 a2 : pbsmetrics.AdapterLabels,
       resolveAdapterLabels a1 = resolveAdapterLabels a2 ↔
       pbsmetrics.al_Source a1 = pbsmetrics.al_Source a2
       ∧ pbsmetrics.al_RType a1 = pbsmetrics.al_RType a2
       ∧ pbsmetrics.al_Browser a1 = pbsmetrics.al_Browser a2
       ∧ pbsmetrics.al_CookieFlag a1 = pbsmetrics.al_CookieFlag a2
       ∧ pbsmetrics.al_AdapterBids a1 = pbsmetrics.al_AdapterBids a2
       ∧ pbsmetrics.al_Adapter a1 = pbsmetrics.al_Adapter a2).
  { intros a1 a2. split.
    - intros H. lookup_at H demandSourceLabel. lookup_at H requestTypeLabel.
      lookup_at H browserLabel. lookup_at H cookieLabel. lookup_at H adapterBidLabel.
      lookup_at H adapterLabel. done.
    - intros (H1 & H2 & H3 & H4 & H5 & H6). unfold resolveAdapterLabels.
      by rewrite H1, H2, H3, H4, H5, H6. }
  split_and!.
  - intros l1 l2. split.
    + intros H. lookup_at H demandSourceLabel. lookup_at H requestTypeLabel.
      lookup_at H browserLabel. lookup_at H cookieLabel. lookup_at H responseStatusLabel.
      done.
    + intros (H1 & H2 & H3 & H4 & H5). unfold resolveLabels.
      by rewrite H1, H2, H3, H4, H5.
  - exact Hadapter.
  - intros a1 a2 t1 t2 h1 h2. rewrite Hadapter. split.
    + intros H.
      assert (Hadm : h1 = h2).
      { pose proof (f_equal (λ l : prometheus.Labels, l !! markupTypeLabel) H) as Hk.
        destruct h1, h2; vm_compute in Hk; first [done | discriminate Hk]. }
      subst h2.
      destruct h1; lookup_at H demandSourceLabel; lookup_at H requestTypeLabel;
        lookup_at H browserLabel; lookup_at H cookieLabel; lookup_at H adapterBidLabel;
        lookup_at H adapterLabel; lookup_at H bidTypeLabel; done.
    + intros ((H1 & H2 & H3 & H4 & H5 & H6) & -> & ->). unfold resolveBidLabels.
      by rewrite H1, H2, H3, H4, H5, H6.
  - intros a1 a2 e1 e2. split.
    + intros H. lookup_at H demandSourceLabel. lookup_at H requestTypeLabel.
      lookup_at H browserLabel. lookup_at H cookieLabel. lookup_at H adapterLabel.
      lookup_at H adapterErrLabel. done.
    + intros (H1 & H2 & H3 & H4 & H5 & ->). unfold resolveAdapterErrorLabels.
      by rewrite H1, H2, H3, H4, H5.
  - intros i1 i2. split; [|by intros ->].
    intros H.
    assert (Hflags : ∀ i : pbsmetrics.ImpLabels,
      resolveImpLabels i !! bannerLabel = Some (yes_no (pbsmetrics.BannerImps i))
      ∧ resolveImpLabels i !! videoLabel = Some (yes_no (pbsmetrics.VideoImps i))
      ∧ resolveImpLabels i !! audioLabel = Some (yes_no (pbsmetrics.AudioImps i))
      ∧ resolveImpLabels i !! nativeLabel = Some (yes_no (pbsmetrics.NativeImps i)))
      by (intros [[] [] [] []]; by vm_compute).
    assert (Hyn : ∀ b1 b2, Some (yes_no b1) = Some (yes_no b2) → b1 = b2)
      by (intros [] []; by intros [=]).
    destruct (Hflags i1) as (Hb1 & Hv1 & Ha1 & Hn1).
    destruct (Hflags i2) as (Hb2 & Hv2 & Ha2 & Hn2).
    rewrite H in Hb1, Hv1, Ha1, Hn1.
    rewrite Hb2 in Hb1. rewrite Hv2 in Hv1. rewrite Ha2 in Ha1. rewrite Hn2 in Hn1.
    apply Hyn in Hb1, Hv1, Ha1, Hn1.
    destruct i1, i2. cbn in *. by subst.
  - intros u1 u2. split; [|by intros ->].
    intros H. lookup_at H "action". lookup_at H "bidder".
    destruct u1, u2. cbn in *. by subst.
Qed.

(** ** How many series are pre-created *)

Lemma size_enumerate (dims : list Dimension) :
  dims ≠ [] → Forall (λ d : Dimension, d.2 ≠ [] ∧ NoDup d.2) dims → NoDup dims.*1 →
  size (list_to_set (enumerate dims) : gset prometheus.Labels)
  = product ((λ d : Dimension, length d.2) <$> dims).
Proof.
  intros Hne Hdims Hnames.
  assert (Hvals : Forall (λ d : Dimension, d.2 ≠ []) dims)
    by (eapply Forall_impl; [exact Hdims|]; by intros d [? _]).
  assert (Hnd : Forall (λ d : Dimension, NoDup d.2) dims)
    by (eapply Forall_impl; [exact Hdims|]; by intros d [_ ?]).
  rewrite enumerate_cartesian by done.
  rewrite size_list_to_set by (by apply NoDup_cartesian).
  apply length_cartesian.
Qed.

(** No label domain lists a value twice. *)
Definition duplicateFree (D : pbsmetrics.Domains) : Prop :=
  NoDup (pbsmetrics.DemandTypes D) ∧ NoDup (pbsmetrics.RequestTypes D)
  ∧ NoDup (pbsmetrics.BrowserTypes D) ∧ NoDup (pbsmetrics.CookieTypes D)
  ∧ NoDup (pbsmetrics.RequestStatuses D) ∧ NoDup (pbsmetrics.AdapterBids D)
  ∧ NoDup (pbsmetrics.AdapterErrors D) ∧ NoDup (pbsmetrics.CacheResults D)
  ∧ NoDup (pbsmetrics.BidderList D) ∧ NoDup (pbsmetrics.BidTypes D).

(** The number of contexts of the four dimensions every request and
    adapter family starts with. *)
Definition sharedSize (D : pbsmetrics.Domains) : nat :=
  length (pbsmetrics.DemandTypes D) * length (pbsmetrics.RequestTypes D)
  * length (pbsmetrics.BrowserTypes D) * length (pbsmetrics.CookieTypes D).

(** X12. The number of series NewMetrics leaves in each family, for label
    domains that have a value each and list no value twice: the product of
    the sizes of the family's domains. The request families have one series
    per demand source, request type, browser, cookie flag and request
    status; the adapter families one per shared context, bidder and bid
    status; the bid family two (markup types) per bid type on top of that;
    and legacy_imps_requested and setuid_calls have none. *)
Theorem precreated_series_budget (D : pbsmetrics.Domains) (cfg : config.PrometheusMetrics)
    (m : Metrics) :
  NewMetrics D cfg = Some m → populated D → duplicateFree D →
  size (series m connErrorF) = 2
  ∧ size (series m impsF) = 16
  ∧ size (series m requestsF) = sharedSize D * length (pbsmetrics.RequestStatuses D)
  ∧ size (series m reqTimerF) = sharedSize D * length (pbsmetrics.RequestStatuses D)
  ∧ (∀ f, f ∈ [adaptRequestsF; adaptTimerF; adaptPricesF; adaptPanicsF] →
       size (series m f)
       = sharedSize D * length (pbsmetrics.BidderList D) * length (pbsmetrics.AdapterBids D))
  ∧ size (series m adaptBidsF)
    = sharedSize D * length (pbsmetrics.BidderList D) * length (pbsmetrics.AdapterBids D)
      * length (pbsmetrics.BidTypes D) * 2
  ∧ size (series m adaptErrorsF)
    = sharedSize D * length (pbsmetrics.BidderList D) * length (pbsmetrics.AdapterErrors D)
  ∧ size (series m adaptCookieSyncF) = length (pbsmetrics.BidderList D) * 2
  ∧ size (series m storedReqCacheResultF) = length (pbsmetrics.CacheResults D)
  ∧ size (series m storedImpCacheResultF) = length (pbsmetrics.CacheResults D)
  ∧ size (series m legacyImpsF) = 0
  ∧ size (series m userIDF) = 0.
Proof.
  intros (_ & _ & Hser)%NewMetrics_Some
    (Hd1 & Hd2 & Hd3 & Hd4 & Hd5 & Hd6 & Hd7 & Hd8 & Hd9 & Hd10)
    (Hn1 & Hn2 & Hn3 & Hn4 & Hn5 & Hn6 & Hn7 & Hn8 & Hn9 & Hn10).
  assert (Hstr : ∀ l : list string, l ≠ [] → NoDup l →
            string_of <$> l ≠ [] ∧ NoDup (string_of <$> l))
    by (intros l ? ?; by rewrite asString_id).
  assert (Hlen : ∀ l : list string, length (string_of <$> l) = length l)
    by (intros l; by rewrite asString_id).
  assert (Hconst : ∀ a b : string, a ≠ b → [a; b] ≠ [] ∧ NoDup [a; b]).
  { intros a b Hab. split; [done|]. apply NoDup_cons. split; [|apply NoDup_singleton].
    by intros ->%list_elem_of_singleton. }
  assert (Hsize : ∀ f dims,
    dimensions D f = Some dims →
    Forall (λ d : Dimension, d.2 ≠ [] ∧ NoDup d.2) dims →
    bool_decide (dims ≠ []) = true → bool_decide (NoDup dims.*1) = true →
    size (series m f) = product ((λ d : Dimension, length d.2) <$> dims)).
  { intros f dims Hf Hdims Hne%bool_decide_eq_true_1 Hnames%bool_decide_eq_true_1.
    rewrite Hser. unfold precreated. rewrite Hf. by apply size_enumerate. }
  assert (Hshared : Forall (λ d : Dimension, d.2 ≠ [] ∧ NoDup d.2) (sharedDims D)).
  { repeat (apply Forall_cons; split); try (by apply Forall_nil); cbn; by apply Hstr. }
  assert (Hnone : ∀ f, dimensions D f = None → size (series m f) = 0).
  { intros f Hf. rewrite Hser. unfold precreated. by rewrite Hf. }
  unfold sharedSize.
  split_and!.
  - rewrite (Hsize connErrorF _ eq_refl); [done| |by vm_compute..].
    repeat (apply Forall_cons; split); try (by apply Forall_nil); cbn; by apply Hconst.
  - rewrite (Hsize impsF _ eq_refl); [done| |by vm_compute..].
    repeat (apply Forall_cons; split); try (by apply Forall_nil); cbn; by apply Hconst.
  - rewrite (Hsize requestsF _ eq_refl); [| |by vm_compute..].
    + cbn. unfold demandTypesAsString, requestTypesAsString, browserTypesAsString,
        cookieTypesAsString, requestStatusesAsString. rewrite !Hlen. unfold product. cbn.
      first [reflexivity | rewrite ?Nat.mul_1_r, ?Nat.mul_assoc; reflexivity | lia].
    + apply Forall_app. split; [exact Hshared|]. repeat (apply Forall_cons; split); try (by apply Forall_nil); cbn; by apply Hstr.
  - rewrite (Hsize reqTimerF _ eq_refl); [| |by vm_compute..].
    + cbn. unfold demandTypesAsString, requestTypesAsString, browserTypesAsString,
        cookieTypesAsString, requestStatusesAsString. rewrite !Hlen. unfold product. cbn.
      first [reflexivity | rewrite ?Nat.mul_1_r, ?Nat.mul_assoc; reflexivity | lia].
    + apply Forall_app. split; [exact Hshared|]. repeat (apply Forall_cons; split); try (by apply Forall_nil); cbn; by apply Hstr.
  - intros f Hf.
    assert (Hdims : dimensions D f
              = Some (sharedDims D ++ [ (adapterLabel, adaptersAsString D);
                                        (adapterBidLabel, adapterBidsAsString D) ])).
    { repeat (apply elem_of_cons in Hf as [->|Hf]); try reflexivity.
      by apply elem_of_nil in Hf. }
    rewrite (Hsize f _ Hdims); [| |by vm_compute..].
    + cbn. unfold demandTypesAsString, requestTypesAsString, browserTypesAsString,
        cookieTypesAsString, adaptersAsString, adapterBidsAsString.
      rewrite !Hlen. unfold product. cbn.
      first [reflexivity | rewrite ?Nat.mul_1_r, ?Nat.mul_assoc; reflexivity | lia].
    + apply Forall_app. split; [exact Hshared|]. repeat (apply Forall_cons; split); try (by apply Forall_nil); cbn; by apply Hstr.
  - rewrite (Hsize adaptBidsF _ eq_refl); [| |by vm_compute..].
    + cbn. unfold demandTypesAsString, requestTypesAsString, browserTypesAsString,
        cookieTypesAsString, adaptersAsString, adapterBidsAsString, bidTypesAsString.
      rewrite !Hlen. unfold product. cbn.
      first [reflexivity | rewrite ?Nat.mul_1_r, ?Nat.mul_assoc; reflexivity | lia].
    + apply Forall_app. split; [exact Hshared|].
      repeat (apply Forall_cons; split); try (by apply Forall_nil); cbn; first [by apply Hstr | by apply Hconst].
  - rewrite (Hsize adaptErrorsF _ eq_refl); [| |by vm_compute..].
    + cbn. unfold demandTypesAsString, requestTypesAsString, browserTypesAsString,
        cookieTypesAsString, adaptersAsString, adapterErrorsAsString.
      rewrite !Hlen. unfold product. cbn.
      first [reflexivity | rewrite ?Nat.mul_1_r, ?Nat.mul_assoc; reflexivity | lia].
    + apply Forall_app. split; [exact Hshared|]. repeat (apply Forall_cons; split); try (by apply Forall_nil); cbn; by apply Hstr.
  - rewrite (Hsize adaptCookieSyncF _ eq_refl); [| |by vm_compute..].
    + cbn. unfold adaptersAsString. rewrite !Hlen. unfold product. cbn.
      first [reflexivity | rewrite ?Nat.mul_1_r, ?Nat.mul_assoc; reflexivity | lia].
    + repeat (apply Forall_cons; split); try (by apply Forall_nil); cbn; first [by apply Hstr | by apply Hconst].
  - rewrite (Hsize storedReqCacheResultF _ eq_refl); [| |by vm_compute..].
    + cbn. unfold cacheResultAsString. rewrite !Hlen. unfold product. cbn.
      first [reflexivity | rewrite ?Nat.mul_1_r, ?Nat.mul_assoc; reflexivity | lia].
    + repeat (apply Forall_cons; split); try (by apply Forall_nil); cbn; by apply Hstr.
  - rewrite (Hsize storedImpCacheResultF _ eq_refl); [| |by vm_compute..].
    + cbn. unfold cacheResultAsString. rewrite !Hlen. unfold product. cbn.
      first [reflexivity | rewrite ?Nat.mul_1_r, ?Nat.mul_assoc; reflexivity | lia].
    + repeat (apply Forall_cons; split); try (by apply Forall_nil); cbn; by apply Hstr.
  - by apply Hnone.
  - by apply Hnone.
Qed.

Lemma precreated_series_budget_witness :
  ∃ m, NewMetrics sampleDomains samplePrometheus = Some m
       ∧ size (series m requestsF) = 32
       ∧ size (series m adaptBidsF) = 256.
Proof.
  destruct NewMetrics_sample_returns as [m Hm]. exists m. split; [exact Hm|].
  assert (Hpop : populated sampleDomains) by (by repeat split).
  assert (Hnd : duplicateFree sampleDomains).
  { unfold duplicateFree, sampleDomains. cbn.
    split_and!; apply (bool_decide_unpack _); by vm_compute. }
  pose proof (precreated_series_budget sampleDomains samplePrometheus m Hm Hpop Hnd)
    as (_ & _ & Hreq & _ & _ & Hbids & _).
  split; [exact Hreq|exact Hbids].
Defined.

(** ** A refused amount *)

(** X13. A negative amount is refused after the series was looked up: under the
    declared families RecordStoredReqCacheResult, RecordStoredImpCacheResult
    and RecordLegacyImps with a negative amount panic, no series changes
    its reading, and the series the call addressed exists afterwards, at
    zero if [With] had to create it. *)
Theorem refused_amount_still_creates_the_series (cfg : config.PrometheusMetrics)
    (m : Metrics) (c : Call) (f : Family) (l : prometheus.Labels) (x : Z) :
  declares cfg m → additions c = [ (f, l, x) ] → (x < 0)%Z →
  ∃ m', call c m = Panicked m'
        ∧ series m' f = {[ l ]} ∪ series m f
        ∧ (∀ g, g ≠ f → series m' g = series m g)
        ∧ ∀ g l', value m' g l' = value m g l'.
Proof.
  intros Hm Hadd Hx.
  destruct (declares_labelNames cfg m Hm)
    as (HconnError & Himps & HlegacyImps & Hrequests & HreqTimer & HadaptRequests
        & HadaptPanics & HadaptTimer & HadaptBids & HstoredReq & HstoredImp
        & HadaptPrices & HadaptErrors & HadaptCookieSync & HuserID).
  assert (Hcache : ∀ e : string,
    prometheus.validLabels ["cache_result"] (cacheLabels e) = true)
    by (intros e; by vm_compute).
  assert (Hdefault : ∀ (s : gmap prometheus.Labels Z) l1 l2,
    default 0%Z (<[l1 := default 0%Z (s !! l1)]> s !! l2) = default 0%Z (s !! l2)).
  { intros s l1 l2. destruct (decide (l1 = l2)) as [->|Hne].
    - by rewrite lookup_insert_eq.
    - by rewrite lookup_insert_ne. }
  destruct c; cbn [additions] in Hadd;
    try destruct success; try discriminate Hadd;
    try (injection Hadd as <- <- <-; exfalso; lia).
  - injection Hadd as <- <- <-. cbn [call]. unfold RecordLegacyImps. cbn zeta.
    rewrite withAdd_valid by (rewrite HlegacyImps; apply resolveLabels_valid).
    rewrite (proj2 (Z.ltb_lt numImps 0)) by done. cbn [map_result].
    eexists. split; [reflexivity|]. split_and!.
    + cbn. by rewrite dom_insert_L.
    + intros g Hg. destruct g; try done.
    + intros g l'. unfold value. destruct g; cbn; try reflexivity. apply Hdefault.
  - injection Hadd as <- <- <-. cbn [call]. unfold RecordStoredReqCacheResult. cbn zeta.
    fold (cacheLabels cacheResult).
    rewrite withAdd_valid by (rewrite HstoredReq; apply Hcache).
    rewrite (proj2 (Z.ltb_lt inc 0)) by done. cbn [map_result].
    eexists. split; [reflexivity|]. split_and!.
    + cbn. by rewrite dom_insert_L.
    + intros g Hg. destruct g; try done.
    + intros g l'. unfold value. destruct g; cbn; try reflexivity. apply Hdefault.
  - injection Hadd as <- <- <-. cbn [call]. unfold RecordStoredImpCacheResult. cbn zeta.
    fold (cacheLabels cacheResult).
    rewrite withAdd_valid by (rewrite HstoredImp; apply Hcache).
    rewrite (proj2 (Z.ltb_lt inc 0)) by done. cbn [map_result].
    eexists. split; [reflexivity|]. split_and!.
    + cbn. by rewrite dom_insert_L.
    + intros g Hg. destruct g; try done.
    + intros g l'. unfold value. destruct g; cbn; try reflexivity. apply Hdefault.
Qed.

Lemma refused_amount_still_creates_the_series_witness :
  ∃ m m', NewMetrics sampleDomains samplePrometheus = Some m
          ∧ call (CallStoredReqCacheResult "stale" (-2)) m = Panicked m'
          ∧ series m' storedReqCacheResultF
            = {[ cacheLabels "stale" ]} ∪ series m storedReqCacheResultF.
Proof.
  destruct NewMetrics_sample_returns as [m Hm].
  destruct (refused_amount_still_creates_the_series samplePrometheus m
              (CallStoredReqCacheResult "stale" (-2)) storedReqCacheResultF
              (cacheLabels "stale") (-2) (NewMetrics_catalog _ _ _ Hm) eq_refl
              ltac:(lia)) as (m' & Hcall & Hser & _).
  exists m, m'. split; [exact Hm|]. split; [exact Hcall|exact Hser].
Defined.

(** ** The maps addDimension returns are not shared *)

Lemma holds_insert_fresh (h : Heap.heap) (ls : list nat) (Ls : list (gmap string string))
    (l : nat) (x : gmap string string) :
  l ∉ ls → Heap.holds h ls Ls → Heap.holds (<[l := x]> h) ls Ls.
Proof.
  intros Hl Hholds. unfold Heap.holds in *.
  induction Hholds as [|l0 m0 ls Ls Hl0 _ IH]; [constructor|].
  apply not_elem_of_cons in Hl as [Hne Hl].
  constructor; [|by apply IH]. by rewrite lookup_insert_ne.
Qed.

(** X14. On the heap, [addDimension] returns maps of its own: their addresses
    are new, differ from each other and from the addresses it was given.
    So a later write through one of the returned maps, as the next
    [addToLabel] makes, changes that map alone: the maps passed in hold
    what they held, and so does every other returned map. *)
Theorem addDimension_returns_unshared_maps (h : Heap.heap) (labels : list nat)
    (Ls : list (gmap string string)) (field : string) (values : list string) :
  Heap.holds h labels Ls →
  ∃ labels' h',
    Heap.addDimension labels field values h = Some (labels', h')
    ∧ NoDup labels'
    ∧ (∀ l, l ∈ labels' → (l ∉ labels) ∧ h !! l = None)
    ∧ ∀ i l k v, labels' !! i = Some l →
        ∃ h'', Heap.store l k v h' = Some (tt, h'')
               ∧ Heap.holds h'' labels Ls
               ∧ ∀ j l2, j ≠ i → labels' !! j = Some l2 → h'' !! l2 = h' !! l2.
Proof.
  intros Hholds.
  destruct (Heap.addDimension_spec h labels Ls field values Hholds)
    as (labels' & h' & Hrun & Hsub & Hout & Hin & Hfresh & Hnd).
  exists labels', h'. split; [exact Hrun|]. split; [exact Hnd|].
  assert (Hnew : ∀ l, l ∈ labels' → (l ∉ labels) ∧ h !! l = None).
  { intros l Hl. split; [|by apply Hfresh].
    intros Hold. destruct (Heap.holds_allocated h labels Ls l Hholds Hold) as [x Hx].
    rewrite (Hfresh l Hl) in Hx. discriminate Hx. }
  split; [exact Hnew|].
  intros i l k v Hi.
  assert (Hl : l ∈ labels') by (by eapply list_elem_of_lookup_2).
  destruct (Heap.holds_allocated h' labels' _ l Hout Hl) as [x Hx].
  exists (<[l := <[k := v]> x]> h'). split_and!.
  - unfold Heap.store. by rewrite Hx.
  - apply holds_insert_fresh; [apply Hnew, Hl|exact Hin].
  - intros j l2 Hji Hj. apply lookup_insert_ne. intros <-.
    apply Hji. by eapply NoDup_lookup.
Qed.

Lemma addDimension_returns_unshared_maps_witness :
  ∃ labels' h',
    Heap.addDimension [0] "adapter" ["appnexus"; "rubicon"] {[ 0 := {[ "cookie" := "no" ]} ]}
    = Some (labels', h')
    ∧ NoDup labels'.
Proof.
  destruct (addDimension_returns_unshared_maps {[ 0 := {[ "cookie" := "no" ]} ]} [0]
              [ {[ "cookie" := "no" ]} ] "adapter" ["appnexus"; "rubicon"])
    as (labels' & h' & Hrun & Hnd & _).
  - constructor; [apply lookup_singleton_eq|constructor].
  - exists labels', h'. split; [exact Hrun|exact Hnd].
Defined.

(** * Further properties of metrics.go *)

Section FanOutLaws.
Context {B : Type} {engineB : pbsmetrics.MetricsEngine B}.

Lemma Multi_record_app_eq (ev : pbsmetrics.Event) (me1 me2 : MultiMetricsEngine B) :
  Multi_record ev (me1 ++ me2)
  = match Multi_record ev me1 with
    | Returned me1' => map_result (app me1') (Multi_record ev me2)
    | Panicked me1' => Panicked (me1' ++ me2)
    end.
Proof.
  induction me1 as [|b me1 IH]; cbn [app Multi_record].
  - by destruct (Multi_record ev me2).
  - destruct (pbsmetrics.record ev b) as [b'|b']; [|done].
    rewrite IH. destruct (Multi_record ev me1) as [me1'|me1']; cbn [map_result]; [|done].
    by destruct (Multi_record ev me2).
Qed.

Lemma Multi_record_length (ev : pbsmetrics.Event) (me : MultiMetricsEngine B) :
  length (state_of (Multi_record ev me)) = length me.
Proof.
  induction me as [|b me IH]; [done|]. cbn [Multi_record].
  destruct (pbsmetrics.record ev b) as [b'|b']; [|done].
  rewrite state_of_map_result. cbn [length]. f_equal. exact IH.
Qed.

End FanOutLaws.

(** X15. A method call on the fan-out over two lists of backends one after the
    other is the call on the first list followed, when that returned, by
    the call on the second; when a backend of the first list panicked, the
    second list is left as it was. Whether the call returns or panics, the
    engine holds as many backends as before, and the fan-out over no
    backend returns at once. *)
Theorem fan_out_over_a_concatenation (B : Type) (engineB : pbsmetrics.MetricsEngine B)
    (ev : pbsmetrics.Event) (me1 me2 : MultiMetricsEngine B) :
  Multi_record ev (me1 ++ me2)
  = match Multi_record ev me1 with
    | Returned me1' => map_result (app me1') (Multi_record ev me2)
    | Panicked me1' => Panicked (me1' ++ me2)
    end
  ∧ length (state_of (Multi_record ev (me1 ++ me2))) = length me1 + length me2
  ∧ Multi_record ev ([] : MultiMetricsEngine B) = Returned [].
Proof.
  split_and!.
  - apply Multi_record_app_eq.
  - by rewrite Multi_record_length, length_app.
  - reflexivity.
Qed.

Section EngineLaws.
Context {GoMetrics : Type}.
Context (pbsmetrics_NewMetrics :
  string → list pbsmetrics.BidderName → config.DisabledMetrics → GoMetrics).
Context {engineGo : pbsmetrics.MetricsEngine GoMetrics}.
Context {engineProm : pbsmetrics.MetricsEngine prometheusmetrics.Metrics}.
Context (D : pbsmetrics.Domains).

(** The backends behind an interface value: those of the list for a
    fan-out, none for the no-op engine, the value itself otherwise. *)
Definition backends (e : EngineValue (GoMetrics := GoMetrics)) : list EngineValue :=
  match e with
  | OfMulti l => l
  | OfDummy _ => []
  | _ => [e]
  end.

Lemma Engine_record_backends (ev : pbsmetrics.Event) (e : EngineValue) :
  map_result backends (Engine_record ev e)
  = Multi_record (engineB := Engine_record) ev (backends e).
Proof.
  destruct e as [g|p|l|d|f]; cbn [backends Multi_record Engine_record];
    unfold pbsmetrics.record; cbn [Engine_record]; unfold pbsmetrics.record.
  - by destruct (engineGo ev g).
  - by destruct (engineProm ev p).
  - by destruct (Multi_record ev l).
  - reflexivity.
  - by destruct (Mock_record ev f).
Qed.

(** The backends a configuration makes NewMetricsEngine build, in the
    order it appends them. *)
Definition built (cfg : config.Configuration) (adapterList : list pbsmetrics.BidderName)
    (p : prometheusmetrics.Metrics) : list EngineValue :=
  (if decide (config.Host (config.Influxdb (config.cfg_Metrics cfg)) = "") then []
   else [ OfGoMetrics (pbsmetrics_NewMetrics "prebidserver." adapterList
                         (config.Disabled (config.cfg_Metrics cfg))) ])
  ++ (if decide (config.Port (config.Prometheus (config.cfg_Metrics cfg)) = 0%Z) then []
      else [ OfPrometheus p ]).

Lemma NewMetricsEngine_backends (cfg : config.Configuration)
    (adapterList : list pbsmetrics.BidderName) (p : prometheusmetrics.Metrics)
    (e : DetailedMetricsEngine) (started : list InfluxReporter) :
  NewMetrics D (config.Prometheus (config.cfg_Metrics cfg)) = Some p →
  NewMetricsEngine pbsmetrics_NewMetrics D cfg adapterList = Some (e, started) →
  backends (MetricsEngine e) = built cfg adapterList p.
Proof.
  intros Hp He. unfold built.
  destruct (NewMetricsEngine_cases pbsmetrics_NewMetrics D cfg adapterList)
    as (H1 & H2 & H3 & H4 & _).
  destruct (decide (config.Host (config.Influxdb (config.cfg_Metrics cfg)) = ""))
    as [Hhost|Hhost];
    destruct (decide (config.Port (config.Prometheus (config.cfg_Metrics cfg)) = 0%Z))
    as [Hport|Hport].
  - rewrite (H1 Hhost Hport) in He. by simplify_eq.
  - rewrite (H3 Hhost Hport p Hp) in He. by simplify_eq.
  - destruct (H2 Hhost Hport) as [started' Heq]. rewrite Heq in He. by simplify_eq.
  - destruct (H4 Hhost Hport p Hp) as [started' Heq]. rewrite Heq in He. by simplify_eq.
Qed.

End EngineLaws.

(** X16. The shape NewMetricsEngine gives the engine is not observable through
    the interface: a method call on any interface value is the fan-out of
    the call over the backends behind it, with the same outcome (return or
    panic) and the same backend states, where the no-op engine stands for
    the empty list and a backend returned directly for the list of that
    one backend. For the engine NewMetricsEngine returns, the backends are
    the go-metrics backend when Influx is configured and the Prometheus
    backend when its port is set, in this order. *)
Theorem engine_is_the_fan_out_over_its_backends (GoMetrics : Type)
    (pbsmetrics_NewMetrics :
       string → list pbsmetrics.BidderName → config.DisabledMetrics → GoMetrics)
    (engineGo : pbsmetrics.MetricsEngine GoMetrics)
    (engineProm : pbsmetrics.MetricsEngine prometheusmetrics.Metrics)
    (D : pbsmetrics.Domains) :
  (∀ (ev : pbsmetrics.Event) (e : EngineValue),
     map_result backends (Engine_record ev e)
     = Multi_record (engineB := Engine_record) ev (backends e))
  ∧ (∀ cfg adapterList p e started ev,
       NewMetrics D (config.Prometheus (config.cfg_Metrics cfg)) = Some p →
       NewMetricsEngine pbsmetrics_NewMetrics D cfg adapterList = Some (e, started) →
       map_result backends (Engine_record ev (MetricsEngine e))
       = Multi_record (engineB := Engine_record) ev
           (built pbsmetrics_NewMetrics cfg adapterList p)).
Proof.
  split.
  - apply Engine_record_backends.
  - intros cfg adapterList p e started ev Hp He.
    rewrite Engine_record_backends. f_equal.
    by eapply NewMetricsEngine_backends.
Qed.

Lemma engine_is_the_fan_out_over_its_backends_witness :
  ∃ p e started,
    NewMetricsEngine unitMetrics sampleDomains disabledConfiguration [] = Some (e, started)
    ∧ map_result backends
        (Engine_record (H := unit_record) (H0 := Prometheus_record)
           (pbsmetrics.RecordRequest sampleLabels) (MetricsEngine e))
      = Multi_record (engineB := Engine_record (H := unit_record)
                                   (H0 := Prometheus_record))
          (pbsmetrics.RecordRequest sampleLabels) [OfPrometheus p].
Proof.
  destruct NewMetrics_sample_returns as [p Hp].
  destruct (NewMetricsEngine_cases unitMetrics sampleDomains disabledConfiguration [])
    as (_ & _ & H3 & _).
  pose proof (H3 ltac:(done) ltac:(done) p Hp) as He.
  eexists p, _, _. split; [exact He|].
  exact (proj2 (engine_is_the_fan_out_over_its_backends unit unitMetrics unit_record
                  Prometheus_record sampleDomains)
           disabledConfiguration [] p _ _ (pbsmetrics.RecordRequest sampleLabels) Hp He).
Defined.

(** * The series a call creates *)

(** The assignments a call addresses with [With] on the family [f]: those
    of its additions and of its observation. *)
Definition addressed (c : Call) (f : Family) : gset prometheus.Labels :=
  list_to_set (omap (λ a : Family * prometheus.Labels * Z,
                       if decide (a.1.1 = f) then Some a.1.2 else None) (additions c))
  ∪ match observed c with
    | Some (f', l', _) => if decide (f' = f) then {[ l' ]} else ∅
    | None => ∅
    end.

Lemma dom_foldr_bump (labels : pbsmetrics.AdapterLabels) (ks : list pbsmetrics.AdapterError)
    (v : prometheus.CounterVec) :
  dom (prometheus.cv_series (foldr (bump labels) v ks))
  = dom (prometheus.cv_series v)
    ∪ list_to_set ((λ k, resolveAdapterErrorLabels labels (string_of k)) <$> ks).
Proof.
  induction ks as [|k ks IH]; cbn [foldr fmap list_fmap list_to_set].
  - by rewrite (right_id_L ∅ (∪)).
  - unfold bump at 1. cbn [prometheus.cv_series]. rewrite dom_insert_L, IH.
    rewrite (assoc_L (∪)), (comm_L (∪) {[ _ ]}), <-(assoc_L (∪)). done.
Qed.

Lemma omap_errors (labels : pbsmetrics.AdapterLabels) (ks : list pbsmetrics.AdapterError)
    (f : Family) :
  omap (λ a : Family * prometheus.Labels * Z,
          if decide (a.1.1 = f) then Some a.1.2 else None)
    ((λ k, (adaptErrorsF, resolveAdapterErrorLabels labels (string_of k), 1%Z)) <$> ks)
  = if decide (adaptErrorsF = f)
    then (λ k, resolveAdapterErrorLabels labels (string_of k)) <$> ks
    else [].
Proof.
  induction ks as [|k ks IH]; cbn [fmap list_fmap omap list_omap fst snd].
  - by case_decide.
  - rewrite IH. by case_decide.
Qed.

Lemma size_union_le (X Y : gset prometheus.Labels) : size (X ∪ Y) ≤ size X + size Y.
Proof.
  rewrite size_union_alt. apply Nat.add_le_mono_l, subseteq_size. set_solver.
Qed.

Lemma size_list_to_set_le (ls : list prometheus.Labels) :
  size (list_to_set ls : gset prometheus.Labels) ≤ length ls.
Proof.
  induction ls as [|l ls IH]; cbn [list_to_set length].
  - by rewrite size_empty.
  - etrans; [apply size_union_le|]. rewrite size_singleton. lia.
Qed.

Lemma addressed_size (c : Call) (f : Family) :
  size (addressed c f)
  ≤ match c with
    | CallAdapterRequest labels =>
        if decide (f = adaptErrorsF) then size (pbsmetrics.al_AdapterErrors labels) else 1
    | _ => if decide (f = adaptErrorsF) then 0 else 1
    end.
Proof.
  assert (Hone : ∀ l : prometheus.Labels,
    size (list_to_set [l] ∪ ∅ : gset prometheus.Labels) ≤ 1).
  { intros l. etrans; [apply size_union_le|].
    rewrite size_empty. pose proof (size_list_to_set_le [l]) as H. cbn [length] in H. lia. }
  assert (Hobs : ∀ l : prometheus.Labels,
    size (list_to_set [] ∪ {[ l ]} : gset prometheus.Labels) ≤ 1).
  { intros l. etrans; [apply size_union_le|].
    rewrite size_singleton. cbn [list_to_set]. rewrite size_empty. lia. }
  assert (Hnone : size (list_to_set [] ∪ ∅ : gset prometheus.Labels) = 0).
  { cbn [list_to_set]. by rewrite (right_id_L ∅ (∪)), size_empty. }
  unfold addressed.
  destruct c; try destruct success;
    cbn [additions observed omap list_omap fst snd];
    rewrite ?omap_errors;
    repeat (case_decide; try congruence; try discriminate);
    rewrite ?Hnone; try lia; try apply Hone; try apply Hobs.
  - rewrite (right_id_L ∅ (∪)). etrans; [apply size_list_to_set_le|].
    rewrite length_fmap. apply Nat.eq_le_incl. reflexivity.
Qed.

Ltac solve_series :=
  let f := fresh "f" in
  intros f; unfold addressed; cbn [additions observed omap list_omap fst snd];
  destruct f;
  cbn [series set_connError set_imps set_legacyImps set_requests set_reqTimer
       set_adaptRequests set_adaptTimer set_adaptBids set_adaptPrices set_adaptErrors
       set_adaptPanics set_adaptCookieSync set_userID set_storedReqCacheResult
       set_storedImpCacheResult
       connError imps legacyImps requests reqTimer adaptRequests adaptTimer adaptBids
       adaptPrices adaptErrors adaptPanics adaptCookieSync userID storedReqCacheResult
       storedImpCacheResult prometheus.cv_series prometheus.hv_series];
  repeat (case_decide; try discriminate);
  cbn [list_to_set]; rewrite ?dom_insert_L, ?(right_id_L ∅ (∪)), ?(left_id_L ∅ (∪));
  first [ reflexivity | apply (comm_L (∪)) | congruence ].

(** X17. A call creates exactly the series it addresses: under the declared
    families, after a call of any of the sixteen methods, with label values
    in the closed domains or not, returning or refused for a negative
    amount, the series of each family are those it had before and those
    the call addressed with [With] on that family: one assignment for
    most methods, the adapter assignment and one per adapter error key for
    RecordAdapterRequest, none for RecordCookieSync and the successful
    connection calls. So a call adds at most one series to a family, and
    RecordAdapterRequest at most as many error series as the context has
    error keys. *)
Theorem a_call_creates_the_series_it_addresses (cfg : config.PrometheusMetrics)
    (m : Metrics) (c : Call) :
  declares cfg m →
  (∀ f, series (state_of (call c m)) f = series m f ∪ addressed c f)
  ∧ (∀ f, f ≠ adaptErrorsF →
       size (series (state_of (call c m)) f) ≤ size (series m f) + 1)
  ∧ size (series (state_of (call c m)) adaptErrorsF)
    ≤ size (series m adaptErrorsF)
      + match c with
        | CallAdapterRequest labels => size (pbsmetrics.al_AdapterErrors labels)
        | _ => 0
        end.
Proof.
  intros Hm.
  destruct (declares_labelNames cfg m Hm)
    as (HconnError & Himps & HlegacyImps & Hrequests & HreqTimer & HadaptRequests
        & HadaptPanics & HadaptTimer & HadaptBids & HstoredReq & HstoredImp
        & HadaptPrices & HadaptErrors & HadaptCookieSync & HuserID).
  assert (Hconn : ∀ e : string,
    prometheus.validLabels ["ErrorType"] (connErrorLabels e) = true)
    by (intros e; by vm_compute).
  assert (Hcache : ∀ e : string,
    prometheus.validLabels ["cache_result"] (cacheLabels e) = true)
    by (intros e; by vm_compute).
  assert (Hcookie : ∀ (a : string) (b : bool),
    prometheus.validLabels [adapterLabel; gdprBlockedLabel] (cookieSyncLabels a b) = true)
    by (intros a []; by vm_compute).
  assert (Hseries : ∀ f, series (state_of (call c m)) f = series m f ∪ addressed c f).
  { destruct c; cbn [call].
    - unfold RecordConnectionAccept. destruct success.
      + cbn [state_of]. solve_series.
      + rewrite withLabelValuesInc_withAdd by (by rewrite HconnError).
        rewrite HconnError. fold (connErrorLabels "accept_error").
        rewrite withAdd_valid by (rewrite HconnError; apply Hconn).
        cbn [map_result state_of Z.ltb Z.compare]. solve_series.
    - unfold RecordConnectionClose. destruct success.
      + cbn [state_of]. solve_series.
      + rewrite withLabelValuesInc_withAdd by (by rewrite HconnError).
        rewrite HconnError. fold (connErrorLabels "close_error").
        rewrite withAdd_valid by (rewrite HconnError; apply Hconn).
        cbn [map_result state_of Z.ltb Z.compare]. solve_series.
    - unfold RecordRequest.
      rewrite withAdd_valid by (rewrite Hrequests; apply resolveLabels_valid).
      cbn [map_result state_of Z.ltb Z.compare]. solve_series.
    - unfold RecordImps.
      rewrite withAdd_valid by (rewrite Himps; apply resolveImpLabels_valid).
      cbn [map_result state_of Z.ltb Z.compare]. solve_series.
    - unfold RecordLegacyImps. cbn zeta.
      rewrite withAdd_valid by (rewrite HlegacyImps; apply resolveLabels_valid).
      destruct (numImps <? 0)%Z; cbn [map_result state_of]; solve_series.
    - unfold RecordRequestTime. cbn zeta.
      rewrite withObserve_valid by (rewrite HreqTimer; apply resolveLabels_valid).
      cbn [map_result state_of]. solve_series.
    - unfold RecordAdapterPanic.
      rewrite withAdd_valid by (rewrite HadaptPanics; apply resolveAdapterLabels_valid).
      cbn [map_result state_of Z.ltb Z.compare]. solve_series.
    - rewrite RecordAdapterRequest_fold.
      rewrite withAdd_valid by (rewrite HadaptRequests; apply resolveAdapterLabels_valid).
      cbn [Z.ltb Z.compare map_result and_then].
      rewrite adapterErrors_foldr_bump by exact HadaptErrors.
      cbn [state_of]. intros f. unfold addressed.
      cbn [additions observed omap list_omap fst snd]. rewrite omap_errors.
      destruct f;
        cbn [series set_adaptRequests set_adaptErrors connError imps legacyImps requests
             reqTimer adaptRequests adaptTimer adaptBids adaptPrices adaptErrors
             adaptPanics adaptCookieSync userID storedReqCacheResult
             storedImpCacheResult prometheus.cv_series prometheus.hv_series];
        repeat (case_decide; try discriminate);
        cbn [list_to_set];
        rewrite ?dom_foldr_bump, ?dom_insert_L, ?(right_id_L ∅ (∪)), ?(left_id_L ∅ (∪));
        first [ reflexivity | apply (comm_L (∪)) | congruence ].
    - unfold RecordAdapterBidReceived.
      rewrite withAdd_valid by (rewrite HadaptBids; apply resolveBidLabels_valid).
      cbn [map_result state_of Z.ltb Z.compare]. solve_series.
    - unfold RecordAdapterPrice.
      rewrite withObserve_valid by (rewrite HadaptPrices; apply resolveAdapterLabels_valid).
      cbn [map_result state_of]. solve_series.
    - unfold RecordAdapterTime. cbn zeta.
      rewrite withObserve_valid by (rewrite HadaptTimer; apply resolveAdapterLabels_valid).
      cbn [map_result state_of]. solve_series.
    - cbn [RecordCookieSync state_of]. solve_series.
    - unfold RecordAdapterCookieSync. cbn zeta. fold (cookieSyncLabels adapter gdprBlocked).
      rewrite withAdd_valid by (rewrite HadaptCookieSync; apply Hcookie).
      cbn [map_result state_of Z.ltb Z.compare]. solve_series.
    - unfold RecordStoredReqCacheResult. cbn zeta. fold (cacheLabels cacheResult).
      rewrite withAdd_valid by (rewrite HstoredReq; apply Hcache).
      destruct (inc <? 0)%Z; cbn [map_result state_of]; solve_series.
    - unfold RecordStoredImpCacheResult. cbn zeta. fold (cacheLabels cacheResult).
      rewrite withAdd_valid by (rewrite HstoredImp; apply Hcache).
      destruct (inc <? 0)%Z; cbn [map_result state_of]; solve_series.
    - unfold RecordUserIDSet.
      rewrite withAdd_valid by (rewrite HuserID; apply resolveUserSyncLabels_valid).
      cbn [map_result state_of Z.ltb Z.compare]. solve_series. }
  split; [exact Hseries|].
  pose proof (addressed_size c) as Hsize.
  split.
  - intros f Hf. rewrite Hseries. etrans; [apply size_union_le|].
    specialize (Hsize f).
    destruct c; cbv iota in Hsize |- *; rewrite decide_False in Hsize by done; lia.
  - rewrite Hseries. etrans; [apply size_union_le|].
    specialize (Hsize adaptErrorsF).
    destruct c; cbv iota in Hsize |- *; rewrite decide_True in Hsize by done; lia.
Qed.

Lemma a_call_creates_the_series_it_addresses_witness :
  ∃ m, NewMetrics sampleDomains samplePrometheus = Some m
       ∧ series (state_of (call (CallRequest strayLabels) m)) requestsF
         = series m requestsF ∪ {[ resolveLabels strayLabels ]}
       ∧ size (series (state_of (call (CallRequest strayLabels) m)) requestsF) ≤ 33.
Proof.
  destruct NewMetrics_sample_returns as [m Hm]. exists m. split; [exact Hm|].
  destruct (a_call_creates_the_series_it_addresses samplePrometheus m
              (CallRequest strayLabels) (NewMetrics_catalog _ _ _ Hm))
    as (Hser & Hsize & _).
  split.
  - rewrite Hser. reflexivity.
  - etrans; [apply (Hsize requestsF); done|].
    destruct (NewMetrics_Some _ _ _ Hm) as (_ & _ & Hpre). rewrite Hpre.
    apply (bool_decide_unpack _). by vm_compute.
Defined.

